(** * Kinesis batch handlers: a shallow embedding and its properties

    The development follows the JavaScript sources:
    - the module exporting [KinesisHandler] (concurrent fan-out driver) and
      [KinesisSynchronousHandler] (generator-driven ordered driver);
    - [lib/kinesis-handler.js], the earlier single-constructor module.

    JavaScript values are a first-order datatype, exceptions are an explicit
    [Throw] result, the mutable world (console, callback, counter, generator,
    timers) is threaded through a state-and-exception monad, and the event
    loop is a scheduler that runs pending tasks in an arbitrary order. *)

From stdpp Require Import gmap strings list pretty.
From Stdlib Require Import ZArith NArith Ascii Lia.

#[local] Set Warnings "-register-all".

Local Open Scope list_scope.

(** ** JavaScript values *)

Inductive JSV : Type :=
| JUndefined
| JNull
| JBool (b : bool)
| JNum (z : Z)
| JStr (s : string)
| JArr (elems : list JSV)
| JObj (fields : list (string * JSV))
| JError (name message : string).

(** [JNum z] is the Number nearest to the integer [z], which is what a
    numeral written in a program or in a JSON text denotes.

    [if (v)], [!v], [a && b]: ToBoolean.  The Number nearest to a non-zero
    integer is not zero, so the only falsy number is [JNum 0]. *)
Definition truthy (v : JSV) : bool :=
  match v with
  | JUndefined | JNull => false
  | JBool b => b
  | JNum z => negb (z =? 0)%Z
  | JStr s => negb (String.eqb s EmptyString)
  | JArr _ | JObj _ | JError _ _ => true
  end.

(** The Number nearest to a non-negative integer: 53 bits of precision,
    round to nearest, ties to even. *)
Definition nearestNumber (z : Z) : Z :=
  if (z <? 2 ^ 53)%Z then z
  else
    let e := (Z.log2 z - 52)%Z in
    let q := Z.shiftr z e in
    let r := (z - Z.shiftl q e)%Z in
    let half := Z.shiftl 1 (e - 1) in
    let m := if (r <? half)%Z then q
             else if (half <? r)%Z then (q + 1)%Z
             else if Z.even q then q else (q + 1)%Z in
    Z.shiftl m e.

Definition decimalDigits (z : Z) : Z := Z.of_nat (String.length (pretty z)).

(** The decimal with the fewest significant digits that still denotes the
    Number [x]; of two such decimals the one closer to [x], of two equally
    close ones the even one. *)
Definition shortestDecimal (x : Z) : Z :=
  let n := decimalDigits x in
  (fix go (fuel : nat) (k : Z) : Z :=
     match fuel with
     | O => x
     | S fuel' =>
         if (n <=? k)%Z then x
         else
           let p := (10 ^ (n - k))%Z in
           let lo := (x / p * p)%Z in
           let hi := (lo + p)%Z in
           let okLo := (nearestNumber lo =? x)%Z in
           let okHi := (nearestNumber hi =? x)%Z in
           if okLo && okHi then
             if (x - lo <? hi - x)%Z then lo
             else if (hi - x <? x - lo)%Z then hi
             else if Z.even (lo / p) then lo else hi
           else if okLo then lo
           else if okHi then hi
           else go fuel' (k + 1)%Z
     end) 17%nat 1%Z.

Fixpoint stripZeros (fuel : nat) (z : Z) : Z :=
  match fuel with
  | O => z
  | S fuel' => if (z mod 10 =? 0)%Z then stripZeros fuel' (z / 10)%Z else z
  end.

(** Number::toString of the Number nearest to [z], for [z >= 0]: all the
    digits up to twenty-one of them, the exponent form beyond. *)
Definition positiveText (z : Z) : string :=
  if (z <? 2 ^ 53)%Z then pretty z
  else
    let x := nearestNumber z in
    if (2 ^ 1024 <=? x)%Z then "Infinity"
    else
      let c := shortestDecimal x in
      let n := decimalDigits c in
      if (n <=? 21)%Z then pretty c
      else
        match pretty (stripZeros 400 c) with
        | String d EmptyString => String d EmptyString +:+ "e+" +:+ pretty (n - 1)%Z
        | String d rest => String d ("." +:+ rest) +:+ "e+" +:+ pretty (n - 1)%Z
        | EmptyString => EmptyString
        end.

Definition numberText (z : Z) : string :=
  if (z <? 0)%Z then "-" +:+ positiveText (- z) else positiveText z.

(** Template-literal interpolation [`${v}`]: the text ToString gives for a
    value it converts; [toString] below says which values it converts. *)
Fixpoint toStr (v : JSV) : string :=
  match v with
  | JUndefined => "undefined"
  | JNull => "null"
  | JBool true => "true"
  | JBool false => "false"
  | JNum z => numberText z
  | JStr s => s
  | JArr elems =>
      (fix join (l : list JSV) : string :=
         match l with
         | [] => EmptyString
         | x :: rest =>
             let sx := match x with
                       | JUndefined | JNull => EmptyString
                       | _ => toStr x
                       end in
             match rest with
             | [] => sx
             | _ :: _ => sx +:+ "," +:+ join rest
             end
         end) elems
  | JObj _ => "[object Object]"
  | JError name message =>
      if String.eqb name EmptyString then message
      else if String.eqb message EmptyString then name
      else name +:+ ": " +:+ message
  end.

(** Results of evaluating an expression or statement: a value, or a thrown
    JavaScript value. *)
Inductive result (A : Type) : Type :=
| Ok (a : A)
| Throw (ex : JSV).
Arguments Ok {A} a.
Arguments Throw {A} ex.

Definition TypeError (message : string) : JSV := JError "TypeError" message.
Definition newError (message : string) : JSV := JError "Error" message.

Fixpoint assoc (fields : list (string * JSV)) (k : string) : JSV :=
  match fields with
  | [] => JUndefined
  | (k', v) :: rest => if String.eqb k' k then v else assoc rest k
  end.

Fixpoint hasOwn (fields : list (string * JSV)) (k : string) : bool :=
  match fields with
  | [] => false
  | (k', _) :: rest => String.eqb k' k || hasOwn rest k
  end.

(** ToString succeeds on [v].  A value of this datatype holds no function,
    so an object with a [toString] property of its own has no callable
    [toString], and its [valueOf] hands the object back: the conversion
    throws.  An array converts its elements other than [null] and
    [undefined]. *)
Fixpoint convertible (v : JSV) : bool :=
  match v with
  | JObj fields => negb (hasOwn fields "toString")
  | JArr elems =>
      (fix all (l : list JSV) : bool :=
         match l with
         | [] => true
         | x :: rest => convertible x && all rest
         end) elems
  | _ => true
  end.

Definition unprintable : JSV := TypeError "Cannot convert object to primitive value".

(** ToString. *)
Definition toString (v : JSV) : result string :=
  if convertible v then Ok (toStr v) else Throw unprintable.

(** A template literal: the text it evaluates to once every interpolated
    value has been converted. *)
Definition interpolated (values : list JSV) (text : string) : result string :=
  if forallb convertible values then Ok text else Throw unprintable.

(** Property read [v.k].  The program only reads the keys [Records],
    [kinesis], [data], [schema], [self], [vendor], [name], [version] and
    [stack], none of which is found on the prototype of a primitive, an
    array or a plain object; an error object has a [name], a [message] and a
    [stack], whose frames below the first line are not modelled. *)
Definition getProp (v : JSV) (k : string) : result JSV :=
  match v with
  | JUndefined | JNull =>
      Throw (TypeError ("Cannot read property '" +:+ k +:+ "' of " +:+ toStr v))
  | JObj fields => Ok (assoc fields k)
  | JError name message =>
      if String.eqb k "name" then Ok (JStr name)
      else if String.eqb k "message" then Ok (JStr message)
      else if String.eqb k "stack" then Ok (JStr (toStr v))
      else Ok JUndefined
  | _ => Ok JUndefined
  end.

(** The double-quote character, as it occurs inside a message. *)
Definition dquote : string := String (Ascii.ascii_of_nat 34) EmptyString.

(** [`${ex.stack}`]: the read throws on [null] and [undefined]. *)
Definition stackText (ex : JSV) : result string :=
  match getProp ex "stack" with
  | Throw e => Throw e
  | Ok stack => toString stack
  end.

(** The text of [`${ex.stack}`] when [stackText] gives one. *)
Definition stackOf (ex : JSV) : string :=
  match getProp ex "stack" with
  | Ok stack => toStr stack
  | Throw _ => EmptyString
  end.

(** [hay.indexOf(needle)], as an integer: [-1] when absent. *)
Fixpoint indexOfFrom (needle hay : string) (pos : Z) : Z :=
  if String.prefix needle hay then pos
  else match hay with
       | EmptyString => (-1)%Z
       | String _ rest => indexOfFrom needle rest (pos + 1)%Z
       end.

Definition indexOf (hay needle : string) : Z := indexOfFrom needle hay 0%Z.

(** Strict equality [v === s] against a string. *)
Definition strictEqStr (v : JSV) (s : string) : bool :=
  match v with
  | JStr s' => String.eqb s' s
  | _ => false
  end.

(** ** Constants of the module *)

Module constants.
Definition MODULE : string := "lib/kinesisHandler.js".
Definition METHOD_PROCESS_EVENT : string := "processEvent".
Definition METHOD_PROCESS_KINESIS_EVENT : string := "processKinesisEvent".
Definition BAD_MSG : string := "bad msg:".
End constants.

(** ** External collaborators *)

(** The AJV validator instance: [addSchema] may throw (duplicate key,
    invalid schema); [validate] may throw (unknown key) and leaves the text
    returned by [errorsText]. *)
Class Validator : Type := {
  Ajv : Type;
  ajv_new : Ajv;
  ajv_addSchema : Ajv -> JSV -> string -> result Ajv;
  ajv_validate : Ajv -> string -> JSV -> result bool;
  ajv_errorsText : Ajv -> string -> JSV -> string;
}.

(** Node built-ins used by the decoders. *)
Class Runtime : Type := {
  Buffer_base64_toString : JSV -> result string;
  JSON_parse : string -> result JSV;
  JSON_stringify : JSV -> string;
}.

(** ** Functions as values *)

(** What a registered method does with its completion argument, in program
    order: call it within the current turn, arrange for it to be called in a
    later turn, or throw. *)
Inductive HAction : Type :=
| CompleteNow (err : JSV)
| CompleteLater (err : JSV)
| HThrow (ex : JSV).

(** The value passed as [method]: a function (with its [length] and its
    behaviour on an event) or any other value. *)
Inductive Method : Type :=
| MFun (length : nat) (body : JSV -> list HAction)
| MOther (v : JSV).

(** The value passed as [transformer]. *)
Inductive Transformer : Type :=
| TFun (length : nat) (body : JSV -> JSV -> result JSV)
| TOther (v : JSV).

(** [typeof f !== 'function' || f.length !== 2] *)
Definition notBinaryMethod (m : Method) : bool :=
  match m with
  | MFun n _ => negb (n =? 2)%nat
  | MOther _ => true
  end.

Definition notBinaryTransformer (t : Transformer) : bool :=
  match t with
  | TFun n _ => negb (n =? 2)%nat
  | TOther _ => true
  end.

Definition transformerTruthy (t : Transformer) : bool :=
  match t with
  | TFun _ _ => true
  | TOther v => truthy v
  end.

(** [makeSchemaId].  The three reads can only fail at the first of them,
    so they are written before the conversions. *)
Definition makeSchemaId (schema : JSV) : result string :=
  match getProp schema "self" with
  | Throw ex => Throw ex
  | Ok self =>
      match getProp self "vendor" with
      | Throw ex => Throw ex
      | Ok vendor =>
          match getProp self "name" with
          | Throw ex => Throw ex
          | Ok name =>
              match getProp self "version" with
              | Throw ex => Throw ex
              | Ok version =>
                  interpolated [vendor; name; version]
                    (toStr vendor +:+ "/" +:+ toStr name +:+ "/" +:+ toStr version)
              end
          end
      end
  end.

(** ** The observable world *)

(** What one run leaves behind, newest first.  [EvDecode], [EvInvoke] and
    [EvComplete] carry the index of the record they belong to; the index is
    bookkeeping of the model and never influences the control flow. *)
Inductive Event : Type :=
| EvLog (args : list JSV)                       (* console.log(...args) *)
| EvDecode (i : nat)                            (* new Buffer(record.kinesis.data, 'base64') *)
| EvInvoke (i : nat) (schema : string) (event : JSV)  (* a registered method is called *)
| EvComplete (i : nat) (err : JSV)              (* the per-record completion closure is entered *)
| EvCallback (arg : option JSV).                (* callback() / callback(arg) *)

(** Work left for a later turn of the event loop. *)
Inductive Task : Type :=
| TCompletion (i : nat) (event : JSV) (err : JSV) (* a method calls its completion later *)
| TTimeoutNext (arg : result JSV)               (* setTimeout(() => that.it.next(arg), 0); the
                                                   argument is evaluated when the timer fires *)
| TTimeoutSkip (schema : JSV).                  (* setTimeout(() => { console.log(..); that.it.next() }, 0) *)

(** The generator object behind [this.it]. *)
Inductive GenState : Type :=
| SuspendedStart
| SuspendedYield
| Executing
| Completed.

Record Gen : Type := mkGen {
  gstate : GenState;
  grecords : list JSV;      (* kinesisEvent.Records *)
  gi : nat;                 (* the loop variable i *)
  badMessages : list JSV;
}.

Record World : Type := mkWorld {
  trace : list Event;
  successes : nat;          (* the counter of the concurrent driver *)
  pending : list Task;
  crashed : option JSV;     (* an exception nobody caught ended the process *)
  it : option Gen;          (* this.it of the ordered driver; None is null *)
}.

Definition World0 : World := mkWorld [] 0 [] None None.

(** ** A state-and-exception monad over the world *)

Definition M (A : Type) : Type := World -> result A * World.

Definition ret {A} (a : A) : M A := fun w => (Ok a, w).

Definition bind {A B} (m : M A) (k : A -> M B) : M B :=
  fun w => match m w with
           | (Ok a, w') => k a w'
           | (Throw ex, w') => (Throw ex, w')
           end.

Definition throw {A} (ex : JSV) : M A := fun w => (Throw ex, w).

Definition lift {A} (r : result A) : M A := fun w => (r, w).

(** [try { body } catch (ex) { handler }] *)
Definition tryCatch {A} (body : M A) (handler : JSV -> M A) : M A :=
  fun w => match body w with
           | (Ok a, w') => (Ok a, w')
           | (Throw ex, w') => handler ex w'
           end.

Notation "'let*' x ':=' c 'in' k" := (bind c (fun x => k))
  (at level 10, x name, c at level 100, k at level 200).
Notation "c ';;;' k" := (bind c (fun _ => k))
  (at level 100, k at level 200, right associativity).

Definition emit (e : Event) : M unit :=
  fun w => (Ok tt, mkWorld (e :: trace w) (successes w) (pending w) (crashed w) (it w)).

Definition console_log (args : list JSV) : M unit := emit (EvLog args).

Definition callback (arg : option JSV) : M unit := emit (EvCallback arg).

Definition defer (t : Task) : M unit :=
  fun w => (Ok tt, mkWorld (trace w) (successes w) (pending w ++ [t]) (crashed w) (it w)).

Definition setSuccesses (n : nat) : M unit :=
  fun w => (Ok tt, mkWorld (trace w) n (pending w) (crashed w) (it w)).

Definition getSuccesses : M nat := fun w => (Ok (successes w), w).

Definition setIt (g : option Gen) : M unit :=
  fun w => (Ok tt, mkWorld (trace w) (successes w) (pending w) (crashed w) g).

Definition getIt : M (option Gen) := fun w => (Ok (it w), w).

(** A task run from the event loop: an exception that reaches the top of
    the stack is uncaught and ends the process. *)
Definition topLevel (m : M unit) (w : World) : World :=
  match m w with
  | (Ok _, w') => w'
  | (Throw ex, w') =>
      mkWorld (trace w') (successes w') (pending w') (Some ex) (it w')
  end.

(** Chronological views of the trace. *)
Definition callbacksOf (tr : list Event) : list (option JSV) :=
  rev (omap (fun e => match e with EvCallback a => Some a | _ => None end) tr).

Definition invocationsOf (tr : list Event) : list nat :=
  rev (omap (fun e => match e with EvInvoke i _ _ => Some i | _ => None end) tr).

Definition decodedOf (tr : list Event) : list nat :=
  rev (omap (fun e => match e with EvDecode i => Some i | _ => None end) tr).

Definition completionsOf (tr : list Event) : list (nat * JSV) :=
  rev (omap (fun e => match e with EvComplete i err => Some (i, err) | _ => None end) tr).

Definition logsOf (tr : list Event) : list (list JSV) :=
  rev (omap (fun e => match e with EvLog args => Some args | _ => None end) tr).

Definition callbacks (w : World) : list (option JSV) := callbacksOf (trace w).
Definition invocations (w : World) : list nat := invocationsOf (trace w).
Definition decoded (w : World) : list nat := decodedOf (trace w).
Definition completions (w : World) : list (nat * JSV) := completionsOf (trace w).
Definition logs (w : World) : list (list JSV) := logsOf (trace w).

(** The world with further events on its trace and nothing else changed. *)
Definition addTrace (tr : list Event) (w : World) : World :=
  mkWorld (tr ++ trace w) (successes w) (pending w) (crashed w) (it w).

(** Events that are neither a callback, nor a method call, nor a completion. *)
Definition quiet (tr : list Event) : Prop :=
  callbacksOf tr = [] /\ invocationsOf tr = [] /\ completionsOf tr = [].

(** The queue without its task at position [p]. *)
Definition dequeue (p : nat) (w : World) : World :=
  mkWorld (trace w) (successes w) (delete p (pending w)) (crashed w) (it w).

(** The event loop: [picks] chooses, turn after turn, which pending task
    runs next (a position in the queue; a position past the end lets the
    turn pass).  Nothing runs once the process has ended. *)
Fixpoint runSchedule (run : Task -> World -> World) (picks : list nat) (w : World) : World :=
  match picks with
  | [] => w
  | p :: rest =>
      match crashed w with
      | Some _ => w
      | None =>
          match pending w !! p with
          | Some t => runSchedule run rest (run t (dequeue p w))
          | None => runSchedule run rest w
          end
      end
  end.

(** ** Instance state shared by both constructors *)

Section Handlers.
Context `{V : Validator} `{R : Runtime}.

(** The fields set on [this] by the constructors. *)
Record Handler : Type := mkHandler {
  eventSchemaId : string;
  module : JSV;
  transfomer : option Transformer;   (* None: the argument was not supplied *)
  schemaMethodPairs : gmap string Method;
  ajv : Ajv;
}.

(** [`${constants.MODULE} for ${this.module}`], for a module name that
    ToString converts. *)
Definition banner (h : Handler) : string :=
  constants.MODULE +:+ " for " +:+ toStr (module h).

Definition named (h : Handler) : bool := convertible (module h).

(** [console.log(`${constants.MODULE} for ${this.module} ...`)]: [values]
    are the further values the template interpolates, [rest] the text after
    the module name. *)
Definition say (h : Handler) (values : list JSV) (rest : string) : M unit :=
  let* line := lift (interpolated (module h :: values) (banner h +:+ " " +:+ rest)) in
  console_log [JStr line].

(** [`${constants.METHOD_PROCESS_EVENT} ${constants.BAD_MSG}`] *)
Definition badMsgPrefix : string :=
  constants.METHOD_PROCESS_EVENT +:+ " " +:+ constants.BAD_MSG.

(** [msg.indexOf(`${constants.MODULE} for ${this.module} ${constants.METHOD_PROCESS_EVENT} ${constants.BAD_MSG}`) !== -1]
    for [msg = `${constants.MODULE} for ${this.module} ${err}`], when both
    texts can be built. *)
Definition carriesMarker (h : Handler) (err : JSV) : bool :=
  negb (indexOf (banner h +:+ " " +:+ toStr err) (banner h +:+ " " +:+ badMsgPrefix) =? -1)%Z.

(** A completion value that the counter of the concurrent driver accepts:
    a falsy one, or one whose message can be built and carries the marker. *)
Definition nonFatal (h : Handler) (err : JSV) : bool :=
  negb (truthy err) || (named h && convertible err && carriesMarker h err).

(** What [throw new Error(`${constants.MODULE} for ${this.module} ${err}`)]
    throws: the [Error], or the [TypeError] of a conversion that fails. *)
Definition fatalError (h : Handler) (err : JSV) : JSV :=
  match interpolated [module h; err] (banner h +:+ " " +:+ toStr err) with
  | Ok msg => newError msg
  | Throw ex => ex
  end.

Definition transformerSupplied (t : option Transformer) : bool :=
  match t with
  | Some f => transformerTruthy f
  | None => false
  end.

(** The body shared by [function KinesisHandler] and
    [function KinesisSynchronousHandler] up to the method definitions. *)
Definition construct (eventSchema moduleName : JSV) (transformer : option Transformer)
  : result Handler :=
  if negb (truthy eventSchema) then
    Throw (newError "A schema for the event data on the Kinesis stream must be provided to this handler.")
  else if transformerSupplied transformer
          && match transformer with Some f => notBinaryTransformer f | None => false end then
    Throw (newError "Transformer must be a function of the form (payload, record) => { . . . return result}")
  else
    match makeSchemaId eventSchema with
    | Throw ex => Throw ex
    | Ok id =>
        let name := if truthy moduleName && negb (strictEqStr moduleName EmptyString)
                    then moduleName else JStr "unnamed module" in
        match ajv_addSchema ajv_new eventSchema id with
        | Throw ex => Throw ex
        | Ok a => Ok (mkHandler id name transformer ∅ a)
        end
    end.

Definition contractViolation : JSV :=
  newError "Method must be a function of the form (event, callback) => { . . . }".

(** [registerSchemaMethodPair], textually the same in both constructors.
    The result pairs the outcome of the call with the instance it leaves. *)
Definition registerSchemaMethodPair (h : Handler) (schema : JSV) (method : Method)
  : result unit * Handler :=
  match makeSchemaId schema with
  | Throw ex => (Throw ex, h)
  | Ok schemaId =>
      match ajv_addSchema (ajv h) schema schemaId with
      | Throw ex => (Throw ex, h)
      | Ok a =>
          let h1 := mkHandler (eventSchemaId h) (module h) (transfomer h)
                              (schemaMethodPairs h) a in
          if notBinaryMethod method then
            (Throw contractViolation, h1)
          else
            (Ok tt, mkHandler (eventSchemaId h) (module h) (transfomer h)
                              (<[schemaId := method]> (schemaMethodPairs h)) a)
      end
  end.

(** [Object.keys(this.schemaMethodPairs).indexOf(v) > -1] together with the
    read [this.schemaMethodPairs[v]]: [indexOf] compares with [===], so only
    a string equal to a key is found. *)
Definition registered (h : Handler) (v : JSV) : option (string * Method) :=
  match v with
  | JStr s => match schemaMethodPairs h !! s with
              | Some m => Some (s, m)
              | None => None
              end
  | _ => None
  end.

(** What a method does once called with [(event, complete)]. *)
Fixpoint runScript (complete : JSV -> M unit) (i : nat) (event : JSV)
    (script : list HAction) : M unit :=
  match script with
  | [] => ret tt
  | CompleteNow err :: rest =>
      complete err ;;; runScript complete i event rest
  | CompleteLater err :: rest =>
      defer (TCompletion i event err) ;;; runScript complete i event rest
  | HThrow ex :: _ => throw ex
  end.

(** [this.schemaMethodPairs[event.data.schema](event, complete)] *)
Definition callMethod (m : Method) (i : nat) (schema : string) (event : JSV)
    (complete : JSV -> M unit) : M unit :=
  match m with
  | MFun _ body =>
      emit (EvInvoke i schema event) ;;; runScript complete i event (body event)
  | MOther _ =>
      throw (TypeError "this.schemaMethodPairs[event.data.schema] is not a function")
  end.

(** [kinesisEvent && kinesisEvent.Records && Array.isArray(kinesisEvent.Records)],
    returning the array when the test passes. *)
Definition recordsOf (kinesisEvent : JSV) : option (list JSV) :=
  if truthy kinesisEvent then
    match getProp kinesisEvent "Records" with
    | Ok (JArr records) => Some records
    | _ => None
    end
  else None.

(** [if (this.transfomer) { parsed = this.transfomer(parsed, record) }]:
    the value of [parsed] afterwards. *)
Definition transform (h : Handler) (parsed record : JSV) : result JSV :=
  match transfomer h with
  | Some (TFun _ body) => body parsed record
  | Some (TOther v) =>
      if truthy v then Throw (TypeError "this.transfomer is not a function")
      else Ok parsed
  | None => Ok parsed
  end.

(** The [try] block around the decoding of one payload. *)
Definition decodePayload (h : Handler) (i : nat) (data : JSV) : M JSV :=
  emit (EvDecode i) ;;;
  let* payload := lift (Buffer_base64_toString data) in
  say h [] (constants.METHOD_PROCESS_KINESIS_EVENT +:+ " - payload: " +:+ payload) ;;;
  lift (JSON_parse payload).

(** The messages built by the dispatchers and the decoders. *)
Definition msgNoSchema : string :=
  badMsgPrefix +:+ " event did not specify a schema.".
Definition msgWrongSchema (h : Handler) (observed : JSV) : string :=
  badMsgPrefix +:+ " event did not have proper schema.  Observed: '" +:+ toStr observed
    +:+ "' expected: '" +:+ eventSchemaId h +:+ "'".
Definition msgInvalidEvent (h : Handler) (event : JSV) : string :=
  badMsgPrefix +:+ " could not validate event to '" +:+ eventSchemaId h
    +:+ "' schema.  Errors: " +:+ ajv_errorsText (ajv h) (eventSchemaId h) event.
Definition msgInvalidData (h : Handler) (schema : JSV) (data : JSV) : string :=
  badMsgPrefix +:+ " could not validate event to '" +:+ toStr schema
    +:+ "' schema. Errors: " +:+ ajv_errorsText (ajv h) (toStr schema) data.
Definition msgDecode (ex : JSV) : string :=
  badMsgPrefix +:+ " failed to decode and parse the data - " +:+ dquote +:+ stackOf ex
    +:+ dquote +:+ ".".
(** The same message as the [catch] block builds it: [ex.stack] is read and
    converted first. *)
Definition decodeMessage (ex : JSV) : result string :=
  match stackText ex with
  | Throw e => Throw e
  | Ok _ => Ok (msgDecode ex)
  end.
Definition msgMissing : string :=
  badMsgPrefix +:+ " record missing Kinesis data.".
Definition msgNoRecords (h : Handler) : string :=
  banner h +:+ " " +:+ constants.METHOD_PROCESS_KINESIS_EVENT +:+ " - no records received.".

(** The line logged by the concurrent dispatcher for an unsupported schema. *)
Definition unsupportedLog (h : Handler) (schema : JSV) : Event :=
  EvLog [JStr (banner h +:+ " " +:+ badMsgPrefix
                 +:+ " - event with unsupported data schema ("
                 +:+ toStr schema +:+ ") observed.")].

(** The first line logged by both [processKinesisEvent] methods. *)
Definition received (h : Handler) (kinesisEvent : JSV) : Event :=
  EvLog [JStr (banner h +:+ " " +:+ constants.METHOD_PROCESS_KINESIS_EVENT
                 +:+ " - Kinesis event received: " +:+ JSON_stringify kinesisEvent)].

(** The argument [`${constants.MODULE} for ${this.module} ... - no records received.`]
    of the callback. *)
Definition noRecords (h : Handler) : M unit :=
  let* msg := lift (interpolated [module h] (msgNoRecords h)) in
  callback (Some (JStr msg)).

(** The value of a message template, as an argument. *)
Definition described (msg : result string) : result JSV :=
  match msg with
  | Ok text => Ok (JStr text)
  | Throw ex => Throw ex
  end.

(** The [catch (ex)] block of both [processKinesisEvent] methods: the line
    it logs converts the module name, then reads and converts [ex.stack]. *)
Definition catchBlock (h : Handler) (ex : JSV) : M unit :=
  let* name := lift (toString (module h)) in
  let* stack := lift (stackText ex) in
  console_log [JStr ((constants.MODULE +:+ " for " +:+ name) +:+ " "
                       +:+ constants.METHOD_PROCESS_KINESIS_EVENT
                       +:+ " - exception: " +:+ stack)] ;;;
  callback (Some ex).

(** The [catch] block can build the line it logs for [ex]. *)
Definition reportable (h : Handler) (ex : JSV) : bool :=
  named h && match stackText ex with Ok _ => true | Throw _ => false end.

(** [kinesisEvent.Records.length], for a batch that passes the shape test. *)
Definition batchSize (kinesisEvent : JSV) : nat :=
  match recordsOf kinesisEvent with
  | Some records => length records
  | None => 0
  end.

(** *** Per-record classification

    The decisions of the decoder and of the dispatcher, read off the
    conditionals the two drivers share.  A rejection is described in a
    template literal; when the value it interpolates cannot be converted,
    the concurrent driver throws on the spot, and the ordered driver sets a
    timer that throws when it fires. *)
Inductive Outcome : Type :=
| Dispatched (key : string) (method : Method) (event : JSV)
| RejectedBadEnvelope (msg : string)
| RejectedBadSchema (msg : string)
| RejectedDecodeFailure (msg : string)
| RejectedUnsupportedSchema (schema : JSV)
| Dropped                      (* the payload parsed to a falsy value *)
| Raised (ex : JSV)            (* an exception leaves the iteration *)
| Indescribable (timer : Task). (* rejected, with a description that cannot be built *)

Definition dispatchOutcome (h : Handler) (event : JSV) : Outcome :=
  if negb (truthy event) then RejectedBadEnvelope msgNoSchema
  else
    match getProp event "schema" with
    | Throw ex => Raised ex
    | Ok schema =>
        if negb (truthy schema) then RejectedBadEnvelope msgNoSchema
        else if negb (strictEqStr schema (eventSchemaId h)) then
          if convertible schema then RejectedBadEnvelope (msgWrongSchema h schema)
          else Indescribable (TTimeoutNext (Throw unprintable))
        else
          match ajv_validate (ajv h) (eventSchemaId h) event with
          | Throw ex => Raised ex
          | Ok false => RejectedBadEnvelope (msgInvalidEvent h event)
          | Ok true =>
              match getProp event "data" with
              | Throw ex => Raised ex
              | Ok data =>
                  match getProp data "schema" with
                  | Throw ex => Raised ex
                  | Ok dataSchema =>
                      match registered h dataSchema with
                      | Some (key, method) =>
                          match ajv_validate (ajv h) key data with
                          | Throw ex => Raised ex
                          | Ok false => RejectedBadSchema (msgInvalidData h dataSchema data)
                          | Ok true => Dispatched key method event
                          end
                      | None =>
                          if convertible dataSchema then RejectedUnsupportedSchema dataSchema
                          else Indescribable (TTimeoutSkip dataSchema)
                      end
                  end
              end
          end
    end.

(** [record.kinesis && record.kinesis.data] *)
Definition payloadOf (record : JSV) : result JSV :=
  match getProp record "kinesis" with
  | Throw ex => Throw ex
  | Ok kinesis => if truthy kinesis then getProp kinesis "data" else Ok kinesis
  end.

(** [JSON.parse(new Buffer(data, 'base64').toString())] *)
Definition parsePayload (data : JSV) : result JSV :=
  match Buffer_base64_toString data with
  | Throw ex => Throw ex
  | Ok payload => JSON_parse payload
  end.

Definition recordOutcome (h : Handler) (record : JSV) : Outcome :=
  match payloadOf record with
  | Throw ex => Raised ex
  | Ok data =>
      if truthy data then
        match parsePayload data with
        | Throw ex =>
            match decodeMessage ex with
            | Throw e => Raised e
            | Ok msg => RejectedDecodeFailure msg
            end
        | Ok parsed =>
            if truthy parsed then
              match transform h parsed record with
              | Throw ex => Raised ex
              | Ok event => dispatchOutcome h event
              end
            else Dropped
        end
      else RejectedDecodeFailure msgMissing
  end.

End Handlers.

(** ** The concurrent driver: [KinesisHandler] *)

Module KinesisHandler.
Section Driver.
Context `{V : Validator} `{R : Runtime}.

(** The closure [complete] of [processKinesisEvent]; [N] is
    [kinesisEvent.Records.length]. *)
Definition complete (h : Handler) (N : nat) (i : nat) (err : JSV) : M unit :=
  emit (EvComplete i err) ;;;
  (if truthy err then
     console_log [err] ;;;
     let* msg := lift (interpolated [module h; err] (banner h +:+ " " +:+ toStr err)) in
     let* marker := lift (interpolated [module h] (banner h +:+ " " +:+ badMsgPrefix)) in
     if negb (indexOf msg marker =? -1)%Z then
       console_log [JStr "######################################################################################"] ;;;
       console_log [JStr msg] ;;;
       console_log [JStr "######################################################################################"] ;;;
       let* s := getSuccesses in
       setSuccesses (s + 1)
     else
       throw (newError msg)
   else
     let* s := getSuccesses in
     setSuccesses (s + 1)) ;;;
  let* s := getSuccesses in
  if (s =? N)%nat then
    say h [] (constants.METHOD_PROCESS_KINESIS_EVENT
                +:+ " - all " +:+ pretty N +:+ " events processed successfully.") ;;;
    callback None
  else ret tt.

(** [this.processEvent(event, complete)] *)
Definition processEvent (h : Handler) (i : nat) (event : JSV)
    (complete : JSV -> M unit) : M unit :=
  let* schema := (if truthy event then lift (getProp event "schema") else ret JUndefined) in
  if negb (truthy event) || negb (truthy schema) then
    complete (JStr msgNoSchema)
  else if negb (strictEqStr schema (eventSchemaId h)) then
    let* msg := lift (interpolated [schema] (msgWrongSchema h schema)) in
    complete (JStr msg)
  else
    let* valid := lift (ajv_validate (ajv h) (eventSchemaId h) event) in
    if negb valid then
      complete (JStr (msgInvalidEvent h event))
    else
      let* data := lift (getProp event "data") in
      let* dataSchema := lift (getProp data "schema") in
      match registered h dataSchema with
      | Some (key, method) =>
          let* validData := lift (ajv_validate (ajv h) key data) in
          if negb validData then
            complete (JStr (msgInvalidData h dataSchema data))
          else
            callMethod method i key event complete
      | None =>
          say h [dataSchema] (badMsgPrefix +:+ " - event with unsupported data schema ("
                                +:+ toStr dataSchema +:+ ") observed.") ;;;
          complete JUndefined
      end.

(** One iteration of the [for] loop over [kinesisEvent.Records]. *)
Definition processRecord (h : Handler) (N : nat) (i : nat) (record : JSV) : M unit :=
  let* kinesis := lift (getProp record "kinesis") in
  let* data := (if truthy kinesis then lift (getProp kinesis "data") else ret kinesis) in
  if truthy data then
    let* parsed :=
      tryCatch (decodePayload h i data)
               (fun ex => let* msg := lift (decodeMessage ex) in
                          complete h N i (JStr msg) ;;; ret JUndefined) in
    if truthy parsed then
      let* event := lift (transform h parsed record) in
      processEvent h i event (complete h N i)
    else ret tt
  else
    complete h N i (JStr msgMissing).

Fixpoint forRecords (h : Handler) (N : nat) (records : list JSV) (i : nat) : M unit :=
  match records with
  | [] => ret tt
  | record :: rest => processRecord h N i record ;;; forRecords h N rest (S i)
  end.

(** [this.processKinesisEvent(kinesisEvent, context, callback)]; [context]
    is not used by the body. *)
Definition tryBlock (h : Handler) (kinesisEvent : JSV) : M unit :=
  say h [] (constants.METHOD_PROCESS_KINESIS_EVENT
              +:+ " - Kinesis event received: " +:+ JSON_stringify kinesisEvent) ;;;
  match recordsOf kinesisEvent with
  | Some records =>
      setSuccesses 0 ;;;
      forRecords h (length records) records 0
  | None => noRecords h
  end.

Definition processKinesisEvent (h : Handler) (kinesisEvent : JSV) : M unit :=
  tryCatch (tryBlock h kinesisEvent) (catchBlock h).

(** A later turn of the event loop: a method calls [complete(err)]. *)
Definition runTask (h : Handler) (N : nat) (t : Task) (w : World) : World :=
  match t with
  | TCompletion i _ err => topLevel (complete h N i err) w
  | TTimeoutNext _ | TTimeoutSkip _ => w
  end.

(** A whole run: the call of [processKinesisEvent] on a fresh world,
    followed by the turns chosen by [picks]. *)
Definition run (h : Handler) (kinesisEvent : JSV) (picks : list nat) : World :=
  runSchedule (runTask h (batchSize kinesisEvent)) picks
              (snd (processKinesisEvent h kinesisEvent World0)).

End Driver.
End KinesisHandler.

(** ** The ordered driver: [KinesisSynchronousHandler] *)

Module KinesisSynchronousHandler.
Section Driver.
Context `{V : Validator} `{R : Runtime}.

Definition setGenState (st : GenState) : M unit :=
  fun w => (Ok tt,
            mkWorld (trace w) (successes w) (pending w) (crashed w)
                    (match it w with
                     | Some g => Some (mkGen st (grecords g) (gi g) (badMessages g))
                     | None => None
                     end)).

(** The generator pauses at [yield] inside iteration [i]. *)
Definition yieldAt (i : nat) : M unit :=
  fun w => (Ok tt,
            mkWorld (trace w) (successes w) (pending w) (crashed w)
                    (match it w with
                     | Some g => Some (mkGen SuspendedYield (grecords g) i (badMessages g))
                     | None => None
                     end)).

(** [badMessages.push(v)] *)
Definition pushBad (v : JSV) : M unit :=
  fun w => (Ok tt,
            mkWorld (trace w) (successes w) (pending w) (crashed w)
                    (match it w with
                     | Some g => Some (mkGen (gstate g) (grecords g) (gi g) (badMessages g ++ [v]))
                     | None => None
                     end)).

(** [that.it.next()] called from inside a method, that is while the
    generator body is on the stack: a running generator refuses to be
    resumed.  (The body runs in state [Executing] only, so the last case is
    never taken from there.) *)
Definition reentrantNext : M unit :=
  let* g := getIt in
  match g with
  | None => throw (TypeError "Cannot read property 'next' of null")
  | Some g =>
      match gstate g with
      | Executing => throw (TypeError "Generator is already running")
      | _ => ret tt
      end
  end.

(** The completion closure handed to a registered method. *)
Definition completion (h : Handler) (next : M unit) (i : nat) (event err : JSV) : M unit :=
  emit (EvComplete i err) ;;;
  if truthy err then
    console_log [JStr "Fatal error while processing. "; err] ;;;
    let* msg := lift (interpolated [module h; err] (banner h +:+ " " +:+ toStr err)) in
    throw (newError msg)
  else
    let* name := lift (toString (module h)) in
    let* data := lift (getProp event "data") in
    let* dataSchema := lift (getProp data "schema") in
    let* kind := lift (toString dataSchema) in
    console_log [JStr ((constants.MODULE +:+ " for " +:+ name) +:+ " "
                         +:+ constants.METHOD_PROCESS_KINESIS_EVENT
                         +:+ " - one " +:+ kind +:+ " event processed successfully.")] ;;;
    next.

(** [this.processEvent(event)] *)
Definition processEvent (h : Handler) (i : nat) (event : JSV) : M unit :=
  let* schema := (if truthy event then lift (getProp event "schema") else ret JUndefined) in
  if negb (truthy event) || negb (truthy schema) then
    defer (TTimeoutNext (Ok (JStr msgNoSchema)))
  else if negb (strictEqStr schema (eventSchemaId h)) then
    defer (TTimeoutNext (described (interpolated [schema] (msgWrongSchema h schema))))
  else
    let* valid := lift (ajv_validate (ajv h) (eventSchemaId h) event) in
    if negb valid then
      defer (TTimeoutNext (Ok (JStr (msgInvalidEvent h event))))
    else
      let* data := lift (getProp event "data") in
      let* dataSchema := lift (getProp data "schema") in
      match registered h dataSchema with
      | Some (key, method) =>
          let* validData := lift (ajv_validate (ajv h) key data) in
          if negb validData then
            defer (TTimeoutNext (Ok (JStr (msgInvalidData h dataSchema data))))
          else
            callMethod method i key event (completion h reentrantNext i event)
      | None =>
          defer (TTimeoutSkip dataSchema)
      end.

(** The body of [recordGenerator] from the top of iteration [i], where
    [records] are the records from position [i] on; it runs up to the next
    [yield] or to the end of the function. *)
Fixpoint recordGenerator (h : Handler) (records : list JSV) (i : nat) : M unit :=
  match records with
  | [] =>
      let* g := getIt in
      console_log [JStr "Messages with invalid data: ";
                   JArr (match g with Some g => badMessages g | None => [] end)] ;;;
      setGenState Completed
  | record :: rest =>
      let* kinesis := lift (getProp record "kinesis") in
      let* data := (if truthy kinesis then lift (getProp kinesis "data") else ret kinesis) in
      if truthy data then
        let* parsed :=
          tryCatch (decodePayload h i data)
                   (fun ex => let* msg := lift (decodeMessage ex) in
                              pushBad (JStr msg) ;;; ret JUndefined) in
        if truthy parsed then
          let* event := lift (transform h parsed record) in
          processEvent h i event ;;;
          yieldAt i
        else recordGenerator h rest (S i)
      else
        pushBad (JStr msgMissing) ;;;
        recordGenerator h rest (S i)
  end.

(** An exception leaving the body finishes the generator. *)
Definition genRun (body : M unit) : M unit :=
  setGenState Executing ;;;
  tryCatch body (fun ex => setGenState Completed ;;; throw ex).

(** [that.it.next(arg)] called from a fresh stack. *)
Definition itNext (h : Handler) (arg : JSV) : M unit :=
  let* g := getIt in
  match g with
  | None => throw (TypeError "Cannot read property 'next' of null")
  | Some g =>
      match gstate g with
      | Executing => throw (TypeError "Generator is already running")
      | Completed => ret tt
      | SuspendedStart => genRun (recordGenerator h (grecords g) 0)
      | SuspendedYield =>
          genRun ((* const recordError = yield ...; if (recordError) { ... } *)
                  (if truthy arg then pushBad arg else ret tt) ;;;
                  recordGenerator h (drop (S (gi g)) (grecords g)) (S (gi g)))
      end
  end.

(** [this.processKinesisEvent(kinesisEvent, context, callback)] *)
Definition tryBlock (h : Handler) (kinesisEvent : JSV) : M unit :=
  say h [] (constants.METHOD_PROCESS_KINESIS_EVENT
              +:+ " - Kinesis event received: " +:+ JSON_stringify kinesisEvent) ;;;
  match recordsOf kinesisEvent with
  | Some records =>
      setIt (Some (mkGen SuspendedStart records 0 [])) ;;;
      itNext h JUndefined
  | None => noRecords h
  end.

Definition processKinesisEvent (h : Handler) (kinesisEvent : JSV) : M unit :=
  tryCatch (tryBlock h kinesisEvent) (catchBlock h).

(** A later turn of the event loop. *)
Definition runTask (h : Handler) (t : Task) (w : World) : World :=
  match t with
  | TCompletion i event err =>
      topLevel (completion h (itNext h JUndefined) i event err) w
  | TTimeoutNext arg =>
      topLevel (let* v := lift arg in itNext h v) w
  | TTimeoutSkip schema =>
      topLevel (say h [schema] (constants.METHOD_PROCESS_EVENT
                                  +:+ " - skipping event with unsupported data schema ("
                                  +:+ toStr schema +:+ ").") ;;;
                itNext h JUndefined) w
  end.

Definition run (h : Handler) (kinesisEvent : JSV) (picks : list nat) : World :=
  runSchedule (runTask h) picks (snd (processKinesisEvent h kinesisEvent World0)).

End Driver.
End KinesisSynchronousHandler.

(** ** The earlier module: [lib/kinesis-handler.js] *)

Module Legacy.
Section Registry.
Context `{V : Validator}.

(** The fields set on [this] by [function KinesisHandler(schema, synch, moduleName)]. *)
Record Handler : Type := mkHandler {
  eventSchemaId : string;
  synch : JSV;
  module : JSV;
  schemaMethodPairs : gmap string Method;
  ajv : Ajv;
}.

(** The constructor up to the method definitions; [this.module] is not set
    before it is read, so an absent name leaves it undefined. *)
Definition construct (schema synch moduleName : JSV) : result Handler :=
  if negb (truthy schema) then
    Throw (newError "A schema for the event data on the Kinesis stream must be provided to this handler.")
  else
    match makeSchemaId schema with
    | Throw ex => Throw ex
    | Ok id =>
        let name := if truthy moduleName && negb (strictEqStr moduleName EmptyString)
                    then moduleName else JUndefined in
        match ajv_addSchema ajv_new schema id with
        | Throw ex => Throw ex
        | Ok a => Ok (mkHandler id synch name ∅ a)
        end
    end.

(** [registerSchemaMethodPair] of [lib/kinesis-handler.js]: the method is
    stored as it comes ("TODO enforce this"). *)
Definition registerSchemaMethodPair (h : Handler) (schema : JSV) (method : Method)
  : result unit * Handler :=
  match makeSchemaId schema with
  | Throw ex => (Throw ex, h)
  | Ok schemaId =>
      match ajv_addSchema (ajv h) schema schemaId with
      | Throw ex => (Throw ex, h)
      | Ok a =>
          (Ok tt, mkHandler (eventSchemaId h) (synch h) (module h)
                            (<[schemaId := method]> (schemaMethodPairs h)) a)
      end
  end.

End Registry.

Section Driver.
Context `{V : Validator} `{R : Runtime}.

(** [`${this.module}`], for a module name that ToString converts. *)
Definition label (h : Handler) : string := toStr (module h).

Definition named (h : Handler) : bool := convertible (module h).

(** [console.log(`${this.module} ...`)]: [values] are the further values
    the template interpolates, [rest] the text after the module name. *)
Definition say (h : Handler) (values : list JSV) (rest : string) : M unit :=
  let* line := lift (interpolated (module h :: values) (label h +:+ " " +:+ rest)) in
  console_log [JStr line].

(** [msg.indexOf(`${this.module} ${constants.METHOD_PROCESS_EVENT} ${constants.BAD_MSG}`) !== -1]
    for [msg = `${this.module} ${err}`], when both texts can be built. *)
Definition carriesMarker (h : Handler) (err : JSV) : bool :=
  negb (indexOf (label h +:+ " " +:+ toStr err) (label h +:+ " " +:+ badMsgPrefix) =? -1)%Z.

(** The closure [complete] of [processKinesisEvent]; [N] is
    [kinesisEvent.Records.length]. *)
Definition complete (h : Handler) (N : nat) (i : nat) (err : JSV) : M unit :=
  emit (EvComplete i err) ;;;
  (if truthy err then
     console_log [err] ;;;
     let* msg := lift (interpolated [module h; err] (label h +:+ " " +:+ toStr err)) in
     let* marker := lift (interpolated [module h] (label h +:+ " " +:+ badMsgPrefix)) in
     if negb (indexOf msg marker =? -1)%Z then
       console_log [JStr "######################################################################################"] ;;;
       console_log [JStr msg] ;;;
       console_log [JStr "######################################################################################"] ;;;
       let* s := getSuccesses in
       setSuccesses (s + 1)
     else
       throw (newError msg)
   else
     let* s := getSuccesses in
     setSuccesses (s + 1)) ;;;
  let* s := getSuccesses in
  if (s =? N)%nat then
    say h [] (constants.METHOD_PROCESS_KINESIS_EVENT
                +:+ " - all " +:+ pretty N +:+ " events processed successfully.") ;;;
    callback None
  else ret tt.

(** The [try] block around the decoding of one payload. *)
Definition decodePayload (h : Handler) (i : nat) (data : JSV) : M JSV :=
  emit (EvDecode i) ;;;
  let* payload := lift (Buffer_base64_toString data) in
  say h [] (constants.METHOD_PROCESS_KINESIS_EVENT +:+ " - payload: " +:+ payload) ;;;
  lift (JSON_parse payload).

(** Evaluating [impl.processEvent]: the identifier [impl] is bound neither
    in the function, nor in the constructor, nor in the module. *)
Definition implNotDefined : JSV := JError "ReferenceError" "impl is not defined".

(** One iteration of the [for] loop over [kinesisEvent.Records]. *)
Definition processRecord (h : Handler) (N : nat) (i : nat) (record : JSV) : M unit :=
  let* kinesis := lift (getProp record "kinesis") in
  let* data := (if truthy kinesis then lift (getProp kinesis "data") else ret kinesis) in
  if truthy data then
    let* parsed :=
      tryCatch (decodePayload h i data)
               (fun ex => let* msg := lift (decodeMessage ex) in
                          complete h N i (JStr msg) ;;; ret JUndefined) in
    if truthy parsed then
      throw implNotDefined
    else ret tt
  else
    complete h N i (JStr msgMissing).

Fixpoint forRecords (h : Handler) (N : nat) (records : list JSV) (i : nat) : M unit :=
  match records with
  | [] => ret tt
  | record :: rest => processRecord h N i record ;;; forRecords h N rest (S i)
  end.

Definition msgNoRecords (h : Handler) : string :=
  label h +:+ " " +:+ constants.METHOD_PROCESS_KINESIS_EVENT +:+ " - no records received.".

Definition tryBlock (h : Handler) (kinesisEvent : JSV) : M unit :=
  say h [] (constants.METHOD_PROCESS_KINESIS_EVENT
              +:+ " - Kinesis event received: " +:+ JSON_stringify kinesisEvent) ;;;
  match recordsOf kinesisEvent with
  | Some records =>
      setSuccesses 0 ;;;
      forRecords h (length records) records 0
  | None =>
      let* msg := lift (interpolated [module h] (msgNoRecords h)) in
      callback (Some (JStr msg))
  end.

(** The [catch (ex)] block: the line it logs converts the module name, then
    reads and converts [ex.stack]. *)
Definition catchBlock (h : Handler) (ex : JSV) : M unit :=
  let* name := lift (toString (module h)) in
  let* stack := lift (stackText ex) in
  console_log [JStr (name +:+ " " +:+ constants.METHOD_PROCESS_KINESIS_EVENT
                       +:+ " - exception: " +:+ stack)] ;;;
  callback (Some ex).

(** [this.handler(kinesisEvent, context, callback)] *)
Definition processKinesisEvent (h : Handler) (kinesisEvent : JSV) : M unit :=
  if truthy (synch h) then
    console_log [JStr "TODO implement synchronous batch handling."]
  else
    tryCatch (tryBlock h kinesisEvent) (catchBlock h).

(** What the loop does with one record, on an instance whose module name
    converts: count a bad message, go on without counting (the payload
    parsed to a falsy value), or leave the loop with an exception. *)
Inductive Fate : Type :=
| Counted (msg : string)
| Skipped
| Halts (ex : JSV).

Definition fate (record : JSV) : Fate :=
  match payloadOf record with
  | Throw ex => Halts ex
  | Ok data =>
      if truthy data then
        match parsePayload data with
        | Throw ex =>
            match decodeMessage ex with
            | Throw e => Halts e
            | Ok msg => Counted msg
            end
        | Ok parsed => if truthy parsed then Halts implNotDefined else Skipped
        end
      else Counted msgMissing
  end.

Fixpoint firstHalt (records : list JSV) : option JSV :=
  match records with
  | [] => None
  | record :: rest =>
      match fate record with
      | Halts ex => Some ex
      | _ => firstHalt rest
      end
  end.

Definition allCounted (records : list JSV) : bool :=
  forallb (fun record => match fate record with Counted _ => true | _ => false end) records.

End Driver.
End Legacy.

(** ** A concrete installation, used to run the drivers *)

Module Sample.

(** A validator that understands the [required] keyword: an instance is
    valid when it is an object carrying every listed property.  Keys are
    unique, as in AJV. *)
Definition hasProp (v : JSV) (k : JSV) : bool :=
  match v, k with
  | JObj fields, JStr name =>
      match assoc fields name with
      | JUndefined => false
      | _ => true
      end
  | _, _ => false
  end.

Definition requiredOf (schema : JSV) : list JSV :=
  match schema with
  | JObj fields => match assoc fields "required" with
                   | JArr names => names
                   | _ => []
                   end
  | _ => []
  end.

Fixpoint findSchema (store : list (string * JSV)) (key : string) : option JSV :=
  match store with
  | [] => None
  | (k, schema) :: rest => if String.eqb k key then Some schema else findSchema rest key
  end.

#[export] Instance validator : Validator := {|
  Ajv := list (string * JSV);
  ajv_new := [];
  ajv_addSchema store schema key :=
    match findSchema store key with
    | Some _ => Throw (newError ("schema with key or id " +:+ key +:+ " already exists"))
    | None => Ok ((key, schema) :: store)
    end;
  ajv_validate store key instance :=
    match findSchema store key with
    | Some schema => Ok (forallb (hasProp instance) (requiredOf schema))
    | None => Throw (newError ("no schema with key or ref " +:+ key))
    end;
  ajv_errorsText _ _ _ := "data should have required property";
|}.

Definition envelopeId : string := "com.nordstrom/retail-stream/1-0-0".
Definition productId : string := "com.nordstrom/product/1-0-0".

Definition selfOf (vendor name version : string) : JSV :=
  JObj [("vendor", JStr vendor); ("name", JStr name); ("version", JStr version)].

Definition envelopeSchema : JSV :=
  JObj [("self", selfOf "com.nordstrom" "retail-stream" "1-0-0");
        ("required", JArr [JStr "schema"])].

Definition productSchema : JSV :=
  JObj [("self", selfOf "com.nordstrom" "product" "1-0-0");
        ("required", JArr [JStr "schema"; JStr "id"])].

(** [{"schema": envelopeId, "data": {"schema": productId, "id": id}}] *)
Definition productEvent (id : Z) : JSV :=
  JObj [("schema", JStr envelopeId);
        ("data", JObj [("schema", JStr productId); ("id", JNum id)])].

(** [{"schema": envelopeId, "data": {"schema": "com.nordstrom/other/1-0-0"}}] *)
Definition otherEvent : JSV :=
  JObj [("schema", JStr envelopeId);
        ("data", JObj [("schema", JStr "com.nordstrom/other/1-0-0")])].

(** [{"schema": envelopeId}] *)
Definition noDataEvent : JSV := JObj [("schema", JStr envelopeId)].

(** [{"schema": "com.acme/stream/1-0-0"}] *)
Definition strangerEvent : JSV := JObj [("schema", JStr "com.acme/stream/1-0-0")].

(** Base64 decoding as Node does it: characters outside the alphabet are
    skipped and decoding stops at the padding. *)
Definition sextet (c : ascii) : option N :=
  let n := N_of_ascii c in
  if (65 <=? n)%N && (n <=? 90)%N then Some (n - 65)%N
  else if (97 <=? n)%N && (n <=? 122)%N then Some (n - 71)%N
  else if (48 <=? n)%N && (n <=? 57)%N then Some (n + 4)%N
  else if (n =? 43)%N || (n =? 45)%N then Some 62%N
  else if (n =? 47)%N || (n =? 95)%N then Some 63%N
  else None.

Fixpoint sextets (s : string) : list N :=
  match s with
  | EmptyString => []
  | String c rest =>
      if (N_of_ascii c =? 61)%N then []
      else match sextet c with
           | Some v => v :: sextets rest
           | None => sextets rest
           end
  end.

Fixpoint octets (l : list N) : string :=
  match l with
  | a :: b :: c :: d :: rest =>
      String (ascii_of_N (a * 4 + b / 16))
        (String (ascii_of_N ((b mod 16) * 16 + c / 4))
           (String (ascii_of_N ((c mod 4) * 64 + d)) (octets rest)))
  | [a; b; c] =>
      String (ascii_of_N (a * 4 + b / 16))
        (String (ascii_of_N ((b mod 16) * 16 + c / 4)) EmptyString)
  | [a; b] => String (ascii_of_N (a * 4 + b / 16)) EmptyString
  | _ => EmptyString
  end.

Definition base64Decode (s : string) : string := octets (sextets s).

(** Compact JSON text of a value built from null, booleans, integers,
    plain strings, arrays and objects. *)
Fixpoint jsonText (v : JSV) : string :=
  match v with
  | JStr s => dquote +:+ s +:+ dquote
  | JArr elems =>
      "[" +:+ (fix items (l : list JSV) : string :=
                 match l with
                 | [] => EmptyString
                 | x :: rest =>
                     match rest with
                     | [] => jsonText x
                     | _ :: _ => jsonText x +:+ "," +:+ items rest
                     end
                 end) elems +:+ "]"
  | JObj fields =>
      "{" +:+ (fix members (l : list (string * JSV)) : string :=
                 match l with
                 | [] => EmptyString
                 | (k, x) :: rest =>
                     let member := dquote +:+ k +:+ dquote +:+ ":" +:+ jsonText x in
                     match rest with
                     | [] => member
                     | _ :: _ => member +:+ "," +:+ members rest
                     end
                 end) fields +:+ "}"
  | JError _ _ => "{}"
  | _ => toStr v
  end.

(** [{"schema": envelopeId, "data": {"schema": {"toString": 1}}}] *)
Definition opaqueEvent : JSV :=
  JObj [("schema", JStr envelopeId);
        ("data", JObj [("schema", JObj [("toString", JNum 1)])])].

(** [{"schema": {"toString": 1}}] *)
Definition opaqueEnvelopeEvent : JSV := JObj [("schema", JObj [("toString", JNum 1)])].

(** The JSON values that occur in the payloads below; [JSON.parse] knows
    their texts and takes any other text not to be JSON. *)
Definition knownValues : list JSV :=
  [JNull; JNum 0; productEvent 1; productEvent 3; productEvent 5;
   otherEvent; noDataEvent; strangerEvent; opaqueEvent; opaqueEnvelopeEvent].

Fixpoint parseKnown (known : list JSV) (text : string) : result JSV :=
  match known with
  | [] => Throw (JError "SyntaxError" "Unexpected token in JSON")
  | v :: rest => if String.eqb (jsonText v) text then Ok v else parseKnown rest text
  end.

#[export] Instance runtime : Runtime := {|
  Buffer_base64_toString data :=
    match data with
    | JStr s => Ok (base64Decode s)
    | _ => Ok EmptyString
    end;
  JSON_parse := parseKnown knownValues;
  JSON_stringify := jsonText;
|}.

(** A record [{ kinesis: { data } }] and a batch [{ Records: [...] }]. *)
Definition recordOf (data : string) : JSV :=
  JObj [("kinesis", JObj [("data", JStr data)])].

Definition batchOf (records : list JSV) : JSV := JObj [("Records", JArr records)].

Definition product1 : JSV := recordOf "eyJzY2hlbWEiOiJjb20ubm9yZHN0cm9tL3JldGFpbC1zdHJlYW0vMS0wLTAiLCJkYXRhIjp7InNjaGVtYSI6ImNvbS5ub3Jkc3Ryb20vcHJvZHVjdC8xLTAtMCIsImlkIjoxfX0=".
Definition product3 : JSV := recordOf "eyJzY2hlbWEiOiJjb20ubm9yZHN0cm9tL3JldGFpbC1zdHJlYW0vMS0wLTAiLCJkYXRhIjp7InNjaGVtYSI6ImNvbS5ub3Jkc3Ryb20vcHJvZHVjdC8xLTAtMCIsImlkIjozfX0=".
Definition product5 : JSV := recordOf "eyJzY2hlbWEiOiJjb20ubm9yZHN0cm9tL3JldGFpbC1zdHJlYW0vMS0wLTAiLCJkYXRhIjp7InNjaGVtYSI6ImNvbS5ub3Jkc3Ryb20vcHJvZHVjdC8xLTAtMCIsImlkIjo1fX0=".
Definition stranger : JSV := recordOf "eyJzY2hlbWEiOiJjb20uYWNtZS9zdHJlYW0vMS0wLTAifQ==".
Definition garbled : JSV := recordOf "bm90IGpzb24=".
Definition noData : JSV := recordOf "eyJzY2hlbWEiOiJjb20ubm9yZHN0cm9tL3JldGFpbC1zdHJlYW0vMS0wLTAifQ==".
Definition other : JSV := recordOf "eyJzY2hlbWEiOiJjb20ubm9yZHN0cm9tL3JldGFpbC1zdHJlYW0vMS0wLTAiLCJkYXRhIjp7InNjaGVtYSI6ImNvbS5ub3Jkc3Ryb20vb3RoZXIvMS0wLTAifX0=".
Definition bare : JSV := JObj [("eventSource", JStr "aws:kinesis")].
Definition opaque : JSV := recordOf "eyJzY2hlbWEiOiJjb20ubm9yZHN0cm9tL3JldGFpbC1zdHJlYW0vMS0wLTAiLCJkYXRhIjp7InNjaGVtYSI6eyJ0b1N0cmluZyI6MX19fQ==".
Definition opaqueEnvelope : JSV := recordOf "eyJzY2hlbWEiOnsidG9TdHJpbmciOjF9fQ==".
(** The payload of [product1] with a character outside the base64 alphabet
    in it. *)
Definition smudged : JSV := recordOf "eyJz!Y2hlbWEiOiJjb20ubm9yZHN0cm9tL3JldGFpbC1zdHJlYW0vMS0wLTAiLCJkYXRhIjp7InNjaGVtYSI6ImNvbS5ub3Jkc3Ryb20vcHJvZHVjdC8xLTAtMCIsImlkIjoxfX0=".

(** Methods: [(event, complete) => setImmediate(complete)],
    [(event, complete) => complete()],
    [(event, complete) => setImmediate(() => complete('boom'))] and
    [(event, complete) => complete('boom')]. *)
Definition later : Method := MFun 2 (fun _ => [CompleteLater JUndefined]).
Definition now : Method := MFun 2 (fun _ => [CompleteNow JUndefined]).
Definition failLater : Method := MFun 2 (fun _ => [CompleteLater (JStr "boom")]).
Definition failNow : Method := MFun 2 (fun _ => [CompleteNow (JStr "boom")]).

(** [new KinesisHandler(envelopeSchema, 'catalog')] followed by
    [registerSchemaMethodPair(productSchema, method)]. *)
Definition installed (method : Method) : option Handler :=
  match construct envelopeSchema (JStr "catalog") None with
  | Ok h => match registerSchemaMethodPair h productSchema method with
            | (Ok _, h') => Some h'
            | _ => None
            end
  | Throw _ => None
  end.

(** The instances these calls produce. *)
Definition fresh : Handler :=
  mkHandler envelopeId (JStr "catalog") None ∅ [(envelopeId, envelopeSchema)].

Definition handlerWith (method : Method) : Handler :=
  mkHandler envelopeId (JStr "catalog") None (<[productId := method]> ∅)
            [(productId, productSchema); (envelopeId, envelopeSchema)].



(** [(event, complete) => { throw null }] *)
Definition throwsNull : Method := MFun 2 (fun _ => [HThrow JNull]).

(** [new KinesisHandler(envelopeSchema, { toString: 1 })] with the product
    schema registered. *)
Definition handlerWithOpaqueName (method : Method) : Handler :=
  mkHandler envelopeId (JObj [("toString", JNum 1)]) None (<[productId := method]> ∅)
            [(productId, productSchema); (envelopeId, envelopeSchema)].

(** A schema that differs from the envelope schema outside of [self]. *)
Definition envelopeSchemaDraft : JSV :=
  JObj [("self", selfOf "com.nordstrom" "retail-stream" "1-0-0")].

(** [new KinesisHandler(envelopeSchema, false, 'catalog')] of
    [lib/kinesis-handler.js]. *)
Definition legacyFresh : Legacy.Handler :=
  Legacy.mkHandler envelopeId (JBool false) (JStr "catalog") ∅ [(envelopeId, envelopeSchema)].

End Sample.


(** ** Vocabulary of the statements *)

Section Vocabulary.
Context `{V : Validator} `{R : Runtime}.

(** Every registered method calls its completion at most once, now or
    later, and does nothing else with it; a method that throws does only
    that. *)
Definition disciplined (h : Handler) : Prop :=
  forall key n body event,
    schemaMethodPairs h !! key = Some (MFun n body) -> length (body event) <= 1.



Definition counted (N i : nat) (err : JSV) (w w' : World) : Prop :=
  successes w' = S (successes w) /\ pending w' = pending w /\
  crashed w' = crashed w /\
  callbacks w' = callbacks w ++ (if (S (successes w) =? N)%nat then [None] else []) /\
  completions w' = completions w ++ [(i, err)].







(** Everything decoded, called or completed so far belongs to a record
    before position [m]. *)
Definition below (m : nat) (w : World) : Prop :=
  (forall j, In j (decoded w) -> j < m) /\
  (forall j, In j (invocations w) -> j < m) /\
  (forall j e, In (j, e) (completions w) -> j < m).

(** No completion so far carried an error. *)
Definition clean (w : World) : Prop :=
  forall j e, In (j, e) (completions w) -> truthy e = false.

(** Every completion that carried an error belongs to the last record
    touched, and its [Error] was raised as [raised] says. *)
Definition accounted (h : Handler) (w : World) (raised : JSV -> Prop) : Prop :=
  forall k e, In (k, e) (completions w) -> truthy e = true ->
              below (S k) w /\ raised (fatalError h e).

Definition taskAt (j : nat) (t : Task) : Prop :=
  match t with
  | TCompletion i _ _ => i = j
  | _ => True
  end.

Definition onePending (j : nat) (w : World) : Prop :=
  pending w = [] \/ exists t, pending w = [t] /\ taskAt j t.

Definition pausedAt (j : nat) (w : World) : Prop :=
  exists g, it w = Some g /\ gstate g = SuspendedYield /\ gi g = j.

(** The ordered driver between two turns: paused at the [yield] of record
    [j] with at most one task that can resume it, or stopped for good. *)
Definition waiting (j : nat) (w : World) : Prop :=
  crashed w = None /\ pausedAt j w /\ below (S j) w /\ clean w /\ onePending j w.

Definition stopped (h : Handler) (w : World) : Prop :=
  pending w = [] /\
  accounted h w (fun x => crashed w = Some x \/ callbacks w = [Some x]).

(** How a stretch of the generator body can end: paused at a [yield], run
    to the end of the function, or left by an exception. *)
Definition segmentEnd (h : Handler) (w' : World) (r : result unit) : Prop :=
  (r = Ok tt /\ exists j, pausedAt j w' /\ below (S j) w' /\ clean w' /\ onePending j w') \/
  (r = Ok tt /\ pending w' = [] /\ clean w') \/
  (exists ex, r = Throw ex /\ pending w' = [] /\ accounted h w' (fun x => x = ex)).

(** A computation that never invokes the callback. *)
Definition silent {A : Type} (m : M A) : Prop :=
  forall w, callbacks (snd (m w)) = callbacks w.

End Vocabulary.

(** ** Vocabulary of the statements about construction, routing and draining *)

Section Coverage.
Context `{V : Validator} `{R : Runtime}.

(** [v === undefined || v === null] *)
Definition nullish (v : JSV) : bool :=
  match v with
  | JUndefined | JNull => true
  | _ => false
  end.

Fixpoint noSlash (s : string) : bool :=
  match s with
  | EmptyString => true
  | String c rest => negb (Ascii.eqb c "/"%char) && noSlash rest
  end.

(** A schema whose [self] carries the three texts. *)
Definition describes (schema : JSV) (vendor name version : string) : Prop :=
  exists self,
    getProp schema "self" = Ok self /\
    getProp self "vendor" = Ok (JStr vendor) /\
    getProp self "name" = Ok (JStr name) /\
    getProp self "version" = Ok (JStr version).

(** A schema whose [self] carries a vendor and a name that are texts, and
    a version of any kind. *)
Definition identifies (schema : JSV) (vendor name : string) (version : JSV) : Prop :=
  exists self,
    getProp schema "self" = Ok self /\
    getProp self "vendor" = Ok (JStr vendor) /\
    getProp self "name" = Ok (JStr name) /\
    getProp self "version" = Ok version.

(** A transformer that [if (this.transfomer) { this.transfomer(parsed, record) }]
    can use: absent, falsy, or a function of two parameters. *)
Definition usable (t : option Transformer) : Prop :=
  match t with
  | None => True
  | Some (TFun n _) => n = 2
  | Some (TOther v) => truthy v = false
  end.

(** Every stored method is a function of two parameters. *)
Definition binaryMethods (h : Handler) : Prop :=
  forall key m, schemaMethodPairs h !! key = Some m -> exists body, m = MFun 2 body.

(** The instance after a sequence of calls of [registerSchemaMethodPair],
    whatever each call returns or throws. *)
Definition afterCalls (h : Handler) (calls : list (JSV * Method)) : Handler :=
  fold_left (fun h c => snd (registerSchemaMethodPair h (fst c) (snd c))) calls h.

(** The method calls of a run, in order: record, key and argument. *)
Definition callsOf (tr : list Event) : list (nat * string * JSV) :=
  rev (omap (fun e => match e with EvInvoke i key event => Some (i, key, event) | _ => None end) tr).

Definition calls (w : World) : list (nat * string * JSV) := callsOf (trace w).

(** The conditions under which the dispatchers reach the call
    [this.schemaMethodPairs[event.data.schema](event, ...)] with the value
    [m] stored under [key]. *)
Definition routed (h : Handler) (event : JSV) (key : string) (m : Method) : Prop :=
  truthy event = true /\
  exists schema data,
    getProp event "schema" = Ok schema /\ truthy schema = true /\
    strictEqStr schema (eventSchemaId h) = true /\
    ajv_validate (ajv h) (eventSchemaId h) event = Ok true /\
    getProp event "data" = Ok data /\
    getProp data "schema" = Ok (JStr key) /\
    schemaMethodPairs h !! key = Some m /\
    ajv_validate (ajv h) key data = Ok true.

(** The key and the argument of the call, for a record that is handed to a
    registered function. *)
Definition routing (h : Handler) (record : JSV) : option (string * JSV) :=
  match recordOutcome h record with
  | Dispatched key (MFun _ _) event => Some (key, event)
  | _ => None
  end.

(** The method calls a batch asks for, record by record, from position [i] on. *)
Fixpoint expectedCalls (h : Handler) (records : list JSV) (i : nat)
  : list (nat * string * JSV) :=
  match records with
  | [] => []
  | record :: rest =>
      match routing h record with
      | Some (key, event) => [(i, key, event)]
      | None => []
      end ++ expectedCalls h rest (S i)
  end.

(** What the ordered driver pushes on [badMessages] for one record. *)
Definition badOf (h : Handler) (record : JSV) : list JSV :=
  match recordOutcome h record with
  | RejectedBadEnvelope msg | RejectedBadSchema msg | RejectedDecodeFailure msg => [JStr msg]
  | _ => []
  end.

Definition badMessagesOf (h : Handler) (records : list JSV) : list JSV :=
  flat_map (badOf h) records.

(** The generator pauses at its [yield] for the record. *)
Definition pauses (h : Handler) (record : JSV) : bool :=
  match recordOutcome h record with
  | Dispatched _ _ _ | RejectedBadEnvelope _ | RejectedBadSchema _
  | RejectedUnsupportedSchema _ | Indescribable _ => true
  | _ => false
  end.

(** The number of turns the ordered driver needs after the call itself:
    one for each [yield] it pauses at. *)
Fixpoint turns (h : Handler) (records : list JSV) : nat :=
  match records with
  | [] => 0
  | record :: rest => (if pauses h record then 1 else 0) + turns h rest
  end.

(** A record the ordered driver gets past: it is rejected, skipped or
    dropped, or handed to a function that calls its completion once, in a
    later turn, without an error. *)
Definition orderly (h : Handler) (record : JSV) : bool :=
  match recordOutcome h record with
  | Dispatched _ (MFun _ body) event =>
      match body event with
      | [CompleteLater err] => negb (truthy err)
      | _ => false
      end
  | Dispatched _ (MOther _) _ => false
  | RejectedBadEnvelope _ | RejectedBadSchema _
  | RejectedDecodeFailure _ | RejectedUnsupportedSchema _ | Dropped => true
  | Raised _ | Indescribable _ => false
  end.

(** The last line on the console. *)
Definition lastLog (w : World) : option (list JSV) := last (logs w).

(** The generator ran to the end of its function with [bad] accumulated. *)
Definition finished (w : World) (bad : list JSV) : Prop :=
  exists g, it w = Some g /\ gstate g = Completed /\ badMessages g = bad /\
            lastLog w = Some [JStr "Messages with invalid data: "; JArr bad].

End Coverage.

(** ** Vocabulary of the statements about the success signal *)

Section Signals.
Context `{V : Validator} `{R : Runtime}.







End Signals.

(** ** Vocabulary of the statements about the order of the calls *)

Section Cursor.
Context `{V : Validator} `{R : Runtime}.

(** The generator of the ordered driver has gone through the first [c]
    records of [records]: the method calls made so far are the ones these
    records ask for, and a generator paused at a [yield] is paused in the
    last of them. *)
Definition cursorAt (h : Handler) (records : list JSV) (c : nat) (w : World) : Prop :=
  c <= length records /\
  calls w = expectedCalls h (take c records) 0 /\
  exists g, it w = Some g /\ grecords g = records /\
            gstate g <> SuspendedStart /\
            (gstate g = SuspendedYield -> c = S (gi g)).

Definition inOrder (h : Handler) (records : list JSV) (w : World) : Prop :=
  exists c, cursorAt h records c w.

End Cursor.

(** ** Vocabulary of the statement about a completion that never comes *)

Section Held.
Context `{V : Validator} `{R : Runtime}.



End Held.

(** Unfolding the monad on a given world. *)
Ltac run_monad :=
  unfold bind, ret, throw, lift, tryCatch, emit, console_log, callback, defer,
         setSuccesses, getSuccesses, setIt, getIt; simpl.

(** * Properties *)

(** ** Strings and the bad-message marker *)

Lemma append_cons (c : ascii) (a b : string) : String c a +:+ b = String c (a +:+ b).
Proof. reflexivity. Qed.

Lemma append_empty (b : string) : EmptyString +:+ b = b.
Proof. reflexivity. Qed.

Lemma prefix_append (a b : string) : String.prefix a (a +:+ b) = true.
Proof.
  induction a as [|c a IH].
  - rewrite append_empty. now destruct b.
  - rewrite append_cons. simpl.
    destruct (Ascii.ascii_dec c c) as [_|ne]; [exact IH | now destruct ne].
Qed.

Lemma append_assoc (a b c : string) : (a +:+ b) +:+ c = a +:+ (b +:+ c).
Proof.
  induction a as [|x a IH].
  - reflexivity.
  - rewrite !append_cons. now rewrite IH.
Qed.

Lemma indexOfFrom_eq (needle hay : string) (pos : Z) :
  indexOfFrom needle hay pos =
  if String.prefix needle hay then pos
  else match hay with
       | EmptyString => (-1)%Z
       | String _ rest => indexOfFrom needle rest (pos + 1)%Z
       end.
Proof. destruct hay; reflexivity. Qed.

Lemma indexOf_prefixed (needle rest : string) : indexOf (needle +:+ rest) needle = 0%Z.
Proof. unfold indexOf. now rewrite indexOfFrom_eq, prefix_append. Qed.

Lemma indexOfFrom_lower (needle hay : string) (pos : Z) :
  indexOfFrom needle hay pos = (-1)%Z \/ (pos <= indexOfFrom needle hay pos)%Z.
Proof.
  revert pos. induction hay as [|c hay IH]; intros pos; rewrite indexOfFrom_eq.
  - destruct (String.prefix needle EmptyString); [right; lia | now left].
  - destruct (String.prefix needle (String c hay)); [right; lia |].
    destruct (IH (pos + 1)%Z) as [->|Hle]; [now left | right; lia].
Qed.

Section Marker.
Context `{V : Validator}.

Lemma carriesMarker_prefixed (h : Handler) (rest : string) :
  carriesMarker h (JStr (badMsgPrefix +:+ rest)) = true.
Proof.
  unfold carriesMarker. simpl toStr.
  assert (E : banner h +:+ " " +:+ badMsgPrefix +:+ rest
              = (banner h +:+ " " +:+ badMsgPrefix) +:+ rest).
  { now rewrite !append_assoc. }
  rewrite E, indexOf_prefixed. reflexivity.
Qed.

Lemma truthy_prefixed (rest : string) : truthy (JStr (badMsgPrefix +:+ rest)) = true.
Proof. reflexivity. Qed.

Lemma nonFatal_prefixed (h : Handler) (rest : string) :
  named h = true -> nonFatal h (JStr (badMsgPrefix +:+ rest)) = true.
Proof.
  intros Hn. unfold nonFatal. rewrite Hn, carriesMarker_prefixed. reflexivity.
Qed.

Lemma nonFatal_falsy (h : Handler) (err : JSV) : truthy err = false -> nonFatal h err = true.
Proof. intros Ht. unfold nonFatal. now rewrite Ht. Qed.

(** Template literals. *)
Lemma interpolated_ok (values : list JSV) (text : string) :
  forallb convertible values = true -> interpolated values text = Ok text.
Proof. intros E. unfold interpolated. now rewrite E. Qed.

Lemma interpolated_fails (values : list JSV) (text : string) :
  forallb convertible values = false -> interpolated values text = Throw unprintable.
Proof. intros E. unfold interpolated. now rewrite E. Qed.

Lemma toString_ok (v : JSV) : convertible v = true -> toString v = Ok (toStr v).
Proof. intros E. unfold toString. now rewrite E. Qed.

Lemma toString_fails (v : JSV) : convertible v = false -> toString v = Throw unprintable.
Proof. intros E. unfold toString. now rewrite E. Qed.

Lemma toString_text (v : JSV) (text : string) : toString v = Ok text -> text = toStr v.
Proof. unfold toString. destruct (convertible v); congruence. Qed.

(** A line is logged when the module name and the other values convert;
    otherwise nothing happens but the [TypeError]. *)
Lemma say_ok (h : Handler) (values : list JSV) (rest : string) (w : World) :
  named h = true -> forallb convertible values = true ->
  say h values rest w =
    (Ok tt, mkWorld (EvLog [JStr (banner h +:+ " " +:+ rest)] :: trace w)
                    (successes w) (pending w) (crashed w) (it w)).
Proof.
  intros Hn Hv. unfold say, interpolated, named in *. simpl forallb. rewrite Hn, Hv.
  reflexivity.
Qed.

Lemma say_fails (h : Handler) (values : list JSV) (rest : string) (w : World) :
  named h && forallb convertible values = false ->
  say h values rest w = (Throw unprintable, w).
Proof.
  intros Hn. unfold say, interpolated, named in *. simpl forallb. rewrite Hn.
  reflexivity.
Qed.

Lemma say_cases (h : Handler) (values : list JSV) (rest : string) (w : World) :
  say h values rest w = (Throw unprintable, w) \/
  say h values rest w =
    (Ok tt, mkWorld (EvLog [JStr (banner h +:+ " " +:+ rest)] :: trace w)
                    (successes w) (pending w) (crashed w) (it w)).
Proof.
  destruct (named h && forallb convertible values) eqn:E.
  - apply andb_true_iff in E as [Hn Hv]. right. now apply say_ok.
  - left. now apply say_fails.
Qed.

Lemma catchBlock_reports (h : Handler) (ex : JSV) (w : World) :
  reportable h ex = true ->
  catchBlock h ex w =
    (Ok tt, addTrace [EvCallback (Some ex);
                      EvLog [JStr (banner h +:+ " " +:+ constants.METHOD_PROCESS_KINESIS_EVENT
                                     +:+ " - exception: " +:+ stackOf ex)]] w).
Proof.
  unfold reportable, named, catchBlock, stackText, stackOf, toString.
  intros E. apply andb_true_iff in E as [Hn Hs]. run_monad. rewrite Hn. simpl.
  destruct (getProp ex "stack") as [stack|e]; [|discriminate]. simpl.
  destruct (convertible stack); [|discriminate]. reflexivity.
Qed.

Lemma catchBlock_fails (h : Handler) (ex : JSV) (w : World) :
  reportable h ex = false -> exists e, catchBlock h ex w = (Throw e, w).
Proof.
  unfold reportable, named, catchBlock, stackText, toString.
  intros E. run_monad. destruct (convertible (module h)); simpl in *; [|eauto].
  destruct (getProp ex "stack") as [stack|e]; simpl; [|eauto].
  destruct (convertible stack); [discriminate|eauto].
Qed.

Lemma fatalError_ok (h : Handler) (err : JSV) :
  named h = true -> convertible err = true ->
  fatalError h err = newError (banner h +:+ " " +:+ toStr err).
Proof.
  intros Hn He. unfold fatalError, interpolated, named in *. simpl forallb.
  now rewrite Hn, He.
Qed.

Lemma fatalError_fails (h : Handler) (err : JSV) :
  named h && convertible err = false -> fatalError h err = unprintable.
Proof.
  intros E. unfold fatalError, interpolated, named in *. simpl forallb.
  rewrite andb_true_r. now rewrite E.
Qed.

End Marker.

(** ** Registration *)

Section Registration.
Context `{V : Validator}.

(** In both constructors of the current module a method that is not a
    function of two parameters is refused when it is registered, whatever
    else happens during the call, and is never stored. *)
Lemma registerSchemaMethodPair_rejects (h : Handler) (schema : JSV) (method : Method) :
  notBinaryMethod method = true ->
  (exists ex, fst (registerSchemaMethodPair h schema method) = Throw ex) /\
  schemaMethodPairs (snd (registerSchemaMethodPair h schema method)) = schemaMethodPairs h.
Proof.
  intros Hbad. unfold registerSchemaMethodPair.
  destruct (makeSchemaId schema) as [schemaId|ex]; [|simpl; eauto].
  destruct (ajv_addSchema (ajv h) schema schemaId) as [a|ex]; [|simpl; eauto].
  rewrite Hbad. simpl. eauto.
Qed.

(** C10: a registration whose method fails the arity check has already
    added the schema to the validator under its derived identity: the call
    throws the contract error, the instance keeps the updated validator, and
    the handler map (like every other field) is what it was. *)
Theorem C10_registration_not_atomic
    (h : Handler) (schema : JSV) (method : Method) (schemaId : string) (a : Ajv) :
  makeSchemaId schema = Ok schemaId ->
  ajv_addSchema (ajv h) schema schemaId = Ok a ->
  notBinaryMethod method = true ->
  registerSchemaMethodPair h schema method =
    (Throw contractViolation,
     mkHandler (eventSchemaId h) (module h) (transfomer h) (schemaMethodPairs h) a).
Proof.
  intros Hid Hadd Hbad. unfold registerSchemaMethodPair.
  now rewrite Hid, Hadd, Hbad.
Qed.

End Registration.

(** C10 on the sample installation: registering the product schema with a
    one-parameter function throws, and the validator now holds the schema. *)
Lemma C10_registration_not_atomic_witness :
  registerSchemaMethodPair Sample.fresh Sample.productSchema (MFun 1 (fun _ => [])) =
    (Throw contractViolation,
     mkHandler (V := Sample.validator) Sample.envelopeId (JStr "catalog") None ∅
               [(Sample.productId, Sample.productSchema);
                (Sample.envelopeId, Sample.envelopeSchema)]).
Proof.
  apply (C10_registration_not_atomic (V := Sample.validator)
           Sample.fresh Sample.productSchema (MFun 1 (fun _ => []))
           Sample.productId
           [(Sample.productId, Sample.productSchema);
            (Sample.envelopeId, Sample.envelopeSchema)]);
    reflexivity.
Defined.

(** C8: [registerSchemaMethodPair] of [lib/kinesis-handler.js] accepts a
    value that is not a function: on a freshly constructed instance the call
    returns normally and the value sits in the handler map, to fail only
    when it is called with an event. *)
Theorem C8_legacy_registration_stores_any_value :
  exists h h',
    Legacy.construct (V := Sample.validator) Sample.envelopeSchema (JBool false) (JStr "catalog")
      = Ok h /\
    Legacy.registerSchemaMethodPair h Sample.productSchema (MOther (JStr "not a function"))
      = (Ok tt, h') /\
    Legacy.schemaMethodPairs h' !! Sample.productId = Some (MOther (JStr "not a function")) /\
    fst (callMethod (MOther (JStr "not a function")) 0 Sample.productId
           (Sample.productEvent 1) (fun _ => ret tt) World0)
      = Throw (TypeError "this.schemaMethodPairs[event.data.schema] is not a function").
Proof.
  do 2 eexists. split; [reflexivity|]. split; [reflexivity|]. split; [|reflexivity].
  simpl. apply lookup_insert_eq.
Qed.

(** ** Views of the trace *)

Lemma callbacksOf_cons (e : Event) (tr : list Event) :
  callbacksOf (e :: tr) =
  callbacksOf tr ++ match e with EvCallback a => [a] | _ => [] end.
Proof. unfold callbacksOf. destruct e; simpl; now rewrite ?app_nil_r. Qed.

Lemma invocationsOf_cons (e : Event) (tr : list Event) :
  invocationsOf (e :: tr) =
  invocationsOf tr ++ match e with EvInvoke i _ _ => [i] | _ => [] end.
Proof. unfold invocationsOf. destruct e; simpl; now rewrite ?app_nil_r. Qed.

Lemma decodedOf_cons (e : Event) (tr : list Event) :
  decodedOf (e :: tr) =
  decodedOf tr ++ match e with EvDecode i => [i] | _ => [] end.
Proof. unfold decodedOf. destruct e; simpl; now rewrite ?app_nil_r. Qed.

Lemma completionsOf_cons (e : Event) (tr : list Event) :
  completionsOf (e :: tr) =
  completionsOf tr ++ match e with EvComplete i err => [(i, err)] | _ => [] end.
Proof. unfold completionsOf. destruct e; simpl; now rewrite ?app_nil_r. Qed.

Lemma logsOf_cons (e : Event) (tr : list Event) :
  logsOf (e :: tr) =
  logsOf tr ++ match e with EvLog args => [args] | _ => [] end.
Proof. unfold logsOf. destruct e; simpl; now rewrite ?app_nil_r. Qed.

Lemma callbacksOf_app (tr1 tr2 : list Event) :
  callbacksOf (tr1 ++ tr2) = callbacksOf tr2 ++ callbacksOf tr1.
Proof. unfold callbacksOf. now rewrite omap_app, rev_app_distr. Qed.

Lemma invocationsOf_app (tr1 tr2 : list Event) :
  invocationsOf (tr1 ++ tr2) = invocationsOf tr2 ++ invocationsOf tr1.
Proof. unfold invocationsOf. now rewrite omap_app, rev_app_distr. Qed.

Lemma decodedOf_app (tr1 tr2 : list Event) :
  decodedOf (tr1 ++ tr2) = decodedOf tr2 ++ decodedOf tr1.
Proof. unfold decodedOf. now rewrite omap_app, rev_app_distr. Qed.

Lemma completionsOf_app (tr1 tr2 : list Event) :
  completionsOf (tr1 ++ tr2) = completionsOf tr2 ++ completionsOf tr1.
Proof. unfold completionsOf. now rewrite omap_app, rev_app_distr. Qed.

(** Normalising the views of a world built from another one. *)
Create Rewrite HintDb views.
#[local] Hint Rewrite callbacksOf_app completionsOf_app invocationsOf_app decodedOf_app
  callbacksOf_cons completionsOf_cons invocationsOf_cons decodedOf_cons : views.

Ltac views :=
  unfold callbacks, completions, invocations, decoded, logs, addTrace; simpl;
  autorewrite with views; simpl; rewrite ?app_nil_r.

(** ** The counter closure of the concurrent driver *)

Section Counter.
Context `{V : Validator} `{R : Runtime}.

(** A truthy value without the marker makes [complete] throw before it
    counts: the world only gains the entry of the closure and its first
    [console.log]. *)
Lemma complete_fatal (h : Handler) (N i : nat) (err : JSV) (w : World) :
  nonFatal h err = false ->
  KinesisHandler.complete h N i err w =
    (Throw (fatalError h err),
     mkWorld (EvLog [err] :: EvComplete i err :: trace w)
             (successes w) (pending w) (crashed w) (it w)).
Proof.
  unfold nonFatal. intros Hf. apply orb_false_iff in Hf as [Ht Hm].
  apply negb_false_iff in Ht.
  unfold KinesisHandler.complete, fatalError, interpolated, carriesMarker, named in *.
  run_monad. rewrite Ht. simpl forallb. rewrite !andb_true_r.
  destruct (convertible (module h)); simpl in *; [|reflexivity].
  destruct (convertible err); simpl in *; [|reflexivity].
  now rewrite Hm.
Qed.

(** Any other value is counted; the callback fires in the same call when
    the counter reaches [N]. *)
Lemma complete_counted (h : Handler) (N i : nat) (err : JSV) (w : World) :
  named h = true ->
  nonFatal h err = true ->
  exists tr,
    KinesisHandler.complete h N i err w =
      (Ok tt, mkWorld (tr ++ trace w) (S (successes w)) (pending w) (crashed w) (it w)) /\
    callbacksOf tr = (if (S (successes w) =? N)%nat then [None] else []) /\
    invocationsOf tr = [] /\ decodedOf tr = [] /\
    completionsOf tr = [(i, err)] /\
    (truthy err = true -> In [JStr (banner h +:+ " " +:+ toStr err)] (logsOf tr)).
Proof.
  unfold nonFatal. intros Hh Hn.
  remember (S (successes w) =? N)%nat as b eqn:Hb.
  pose proof (Nat.add_1_r (successes w)) as E.
  unfold KinesisHandler.complete, say, interpolated, carriesMarker, named in *.
  run_monad. rewrite Hh in *. simpl in Hn.
  destruct (truthy err) eqn:Ht; simpl in Hn.
  - apply andb_true_iff in Hn as [Hc Hn]. rewrite Hc. simpl.
    rewrite Hn. simpl. rewrite E, <- Hb. destruct b; simpl.
    + eexists (_ :: _ :: _ :: _ :: _ :: _ :: _ :: []). split; [reflexivity|].
      repeat split; try reflexivity. intros _. cbv [logsOf omap]. simpl. tauto.
    + eexists (_ :: _ :: _ :: _ :: _ :: []). split; [reflexivity|].
      repeat split; try reflexivity. intros _. cbv [logsOf omap]. simpl. tauto.
  - simpl. rewrite E, <- Hb. destruct b; simpl.
    + eexists (_ :: _ :: _ :: []). split; [reflexivity|].
      repeat split; try reflexivity. discriminate.
    + eexists (_ :: []). split; [reflexivity|].
      repeat split; try reflexivity. discriminate.
Qed.

(** C5: on a truthy completion value the closure [complete] of the
    concurrent driver first builds the banner-prefixed text of the value.
    When the module name and the value convert to strings and the
    banner-prefixed marker is found inside that text (as it always is for a
    text that begins with the marker) the completion is logged and counted
    like a success, and the callback is invoked in that call exactly when
    the counter arrives at [N].  In every other case the call throws at
    once, having logged the value only: the counter is not advanced and
    neither the all-records-done test nor the callback is reached.  What is
    thrown is an [Error] carrying the prefixed text when the conversions
    succeed, and the [TypeError] of the conversion when one fails. *)
Theorem C5_marker_decides_fatality (h : Handler) (N i : nat) (err : JSV) (w : World) :
  truthy err = true ->
  (named h && convertible err && carriesMarker h err = true ->
     exists tr,
       KinesisHandler.complete h N i err w =
         (Ok tt, mkWorld (tr ++ trace w) (S (successes w)) (pending w) (crashed w) (it w)) /\
       completionsOf tr = [(i, err)] /\
       callbacksOf tr = (if (S (successes w) =? N)%nat then [None] else []) /\
       In [JStr (banner h +:+ " " +:+ toStr err)] (logsOf tr)) /\
  (named h && convertible err && carriesMarker h err = false ->
     KinesisHandler.complete h N i err w =
       (Throw (if named h && convertible err
               then newError (banner h +:+ " " +:+ toStr err)
               else TypeError "Cannot convert object to primitive value"),
        mkWorld (EvLog [err] :: EvComplete i err :: trace w)
                (successes w) (pending w) (crashed w) (it w))) /\
  (forall rest, err = JStr (badMsgPrefix +:+ rest) ->
                convertible err && carriesMarker h err = true).
Proof.
  intros Ht. split; [|split].
  - intros Hm.
    assert (Hn : named h = true).
    { destruct (named h); [reflexivity | discriminate]. }
    destruct (complete_counted h N i err w Hn) as (tr & E & Hcb & _ & _ & Hc & Hl).
    { unfold nonFatal. now rewrite Hm, orb_true_r. }
    exists tr. auto.
  - intros Hm. rewrite complete_fatal.
    + f_equal. f_equal. destruct (named h && convertible err) eqn:E.
      * apply andb_true_iff in E as [Hn He]. now apply fatalError_ok.
      * now apply fatalError_fails.
    + unfold nonFatal. now rewrite Ht, Hm.
  - intros rest ->. now rewrite carriesMarker_prefixed.
Qed.

End Counter.

(** ** The dispatchers against the classification *)

Section Dispatch.
Context `{V : Validator} `{R : Runtime}.

(** [this.processEvent(event, complete)] of the concurrent driver does what
    the classification of [event] says. *)
Lemma processEvent_outcome (h : Handler) (i : nat) (event : JSV)
    (complete : JSV -> M unit) (w : World) :
  KinesisHandler.processEvent h i event complete w =
  match dispatchOutcome h event with
  | Dispatched key method ev => callMethod method i key ev complete w
  | RejectedBadEnvelope msg | RejectedBadSchema msg => complete (JStr msg) w
  | RejectedUnsupportedSchema schema =>
      if named h then
        complete JUndefined
          (mkWorld (EvLog [JStr (banner h +:+ " " +:+ badMsgPrefix
                                   +:+ " - event with unsupported data schema ("
                                   +:+ toStr schema +:+ ") observed.")] :: trace w)
                   (successes w) (pending w) (crashed w) (it w))
      else (Throw unprintable, w)
  | Raised ex => (Throw ex, w)
  | Indescribable _ => (Throw unprintable, w)
  | RejectedDecodeFailure _ | Dropped => (Ok tt, w)
  end.
Proof.
  unfold KinesisHandler.processEvent, dispatchOutcome. run_monad.
  destruct (truthy event) eqn:Hev; simpl; [|reflexivity].
  destruct (getProp event "schema") as [schema|ex]; simpl; [|reflexivity].
  destruct (truthy schema); simpl; [|reflexivity].
  destruct (strictEqStr schema (eventSchemaId h)); simpl.
  2:{ unfold interpolated. simpl. rewrite andb_true_r.
      now destruct (convertible schema). }
  destruct (ajv_validate (ajv h) (eventSchemaId h) event) as [[|]|ex]; simpl;
    [|reflexivity|reflexivity].
  destruct (getProp event "data") as [data|ex]; simpl; [|reflexivity].
  destruct (getProp data "schema") as [dataSchema|ex]; simpl; [|reflexivity].
  destruct (registered h dataSchema) as [[key method]|]; simpl.
  2:{ unfold say, interpolated, named. run_monad. rewrite andb_true_r.
      destruct (convertible dataSchema); [|now rewrite andb_false_r].
      rewrite andb_true_r. now destruct (convertible (module h)). }
  destruct (ajv_validate (ajv h) key data) as [[|]|ex]; reflexivity.
Qed.

(** The same for [this.processEvent(event)] of the ordered driver, whose
    rejections are handed to a timer. *)
Lemma processEvent_sync_outcome (h : Handler) (i : nat) (event : JSV) (w : World) :
  KinesisSynchronousHandler.processEvent h i event w =
  match dispatchOutcome h event with
  | Dispatched key method ev =>
      callMethod method i key ev
        (KinesisSynchronousHandler.completion h KinesisSynchronousHandler.reentrantNext i ev) w
  | RejectedBadEnvelope msg | RejectedBadSchema msg =>
      defer (TTimeoutNext (Ok (JStr msg))) w
  | RejectedUnsupportedSchema schema => defer (TTimeoutSkip schema) w
  | Raised ex => (Throw ex, w)
  | Indescribable timer => defer timer w
  | RejectedDecodeFailure _ | Dropped => (Ok tt, w)
  end.
Proof.
  unfold KinesisSynchronousHandler.processEvent, dispatchOutcome. run_monad.
  destruct (truthy event) eqn:Hev; simpl; [|reflexivity].
  destruct (getProp event "schema") as [schema|ex]; simpl; [|reflexivity].
  destruct (truthy schema); simpl; [|reflexivity].
  destruct (strictEqStr schema (eventSchemaId h)); simpl.
  2:{ unfold interpolated. simpl. rewrite andb_true_r.
      now destruct (convertible schema). }
  destruct (ajv_validate (ajv h) (eventSchemaId h) event) as [[|]|ex]; simpl;
    [|reflexivity|reflexivity].
  destruct (getProp event "data") as [data|ex]; simpl; [|reflexivity].
  destruct (getProp data "schema") as [dataSchema|ex]; simpl; [|reflexivity].
  destruct (registered h dataSchema) as [[key method]|]; simpl.
  2:{ now destruct (convertible dataSchema). }
  destruct (ajv_validate (ajv h) key data) as [[|]|ex]; reflexivity.
Qed.

(** What the classification says about the values it carries. *)
Lemma dispatchOutcome_unsupported (h : Handler) (event schema : JSV) :
  dispatchOutcome h event = RejectedUnsupportedSchema schema -> convertible schema = true.
Proof.
  unfold dispatchOutcome. intros E.
  repeat case_match; try discriminate; congruence.
Qed.

Lemma dispatchOutcome_indescribable (h : Handler) (event : JSV) (timer : Task) :
  dispatchOutcome h event = Indescribable timer ->
  timer = TTimeoutNext (Throw unprintable) \/
  exists schema, timer = TTimeoutSkip schema /\ convertible schema = false.
Proof.
  unfold dispatchOutcome. intros E.
  repeat case_match; try discriminate.
  - left. congruence.
  - right. injection E as <-. eexists. split; [reflexivity | eassumption].
Qed.

(** The dispatcher never produces the decoder's verdicts. *)
Lemma dispatchOutcome_not_decoder (h : Handler) (event : JSV) :
  (forall msg, dispatchOutcome h event <> RejectedDecodeFailure msg) /\
  dispatchOutcome h event <> Dropped.
Proof.
  unfold dispatchOutcome.
  split; [intros msg|]; repeat case_match; discriminate.
Qed.

End Dispatch.

(** ** One record in each driver *)

Section Records.
Context `{V : Validator} `{R : Runtime}.

Lemma quiet_nil : quiet [].
Proof. now repeat split. Qed.

Lemma quiet_log (args : list JSV) (tr : list Event) : quiet tr -> quiet (EvLog args :: tr).
Proof.
  intros (Hc & Hi & Hd). unfold quiet.
  now rewrite callbacksOf_cons, invocationsOf_cons, completionsOf_cons, Hc, Hi, Hd.
Qed.

Lemma quiet_decode (i : nat) (tr : list Event) : quiet tr -> quiet (EvDecode i :: tr).
Proof.
  intros (Hc & Hi & Hd). unfold quiet.
  now rewrite callbacksOf_cons, invocationsOf_cons, completionsOf_cons, Hc, Hi, Hd.
Qed.

(** The [try] block of the decoder returns what [parsePayload] says and
    leaves a quiet trace that mentions record [i] only. *)
Lemma decodePayload_spec (h : Handler) (i : nat) (data : JSV) (w : World) :
  named h = true ->
  exists tr,
    decodePayload h i data w = (parsePayload data, addTrace tr w) /\
    quiet tr /\ decodedOf tr = [i].
Proof.
  intros Hn.
  unfold decodePayload, parsePayload, addTrace. unfold bind at 1, emit at 1.
  unfold bind at 1, lift at 1.
  destruct (Buffer_base64_toString data) as [payload|ex]; simpl.
  - unfold bind at 1. rewrite say_ok by (exact Hn || reflexivity). unfold lift. simpl.
    destruct (JSON_parse payload) as [parsed|ex]; simpl;
      (eexists (_ :: _ :: []); split; [reflexivity|]; split;
       [apply quiet_log, quiet_decode, quiet_nil | reflexivity]).
  - eexists (_ :: []); split; [reflexivity|]; split;
      [apply quiet_decode, quiet_nil | reflexivity].
Qed.

(** One iteration of the loop of the concurrent driver, by the verdict on
    the record. *)
Lemma processRecord_outcome (h : Handler) (N i : nat) (record : JSV) (w : World) :
  named h = true ->
  exists tr,
    quiet tr /\ (forall j, In j (decodedOf tr) -> j = i) /\
    KinesisHandler.processRecord h N i record w =
    match recordOutcome h record with
    | Raised ex => (Throw ex, addTrace tr w)
    | Indescribable _ => (Throw unprintable, addTrace tr w)
    | RejectedDecodeFailure msg | RejectedBadEnvelope msg | RejectedBadSchema msg =>
        KinesisHandler.complete h N i (JStr msg) (addTrace tr w)
    | RejectedUnsupportedSchema schema =>
        KinesisHandler.complete h N i JUndefined
          (addTrace (EvLog [JStr (banner h +:+ " " +:+ badMsgPrefix
                                    +:+ " - event with unsupported data schema ("
                                    +:+ toStr schema +:+ ") observed.")] :: tr) w)
    | Dispatched key method event =>
        callMethod method i key event (KinesisHandler.complete h N i) (addTrace tr w)
    | Dropped => (Ok tt, addTrace tr w)
    end.
Proof.
  intros Hn.
  unfold KinesisHandler.processRecord, recordOutcome, payloadOf.
  unfold bind at 1, lift at 1.
  destruct (getProp record "kinesis") as [kinesis|ex]; simpl.
  2:{ exists []. split; [apply quiet_nil|]. split; [now intros j []|].
      destruct w; reflexivity. }
  unfold bind at 1.
  assert (Hdata : (if truthy kinesis then lift (getProp kinesis "data") else ret kinesis) w
                  = (if truthy kinesis then getProp kinesis "data" else Ok kinesis, w)).
  { now destruct (truthy kinesis). }
  rewrite Hdata. clear Hdata.
  destruct (if truthy kinesis then getProp kinesis "data" else Ok kinesis) as [data|ex].
  2:{ exists []. split; [apply quiet_nil|]. split; [now intros j []|].
      destruct w; reflexivity. }
  destruct (truthy data) eqn:Hd.
  2:{ exists []. split; [apply quiet_nil|]. split; [now intros j []|].
      destruct w; reflexivity. }
  destruct (decodePayload_spec h i data w Hn) as (tr & Edec & Hq & Hdec).
  exists tr. split; [exact Hq|]. split.
  { intros j Hj. rewrite Hdec in Hj. destruct Hj as [<-|[]]. reflexivity. }
  unfold bind at 1, tryCatch. rewrite Edec.
  destruct (parsePayload data) as [parsed|ex].
  - destruct (truthy parsed) eqn:Hp; [|reflexivity].
    unfold bind at 1, lift at 1.
    destruct (transform h parsed record) as [event|ex]; [|reflexivity].
    rewrite processEvent_outcome, Hn.
    pose proof (dispatchOutcome_not_decoder h event) as [Hnd _].
    destruct (dispatchOutcome h event) eqn:Eo; try reflexivity.
    now destruct (Hnd msg).
  - unfold bind at 1, lift at 1.
    destruct (decodeMessage ex) as [msg|e]; [|reflexivity].
    unfold bind at 1.
    destruct (KinesisHandler.complete h N i (JStr msg) (addTrace tr w))
      as [[[]|ex'] w']; reflexivity.
Qed.

(** One iteration of the loop of [recordGenerator], by the verdict on the
    record: the loop goes on to the next record, or the generator pauses at
    its [yield], or an exception leaves the body. *)
Lemma recordGenerator_outcome (h : Handler) (record : JSV) (rest : list JSV)
    (i : nat) (w : World) :
  named h = true ->
  exists tr,
    quiet tr /\ (forall j, In j (decodedOf tr) -> j = i) /\
    KinesisSynchronousHandler.recordGenerator h (record :: rest) i w =
    match recordOutcome h record with
    | Raised ex => (Throw ex, addTrace tr w)
    | Indescribable timer =>
        KinesisSynchronousHandler.yieldAt i (snd (defer timer (addTrace tr w)))
    | RejectedDecodeFailure msg =>
        KinesisSynchronousHandler.recordGenerator h rest (S i)
          (snd (KinesisSynchronousHandler.pushBad (JStr msg) (addTrace tr w)))
    | Dropped =>
        KinesisSynchronousHandler.recordGenerator h rest (S i) (addTrace tr w)
    | RejectedBadEnvelope msg | RejectedBadSchema msg =>
        KinesisSynchronousHandler.yieldAt i
          (snd (defer (TTimeoutNext (Ok (JStr msg))) (addTrace tr w)))
    | RejectedUnsupportedSchema schema =>
        KinesisSynchronousHandler.yieldAt i
          (snd (defer (TTimeoutSkip schema) (addTrace tr w)))
    | Dispatched key method event =>
        (callMethod method i key event
           (KinesisSynchronousHandler.completion h
              KinesisSynchronousHandler.reentrantNext i event) ;;;
         KinesisSynchronousHandler.yieldAt i) (addTrace tr w)
    end.
Proof.
  intros Hn.
  unfold recordOutcome, payloadOf.
  cbn [KinesisSynchronousHandler.recordGenerator].
  unfold bind at 1, lift at 1.
  destruct (getProp record "kinesis") as [kinesis|ex]; simpl.
  2:{ exists []. split; [apply quiet_nil|]. split; [now intros j []|].
      destruct w; reflexivity. }
  unfold bind at 1.
  assert (Hdata : (if truthy kinesis then lift (getProp kinesis "data") else ret kinesis) w
                  = (if truthy kinesis then getProp kinesis "data" else Ok kinesis, w)).
  { now destruct (truthy kinesis). }
  rewrite Hdata. clear Hdata.
  destruct (if truthy kinesis then getProp kinesis "data" else Ok kinesis) as [data|ex].
  2:{ exists []. split; [apply quiet_nil|]. split; [now intros j []|].
      destruct w; reflexivity. }
  destruct (truthy data) eqn:Hd.
  2:{ exists []. split; [apply quiet_nil|]. split; [now intros j []|].
      destruct w; reflexivity. }
  destruct (decodePayload_spec h i data w Hn) as (tr & Edec & Hq & Hdec).
  exists tr. split; [exact Hq|]. split.
  { intros j Hj. rewrite Hdec in Hj. destruct Hj as [<-|[]]. reflexivity. }
  unfold bind at 1, tryCatch. rewrite Edec.
  destruct (parsePayload data) as [parsed|ex].
  - destruct (truthy parsed) eqn:Hp; [|reflexivity].
    unfold bind at 1, lift at 1.
    destruct (transform h parsed record) as [event|ex]; [|reflexivity].
    unfold bind at 1. rewrite processEvent_sync_outcome.
    pose proof (dispatchOutcome_not_decoder h event) as [Hnd Hndrop].
    destruct (dispatchOutcome h event) eqn:Eo; try reflexivity.
    + now destruct (Hnd msg).
    + now destruct Hndrop.
  - unfold bind at 1, lift at 1.
    destruct (decodeMessage ex) as [msg|e]; reflexivity.
Qed.

End Records.

(** ** Decode failures, unsupported schemas, missing [data] *)

Section PerRecord.
Context `{V : Validator} `{R : Runtime}.

Lemma getProp_truthy (v : JSV) (k : string) :
  truthy v = true -> exists x, getProp v k = Ok x.
Proof.
  destruct v; try discriminate; intros _; simpl; repeat case_match; eexists; reflexivity.
Qed.

Lemma decodeMessage_ok (ex : JSV) (stack : string) :
  stackText ex = Ok stack -> decodeMessage ex = Ok (msgDecode ex).
Proof. intros E. unfold decodeMessage. now rewrite E. Qed.

(** Reading the payload of a record object never throws. *)
Lemma payloadOf_object (fields : list (string * JSV)) :
  exists data, payloadOf (JObj fields) = Ok data.
Proof.
  unfold payloadOf. simpl.
  destruct (truthy (assoc fields "kinesis")) eqn:Hk; [|eexists; reflexivity].
  apply getProp_truthy. exact Hk.
Qed.

(** C6: a record object without a (truthy) [kinesis.data], or whose
    payload makes the base64/JSON decoding throw an exception with a
    readable [stack], is a decode failure.  In the concurrent driver the
    iteration ends normally with one bad-message completion that the counter
    accepts, and the callback is invoked in it only as the success signal of
    a batch that is complete; in the ordered driver the description is
    appended to [badMessages], nothing else changes but the console, and the
    loop goes on with the next record.  No registered method is called in
    either driver, and neither invokes the callback with an error. *)
Theorem C6_decode_failure_is_a_bad_message
    (h : Handler) (N i : nat) (record : JSV) (rest : list JSV) (data : JSV) (w : World) :
  named h = true ->
  payloadOf record = Ok data ->
  (truthy data = false \/
   exists ex stack, truthy data = true /\ parsePayload data = Throw ex /\
                    stackText ex = Ok stack) ->
  exists msg trc tro,
    recordOutcome h record = RejectedDecodeFailure msg /\
    (msg = msgMissing \/ exists ex, parsePayload data = Throw ex /\ msg = msgDecode ex) /\
    nonFatal h (JStr msg) = true /\
    KinesisHandler.processRecord h N i record w =
      (Ok tt, mkWorld (trc ++ trace w) (S (successes w)) (pending w) (crashed w) (it w)) /\
    completionsOf trc = [(i, JStr msg)] /\ invocationsOf trc = [] /\
    callbacksOf trc = (if (S (successes w) =? N)%nat then [None] else []) /\
    quiet tro /\
    forall g, it w = Some g ->
      KinesisSynchronousHandler.recordGenerator h (record :: rest) i w =
        KinesisSynchronousHandler.recordGenerator h rest (S i)
          (mkWorld (tro ++ trace w) (successes w) (pending w) (crashed w)
                   (Some (mkGen (gstate g) (grecords g) (gi g)
                                (badMessages g ++ [JStr msg])))).
Proof.
  intros Hn Hpay Hfail.
  assert (Hout : exists rest',
             recordOutcome h record = RejectedDecodeFailure (badMsgPrefix +:+ rest') /\
             (badMsgPrefix +:+ rest' = msgMissing \/
              exists ex, parsePayload data = Throw ex /\ badMsgPrefix +:+ rest' = msgDecode ex)).
  { unfold recordOutcome. rewrite Hpay.
    destruct Hfail as [Hd|(ex & stack & Hd & Hparse & Hstack)]; rewrite Hd.
    - eexists. split; [reflexivity|]. now left.
    - rewrite Hparse, (decodeMessage_ok ex stack Hstack).
      eexists. split; [reflexivity|]. right. exists ex. now split. }
  destruct Hout as (rest' & Hout & Hmsg).
  set (msg := badMsgPrefix +:+ rest') in *.
  destruct (processRecord_outcome h N i record w Hn) as (tr1 & Hq1 & _ & E1).
  destruct (recordGenerator_outcome h record rest i w Hn) as (tr2 & Hq2 & _ & E2).
  rewrite Hout in E1, E2.
  destruct (complete_counted h N i (JStr msg) (addTrace tr1 w) Hn)
    as (tr & Ec & Hcb & Hinv & _ & Hcomp & _).
  { now apply nonFatal_prefixed. }
  destruct Hq1 as (Hcb1 & Hi1 & Hc1).
  exists msg, (tr ++ tr1), tr2. split; [exact Hout|]. split; [exact Hmsg|].
  split; [now apply nonFatal_prefixed|].
  split. { rewrite E1, Ec. simpl. now rewrite app_assoc. }
  split. { now rewrite completionsOf_app, Hc1, Hcomp. }
  split. { now rewrite invocationsOf_app, Hi1, Hinv. }
  split. { rewrite callbacksOf_app, Hcb1, Hcb. reflexivity. }
  split; [exact Hq2|].
  intros g Hg. rewrite E2. unfold KinesisSynchronousHandler.pushBad, addTrace. simpl.
  now rewrite Hg.
Qed.

(** C7: an event that passes the envelope checks and whose [data.schema]
    is not a key of the handler map, but converts to a string like the
    module name does, is an unsupported schema.  The concurrent dispatcher
    logs and calls the completion itself, with no argument, which the
    closure of the driver counts; the ordered dispatcher leaves one timer,
    and that timer logs and resumes a paused generator at the next record
    with nothing added to [badMessages].  Neither calls a registered
    method. *)
Theorem C7_unsupported_schema_completes_without_error
    (h : Handler) (N i : nat) (event schema data dataSchema : JSV)
    (complete : JSV -> M unit) (w : World) :
  named h = true ->
  truthy event = true ->
  getProp event "schema" = Ok schema ->
  truthy schema = true ->
  strictEqStr schema (eventSchemaId h) = true ->
  ajv_validate (ajv h) (eventSchemaId h) event = Ok true ->
  getProp event "data" = Ok data ->
  getProp data "schema" = Ok dataSchema ->
  registered h dataSchema = None ->
  convertible dataSchema = true ->
  dispatchOutcome h event = RejectedUnsupportedSchema dataSchema /\
  KinesisHandler.processEvent h i event complete w =
    complete JUndefined (addTrace [unsupportedLog h dataSchema] w) /\
  (exists tr,
     KinesisHandler.processEvent h i event (KinesisHandler.complete h N i) w =
       (Ok tt, mkWorld (tr ++ trace w) (S (successes w)) (pending w) (crashed w) (it w)) /\
     completionsOf tr = [(i, JUndefined)] /\ invocationsOf tr = [] /\
     callbacksOf tr = (if (S (successes w) =? N)%nat then [None] else [])) /\
  KinesisSynchronousHandler.processEvent h i event w =
    (Ok tt, mkWorld (trace w) (successes w) (pending w ++ [TTimeoutSkip dataSchema])
                    (crashed w) (it w)) /\
  (forall w' g, it w' = Some g -> gstate g = SuspendedYield ->
     KinesisSynchronousHandler.runTask h (TTimeoutSkip dataSchema) w' =
       topLevel
         (KinesisSynchronousHandler.genRun
            (KinesisSynchronousHandler.recordGenerator h
               (drop (S (gi g)) (grecords g)) (S (gi g))))
         (addTrace
            [EvLog [JStr (banner h +:+ " " +:+ constants.METHOD_PROCESS_EVENT
                            +:+ " - skipping event with unsupported data schema ("
                            +:+ toStr dataSchema +:+ ").")]] w')).
Proof.
  intros Hn Hev Hs Hts Heq Hval Hd Hds Hreg Hconv.
  assert (Hout : dispatchOutcome h event = RejectedUnsupportedSchema dataSchema).
  { unfold dispatchOutcome. now rewrite Hev, Hs, Hts, Heq, Hval, Hd, Hds, Hreg, Hconv. }
  split; [exact Hout|]. split; [|split; [|split]].
  - rewrite processEvent_outcome, Hout, Hn. reflexivity.
  - rewrite processEvent_outcome, Hout, Hn.
    match goal with
    | |- context [KinesisHandler.complete h N i JUndefined ?w0] =>
        destruct (complete_counted h N i JUndefined w0 Hn eq_refl)
          as (tr & E & Hcb & Hinv & _ & Hcomp & _)
    end.
    exists (tr ++ [unsupportedLog h dataSchema]). split.
    { rewrite E. simpl. now rewrite <- app_assoc. }
    split. { now rewrite completionsOf_app, Hcomp. }
    split. { now rewrite invocationsOf_app, Hinv. }
    rewrite callbacksOf_app, Hcb. reflexivity.
  - rewrite processEvent_sync_outcome, Hout. reflexivity.
  - intros w' g Hg Hst. unfold KinesisSynchronousHandler.runTask, topLevel.
    unfold bind at 1. rewrite say_ok by (simpl; now rewrite ?Hconv).
    unfold KinesisSynchronousHandler.itNext, addTrace.
    unfold bind at 1, getIt at 1. simpl.
    rewrite Hg, Hst. reflexivity.
Qed.

(** C9: an event that carries the configured envelope identity and
    validates against it, but has no [data], makes both dispatchers throw
    the TypeError of the read [event.data.schema]: no rejection is
    produced, the completion is not called, no timer is set and the world is
    untouched. *)
Theorem C9_missing_data_raises_TypeError
    (h : Handler) (i : nat) (event schema : JSV) (complete : JSV -> M unit) (w : World) :
  truthy event = true ->
  getProp event "schema" = Ok schema ->
  truthy schema = true ->
  strictEqStr schema (eventSchemaId h) = true ->
  ajv_validate (ajv h) (eventSchemaId h) event = Ok true ->
  getProp event "data" = Ok JUndefined ->
  dispatchOutcome h event = Raised (TypeError "Cannot read property 'schema' of undefined") /\
  KinesisHandler.processEvent h i event complete w =
    (Throw (TypeError "Cannot read property 'schema' of undefined"), w) /\
  KinesisSynchronousHandler.processEvent h i event w =
    (Throw (TypeError "Cannot read property 'schema' of undefined"), w).
Proof.
  intros Hev Hs Hts Heq Hval Hd.
  assert (Hout : dispatchOutcome h event
                 = Raised (TypeError "Cannot read property 'schema' of undefined")).
  { unfold dispatchOutcome. now rewrite Hev, Hs, Hts, Heq, Hval, Hd. }
  split; [exact Hout|]. split.
  - rewrite processEvent_outcome, Hout. reflexivity.
  - rewrite processEvent_sync_outcome, Hout. reflexivity.
Qed.

End PerRecord.

(** ** Steps of the concurrent driver *)

Section ConcurrentSteps.
Context `{V : Validator} `{R : Runtime}.





(** Every message of a rejection begins with the marker. *)
Lemma dispatchOutcome_prefixed (h : Handler) (event : JSV) (msg : string) :
  dispatchOutcome h event = RejectedBadEnvelope msg \/
  dispatchOutcome h event = RejectedBadSchema msg ->
  exists rest, msg = badMsgPrefix +:+ rest.
Proof.
  unfold dispatchOutcome.
  intros [E|E]; repeat case_match; try discriminate;
    injection E as <-; eexists; reflexivity.
Qed.

Lemma recordOutcome_prefixed (h : Handler) (record : JSV) (msg : string) :
  recordOutcome h record = RejectedBadEnvelope msg \/
  recordOutcome h record = RejectedBadSchema msg \/
  recordOutcome h record = RejectedDecodeFailure msg ->
  exists rest, msg = badMsgPrefix +:+ rest.
Proof.
  unfold recordOutcome. intros E.
  destruct (payloadOf record) as [data|ex]; [|intuition discriminate].
  destruct (truthy data).
  - destruct (parsePayload data) as [parsed|ex].
    + destruct (truthy parsed); [|intuition discriminate].
      destruct (transform h parsed record) as [event|ex]; [|intuition discriminate].
      destruct E as [E|[E|E]].
      * apply (dispatchOutcome_prefixed h event). now left.
      * apply (dispatchOutcome_prefixed h event). now right.
      * now destruct (proj1 (dispatchOutcome_not_decoder h event) msg).
    + destruct (decodeMessage ex) as [m|e] eqn:Em; [|intuition discriminate].
      destruct E as [E|[E|E]]; try discriminate. injection E as <-.
      unfold decodeMessage in Em. destruct (stackText ex); [|discriminate].
      injection Em as <-. eexists. reflexivity.
  - destruct E as [E|[E|E]]; try discriminate. injection E as <-. eexists. reflexivity.
Qed.

(** A dispatched record goes to the method stored under its key. *)
Lemma dispatchOutcome_registered (h : Handler) (event : JSV)
    (key : string) (method : Method) (ev : JSV) :
  dispatchOutcome h event = Dispatched key method ev ->
  schemaMethodPairs h !! key = Some method /\ ev = event.
Proof.
  unfold dispatchOutcome. intros E.
  repeat case_match; try discriminate. injection E as <- <- <-.
  match goal with Hr : registered _ _ = Some _ |- _ => unfold registered in Hr end.
  repeat case_match; try discriminate.
  match goal with Hr : Some _ = Some _ |- _ => injection Hr as <- <- end.
  now split.
Qed.

Lemma recordOutcome_registered (h : Handler) (record : JSV)
    (key : string) (method : Method) (ev : JSV) :
  recordOutcome h record = Dispatched key method ev ->
  schemaMethodPairs h !! key = Some method.
Proof.
  unfold recordOutcome. intros E.
  repeat case_match; try discriminate.
  eapply dispatchOutcome_registered. eassumption.
Qed.




End ConcurrentSteps.

(** ** Runs of the concurrent driver on batches that complete *)

Section ConcurrentCounting.
Context `{V : Validator} `{R : Runtime}.











Lemma runSchedule_idle (run : Task -> World -> World) (picks : list nat) (w : World) :
  pending w = [] -> runSchedule run picks w = w.
Proof.
  intros Hp. induction picks as [|p picks IH]; simpl; [reflexivity|].
  destruct (crashed w); [reflexivity|]. now rewrite Hp, lookup_nil.
Qed.



End ConcurrentCounting.

(** ** The callback of the concurrent driver is invoked at most once *)

Section ConcurrentAtMostOnce.
Context `{V : Validator} `{R : Runtime}.









(** The [try] block on a fresh world. *)
Lemma tryBlock_eq (h : Handler) (kinesisEvent : JSV) :
  named h = true ->
  KinesisHandler.tryBlock h kinesisEvent World0 =
  match recordsOf kinesisEvent with
  | Some records =>
      KinesisHandler.forRecords h (length records) records 0
        (mkWorld [received h kinesisEvent] 0 [] None None)
  | None =>
      (Ok tt, mkWorld [EvCallback (Some (JStr (msgNoRecords h))); received h kinesisEvent]
                      0 [] None None)
  end.
Proof.
  intros Hh. unfold KinesisHandler.tryBlock. unfold bind at 1.
  rewrite say_ok by (exact Hh || reflexivity).
  destruct (recordsOf kinesisEvent); [reflexivity|].
  unfold noRecords, interpolated, named in *. run_monad. now rewrite Hh.
Qed.

(** An instance whose module name cannot be converted: the first line of
    [processKinesisEvent] throws, the [catch] block throws again, and
    nothing has happened. *)
Lemma processKinesisEvent_unnamed (h : Handler) (kinesisEvent : JSV) :
  named h = false ->
  KinesisHandler.tryBlock h kinesisEvent World0 = (Throw unprintable, World0) /\
  KinesisHandler.processKinesisEvent h kinesisEvent World0 = (Throw unprintable, World0).
Proof.
  intros Hh.
  assert (E : KinesisHandler.tryBlock h kinesisEvent World0 = (Throw unprintable, World0)).
  { unfold KinesisHandler.tryBlock. unfold bind at 1.
    rewrite say_fails by (now rewrite Hh). reflexivity. }
  split; [exact E|].
  unfold KinesisHandler.processKinesisEvent, tryCatch. rewrite E.
  unfold catchBlock, toString, named in *. run_monad. now rewrite Hh.
Qed.



End ConcurrentAtMostOnce.

(** ** The ordered driver never invokes the callback from its generator *)

Section OrderedSilence.
Context `{V : Validator} `{R : Runtime}.

Lemma silent_ret {A} (a : A) : silent (ret a).
Proof. now intros w. Qed.

Lemma silent_throw {A} (ex : JSV) : silent (throw (A := A) ex).
Proof. now intros w. Qed.

Lemma silent_lift {A} (r : result A) : silent (lift r).
Proof. now intros w. Qed.

Lemma silent_bind {A B} (m : M A) (k : A -> M B) :
  silent m -> (forall a, silent (k a)) -> silent (bind m k).
Proof.
  intros Hm Hk w. unfold bind. specialize (Hm w).
  destruct (m w) as [[a|ex] w1]; simpl in *; [|exact Hm].
  now rewrite Hk.
Qed.

Lemma silent_tryCatch {A} (m : M A) (handler : JSV -> M A) :
  silent m -> (forall ex, silent (handler ex)) -> silent (tryCatch m handler).
Proof.
  intros Hm Hk w. unfold tryCatch. specialize (Hm w).
  destruct (m w) as [[a|ex] w1]; simpl in *; [exact Hm|].
  now rewrite Hk.
Qed.

Lemma silent_console_log (args : list JSV) : silent (console_log args).
Proof. now intros w. Qed.

Lemma silent_emit_decode (i : nat) : silent (emit (EvDecode i)).
Proof. now intros w. Qed.

Lemma silent_emit_invoke (i : nat) (key : string) (event : JSV) :
  silent (emit (EvInvoke i key event)).
Proof. now intros w. Qed.

Lemma silent_emit_complete (i : nat) (err : JSV) : silent (emit (EvComplete i err)).
Proof. now intros w. Qed.

Lemma silent_defer (t : Task) : silent (defer t).
Proof. now intros w. Qed.

Lemma silent_getIt : silent getIt.
Proof. now intros w. Qed.

Lemma silent_setIt (g : option Gen) : silent (setIt g).
Proof. now intros w. Qed.

Lemma silent_setGenState (st : GenState) : silent (KinesisSynchronousHandler.setGenState st).
Proof. now intros w. Qed.

Lemma silent_yieldAt (i : nat) : silent (KinesisSynchronousHandler.yieldAt i).
Proof. now intros w. Qed.

Lemma silent_pushBad (v : JSV) : silent (KinesisSynchronousHandler.pushBad v).
Proof. now intros w. Qed.

Lemma silent_if {A} (b : bool) (m1 m2 : M A) :
  silent m1 -> silent m2 -> silent (if b then m1 else m2).
Proof. now destruct b. Qed.

(** Decomposing a computation along its binds and branches. *)
Ltac silence :=
  repeat first
    [ assumption
    | apply silent_ret | apply silent_throw | apply silent_lift
    | apply silent_console_log | apply silent_emit_decode | apply silent_emit_invoke
    | apply silent_emit_complete | apply silent_defer | apply silent_getIt
    | apply silent_setIt | apply silent_setGenState | apply silent_yieldAt
    | apply silent_pushBad
    | apply silent_bind; [|intros ?]
    | apply silent_tryCatch; [|intros ?]
    | apply silent_if
    | match goal with
      | |- silent (match ?x with _ => _ end) => destruct x
      end ].

Lemma silent_say (h : Handler) (values : list JSV) (rest : string) :
  silent (say h values rest).
Proof. unfold say. silence. Qed.

Lemma silent_reentrantNext : silent KinesisSynchronousHandler.reentrantNext.
Proof. unfold KinesisSynchronousHandler.reentrantNext. silence. Qed.

Lemma silent_completion (h : Handler) (next : M unit) (i : nat) (event err : JSV) :
  silent next -> silent (KinesisSynchronousHandler.completion h next i event err).
Proof. intros Hn. unfold KinesisSynchronousHandler.completion. silence. Qed.

Lemma silent_runScript (complete : JSV -> M unit) (i : nat) (event : JSV)
    (script : list HAction) :
  (forall err, silent (complete err)) -> silent (runScript complete i event script).
Proof.
  intros Hc. induction script as [|[err|err|ex] rest IH];
    cbn [runScript]; silence. apply Hc.
Qed.

Lemma silent_callMethod (m : Method) (i : nat) (key : string) (event : JSV)
    (complete : JSV -> M unit) :
  (forall err, silent (complete err)) -> silent (callMethod m i key event complete).
Proof.
  intros Hc. unfold callMethod. destruct m; silence. now apply silent_runScript.
Qed.

Lemma silent_processEvent (h : Handler) (i : nat) (event : JSV) :
  silent (KinesisSynchronousHandler.processEvent h i event).
Proof.
  unfold KinesisSynchronousHandler.processEvent. silence.
  apply silent_callMethod. intros err. apply silent_completion, silent_reentrantNext.
Qed.

Lemma silent_decodePayload (h : Handler) (i : nat) (data : JSV) :
  silent (decodePayload h i data).
Proof. unfold decodePayload. silence. Qed.

Lemma silent_recordGenerator (h : Handler) (records : list JSV) (i : nat) :
  silent (KinesisSynchronousHandler.recordGenerator h records i).
Proof.
  revert i. induction records as [|record rest IH]; intros i;
    cbn [KinesisSynchronousHandler.recordGenerator]; silence; try apply IH.
  apply silent_callMethod. intros err. apply silent_completion, silent_reentrantNext.
Qed.

Lemma silent_itNext (h : Handler) (arg : JSV) :
  silent (KinesisSynchronousHandler.itNext h arg).
Proof.
  unfold KinesisSynchronousHandler.itNext, KinesisSynchronousHandler.genRun.
  silence; apply silent_recordGenerator.
Qed.

Lemma topLevel_silent (m : M unit) (w : World) :
  silent m -> callbacks (topLevel m w) = callbacks w.
Proof.
  intros Hm. unfold topLevel. specialize (Hm w).
  now destruct (m w) as [[a|ex] w1].
Qed.

(** No later turn of the ordered driver invokes the callback. *)
Lemma runTask_silent (h : Handler) (t : Task) (w : World) :
  callbacks (KinesisSynchronousHandler.runTask h t w) = callbacks w.
Proof.
  destruct t; simpl; apply topLevel_silent.
  - apply silent_completion, silent_itNext.
  - apply silent_bind; [apply silent_lift | intros v; apply silent_itNext].
  - apply silent_bind; [apply silent_say | intros _; apply silent_itNext].
Qed.

Lemma runSchedule_silent (h : Handler) (picks : list nat) (w : World) :
  callbacks (runSchedule (KinesisSynchronousHandler.runTask h) picks w) = callbacks w.
Proof.
  revert w. induction picks as [|p picks IH]; intros w; simpl; [reflexivity|].
  destruct (crashed w); [reflexivity|].
  destruct (pending w !! p); [|apply IH].
  now rewrite IH, runTask_silent.
Qed.

(** The [try] block of the ordered driver on a fresh world. *)
Lemma tryBlock_sync_eq (h : Handler) (kinesisEvent : JSV) :
  named h = true ->
  KinesisSynchronousHandler.tryBlock h kinesisEvent World0 =
  match recordsOf kinesisEvent with
  | Some records =>
      KinesisSynchronousHandler.itNext h JUndefined
        (mkWorld [received h kinesisEvent] 0 [] None
                 (Some (mkGen SuspendedStart records 0 [])))
  | None =>
      (Ok tt, mkWorld [EvCallback (Some (JStr (msgNoRecords h))); received h kinesisEvent]
                      0 [] None None)
  end.
Proof.
  intros Hh. unfold KinesisSynchronousHandler.tryBlock.
  unfold bind at 1. rewrite say_ok by (exact Hh || reflexivity).
  destruct (recordsOf kinesisEvent); [reflexivity|].
  unfold noRecords, interpolated, named in *. run_monad. now rewrite Hh.
Qed.

(** An instance whose module name cannot be converted, as in the
    concurrent driver. *)
Lemma processKinesisEvent_sync_unnamed (h : Handler) (kinesisEvent : JSV) :
  named h = false ->
  KinesisSynchronousHandler.tryBlock h kinesisEvent World0 = (Throw unprintable, World0) /\
  KinesisSynchronousHandler.processKinesisEvent h kinesisEvent World0
    = (Throw unprintable, World0).
Proof.
  intros Hh.
  assert (E : KinesisSynchronousHandler.tryBlock h kinesisEvent World0
              = (Throw unprintable, World0)).
  { unfold KinesisSynchronousHandler.tryBlock. unfold bind at 1.
    rewrite say_fails by (now rewrite Hh). reflexivity. }
  split; [exact E|].
  unfold KinesisSynchronousHandler.processKinesisEvent, tryCatch. rewrite E.
  unfold catchBlock, toString, named in *. run_monad. now rewrite Hh.
Qed.

Lemma run_sync_unnamed (h : Handler) (kinesisEvent : JSV) (picks : list nat) :
  named h = false -> KinesisSynchronousHandler.run h kinesisEvent picks = World0.
Proof.
  intros Hh. unfold KinesisSynchronousHandler.run.
  rewrite (proj2 (processKinesisEvent_sync_unnamed h kinesisEvent Hh)).
  now apply runSchedule_idle.
Qed.

(** The ordered driver, whole runs: the callback is invoked by the call of
    [processKinesisEvent] itself or not at all. *)
Lemma ordered_callback_at_most_once (h : Handler) (kinesisEvent : JSV) (picks : list nat) :
  length (callbacks (KinesisSynchronousHandler.run h kinesisEvent picks)) <= 1 /\
  (named h = true -> recordsOf kinesisEvent = None ->
   callbacks (KinesisSynchronousHandler.run h kinesisEvent picks)
     = [Some (JStr (msgNoRecords h))]) /\
  (forall ex, fst (KinesisSynchronousHandler.tryBlock h kinesisEvent World0) = Throw ex ->
              callbacks (KinesisSynchronousHandler.run h kinesisEvent picks) =
              if reportable h ex then [Some ex] else []) /\
  ~ In None (callbacks (KinesisSynchronousHandler.run h kinesisEvent picks)).
Proof.
  destruct (named h) eqn:Hh.
  2:{ rewrite (run_sync_unnamed h kinesisEvent picks Hh).
      split; [simpl; lia|]. split; [discriminate|]. split; [|now intros []].
      intros ex _. unfold reportable. now rewrite Hh. }
  unfold KinesisSynchronousHandler.run. rewrite runSchedule_silent.
  unfold KinesisSynchronousHandler.processKinesisEvent, tryCatch.
  rewrite (tryBlock_sync_eq h kinesisEvent Hh).
  destruct (recordsOf kinesisEvent) as [records|] eqn:Hrec.
  - pose proof (silent_itNext h JUndefined
                  (mkWorld [received h kinesisEvent] 0 [] None
                           (Some (mkGen SuspendedStart records 0 [])))) as Hs.
    destruct (KinesisSynchronousHandler.itNext h JUndefined _) as [[[]|ex] w1];
      cbn [fst snd] in *.
    + rewrite Hs. repeat split; try discriminate; [simpl; lia|now intros []].
    + destruct (reportable h ex) eqn:Hrep.
      * rewrite (catchBlock_reports h ex w1 Hrep). unfold callbacks in *. views. rewrite Hs.
        repeat split; try discriminate; [simpl; lia| |].
        -- intros ex' Hex. injection Hex as <-. now rewrite Hrep.
        -- intros [Hin|[]]. discriminate.
      * destruct (catchBlock_fails h ex w1 Hrep) as (e & Ecatch). rewrite Ecatch.
        cbn [snd]. rewrite Hs.
        repeat split; try discriminate; [simpl; lia| |now intros []].
        intros ex' Hex. injection Hex as <-. now rewrite Hrep.
  - cbn [fst snd]. repeat split; try discriminate; try contradiction.
    + unfold callbacks; simpl; lia.
    + intros [Hin|[]]. discriminate.
Qed.

End OrderedSilence.

(** ** The ordered driver pauses at one record at a time *)

Section OrderedOrder.
Context `{V : Validator} `{R : Runtime}.

Lemma below_mono (m n : nat) (w : World) : m <= n -> below m w -> below n w.
Proof.
  intros Hmn (Hd & Hi & Hc). repeat split.
  - intros j Hj. specialize (Hd j Hj). lia.
  - intros j Hj. specialize (Hi j Hj). lia.
  - intros j e Hj. specialize (Hc j e Hj). lia.
Qed.

(** Adding events that belong to record [i]. *)
Lemma below_extend (i : nat) (tr : list Event) (w w' : World) :
  trace w' = tr ++ trace w ->
  below (S i) w ->
  (forall j, In j (decodedOf tr) -> j = i) ->
  (forall j, In j (invocationsOf tr) -> j = i) ->
  (forall j e, In (j, e) (completionsOf tr) -> j = i) ->
  below (S i) w'.
Proof.
  intros E (Hd & Hi & Hc) Td Ti Tc. unfold below, decoded, invocations, completions in *.
  rewrite E, decodedOf_app, invocationsOf_app, completionsOf_app.
  repeat split.
  - intros j Hj. apply in_app_or in Hj as [Hj|Hj]; [now apply Hd|]. rewrite (Td j Hj). lia.
  - intros j Hj. apply in_app_or in Hj as [Hj|Hj]; [now apply Hi|]. rewrite (Ti j Hj). lia.
  - intros j e Hj. apply in_app_or in Hj as [Hj|Hj]; [now apply (Hc j e)|].
    rewrite (Tc j e Hj). lia.
Qed.

Lemma clean_extend (tr : list Event) (w w' : World) :
  trace w' = tr ++ trace w ->
  clean w ->
  (forall j e, In (j, e) (completionsOf tr) -> truthy e = false) ->
  clean w'.
Proof.
  intros E Hc Tc j e. unfold completions. rewrite E, completionsOf_app.
  intros Hj. apply in_app_or in Hj as [Hj|Hj]; [now apply (Hc j e)|now apply (Tc j e)].
Qed.

(** A fatal completion of record [i] on top of a clean past. *)
Lemma fatal_accounted (h : Handler) (i : nat) (err : JSV) (tr : list Event) (w w' : World) :
  trace w' = tr ++ trace w ->
  below (S i) w -> clean w ->
  (forall j, In j (decodedOf tr) -> j = i) ->
  (forall j, In j (invocationsOf tr) -> j = i) ->
  completionsOf tr = [(i, err)] ->
  accounted h w' (fun x => x = fatalError h err).
Proof.
  intros E Hb Hc Td Ti Tc k e Hin Ht.
  unfold completions in Hin. rewrite E, completionsOf_app, Tc in Hin.
  apply in_app_or in Hin as [Hin|[Hin|[]]].
  - rewrite (Hc k e Hin) in Ht. discriminate.
  - injection Hin as <- <-. split; [|reflexivity].
    apply (below_extend i tr w w' E Hb Td Ti).
    rewrite Tc. intros j e [Hj|[]]. now injection Hj as <- _.
Qed.

Lemma clean_accounted (h : Handler) (w : World) (raised : JSV -> Prop) :
  clean w -> accounted h w raised.
Proof. intros Hc k e Hin Ht. rewrite (Hc k e Hin) in Ht. discriminate. Qed.

(** The completion closure of the ordered driver. *)
Lemma completion_fatal (h : Handler) (next : M unit) (i : nat) (event err : JSV) (w : World) :
  truthy err = true ->
  KinesisSynchronousHandler.completion h next i event err w =
    (Throw (fatalError h err),
     addTrace [EvLog [JStr "Fatal error while processing. "; err]; EvComplete i err] w).
Proof.
  intros Ht. unfold KinesisSynchronousHandler.completion, fatalError. run_monad.
  rewrite Ht.
  now destruct (interpolated [module h; err] (banner h +:+ " " +:+ toStr err)).
Qed.

Lemma completion_success (h : Handler) (next : M unit) (i : nat) (event err : JSV) (w : World) :
  truthy err = false ->
  (exists ex, KinesisSynchronousHandler.completion h next i event err w =
                (Throw ex, addTrace [EvComplete i err] w)) \/
  (exists line, KinesisSynchronousHandler.completion h next i event err w =
                  next (addTrace [EvLog line; EvComplete i err] w)).
Proof.
  intros Ht. unfold KinesisSynchronousHandler.completion. run_monad. rewrite Ht.
  destruct (toString (module h)) as [name|ex]; simpl; [|left; eexists; reflexivity].
  destruct (getProp event "data") as [data|ex]; simpl; [|left; eexists; reflexivity].
  destruct (getProp data "schema") as [schema|ex]; simpl; [|left; eexists; reflexivity].
  destruct (toString schema) as [kind|ex]; simpl; [|left; eexists; reflexivity].
  right. eexists. reflexivity.
Qed.

(** What a fatal completion throws can be reported by the [catch] block. *)
Lemma fatalError_reportable (h : Handler) (err : JSV) :
  named h = true -> reportable h (fatalError h err) = true.
Proof.
  intros Hh. unfold reportable, fatalError, interpolated. rewrite Hh.
  now destruct (forallb convertible [module h; err]).
Qed.

(** While the generator is running, finished or absent, the call made from
    inside a method is the call [that.it.next()]. *)
Lemma reentrantNext_itNext (h : Handler) (w : World) :
  match it w with
  | Some g => gstate g = Executing \/ gstate g = Completed
  | None => True
  end ->
  KinesisSynchronousHandler.reentrantNext w = KinesisSynchronousHandler.itNext h JUndefined w.
Proof.
  unfold KinesisSynchronousHandler.reentrantNext, KinesisSynchronousHandler.itNext.
  run_monad. destruct (it w) as [g|]; [|reflexivity].
  intros [Hs|Hs]; now rewrite Hs.
Qed.

Lemma reentrantNext_pure (w : World) :
  exists r, KinesisSynchronousHandler.reentrantNext w = (r, w).
Proof.
  unfold KinesisSynchronousHandler.reentrantNext. run_monad.
  destruct (it w) as [g|]; [destruct (gstate g)|]; eexists; reflexivity.
Qed.

(** A method called by the ordered dispatcher, by what it does. *)
Lemma callMethod_sync_script (h : Handler) (i : nat) (key : string) (event : JSV)
    (n : nat) (body : JSV -> list HAction) (w : World) :
  callMethod (MFun n body) i key event
    (KinesisSynchronousHandler.completion h KinesisSynchronousHandler.reentrantNext i event) w =
  match body event with
  | [] => (Ok tt, addTrace [EvInvoke i key event] w)
  | [CompleteNow err] =>
      KinesisSynchronousHandler.completion h KinesisSynchronousHandler.reentrantNext
        i event err (addTrace [EvInvoke i key event] w)
  | [CompleteLater err] =>
      (Ok tt, mkWorld (EvInvoke i key event :: trace w) (successes w)
                      (pending w ++ [TCompletion i event err]) (crashed w) (it w))
  | HThrow ex :: _ => (Throw ex, addTrace [EvInvoke i key event] w)
  | _ => callMethod (MFun n body) i key event
           (KinesisSynchronousHandler.completion h
              KinesisSynchronousHandler.reentrantNext i event) w
  end.
Proof.
  unfold callMethod, addTrace. unfold bind at 1, emit at 1.
  destruct (body event) as [|[err|err|ex] [|b rest]] eqn:Eb; try reflexivity;
    try (unfold callMethod; unfold bind at 2, emit at 1; now rewrite Eb).
  simpl. unfold bind, ret.
  match goal with
  | |- context [KinesisSynchronousHandler.completion ?a ?b ?c ?d ?e ?f] =>
      destruct (KinesisSynchronousHandler.completion a b c d e f) as [[[]|ex] w']
  end; reflexivity.
Qed.

Lemma accounted_field (h : Handler) (w w' : World) (raised raised' : JSV -> Prop) :
  trace w' = trace w ->
  (forall x, raised x -> raised' x) ->
  accounted h w raised -> accounted h w' raised'.
Proof.
  intros E Hr Ha k e Hin Ht. unfold completions in Hin. rewrite E in Hin.
  destruct (Ha k e Hin Ht) as ((Hd & Hi & Hc) & Hx). split; [|now apply Hr].
  unfold below, decoded, invocations, completions. now rewrite E.
Qed.

(** The dispatch of record [i] to a disciplined method, followed by the
    [yield] of the iteration. *)
Lemma dispatch_segment (h : Handler) (i : nat) (key : string) (m : Method)
    (event : JSV) (w : World) (g : Gen) :
  (forall n body, m = MFun n body -> length (body event) <= 1) ->
  it w = Some g -> pending w = [] -> below (S i) w -> clean w ->
  exists r w',
    (callMethod m i key event
       (KinesisSynchronousHandler.completion h KinesisSynchronousHandler.reentrantNext i event) ;;;
     KinesisSynchronousHandler.yieldAt i) w = (r, w') /\
    crashed w' = crashed w /\ (exists g', it w' = Some g') /\ segmentEnd h w' r.
Proof.
  intros Hlen Hit Hp Hb Hc. unfold bind at 1.
  destruct m as [n body|v].
  2:{ exists (Throw (TypeError "this.schemaMethodPairs[event.data.schema] is not a function")), w.
      split; [reflexivity|]. split; [reflexivity|]. split; [eauto|].
      right. right. eexists. split; [reflexivity|]. split; [exact Hp|].
      now apply clean_accounted. }
  specialize (Hlen n body eq_refl). rewrite callMethod_sync_script.
  destruct (body event) as [|[err|err|ex] [|b rest]]; simpl in Hlen; try lia.
  - (* the method never completes *)
    do 2 eexists. split; [reflexivity|]. simpl. rewrite Hit.
    split; [reflexivity|]. split; [eauto|]. left. split; [reflexivity|]. exists i.
    split; [eexists; split; [reflexivity|]; now split|].
    split; [|split; [|now left]].
    + apply (below_extend i [EvInvoke i key event] w); try exact Hb; try reflexivity;
        simpl; intuition.
    + apply (clean_extend [EvInvoke i key event] w); try exact Hc; try reflexivity.
      now intros j e [].
  - (* the method completes within the call *)
    destruct (truthy err) eqn:Ht.
    + rewrite completion_fatal by exact Ht.
      do 2 eexists. split; [reflexivity|]. split; [reflexivity|]. split; [simpl; eauto|].
      right. right. eexists. split; [reflexivity|]. split; [exact Hp|].
      apply (fatal_accounted h i err
               [EvLog [JStr "Fatal error while processing. "; err];
                EvComplete i err; EvInvoke i key event] w); try assumption; try reflexivity.
      * now intros j [].
      * intros j [Hj|[]]. now subst.
    + destruct (completion_success h KinesisSynchronousHandler.reentrantNext i event err
                  (addTrace [EvInvoke i key event] w) Ht) as [(ex & E)|(line & E)];
        rewrite E; clear E.
      * do 2 eexists. split; [reflexivity|]. split; [reflexivity|]. split; [simpl; eauto|].
        right. right. eexists. split; [reflexivity|]. split; [exact Hp|].
        apply clean_accounted.
        apply (clean_extend [EvComplete i err; EvInvoke i key event] w);
          try exact Hc; try reflexivity.
        intros j e [Hj|[]]. now injection Hj as _ <-.
      * destruct (reentrantNext_pure
                    (addTrace [EvLog line; EvComplete i err]
                       (addTrace [EvInvoke i key event] w))) as ([[]|ex] & E);
          rewrite E; clear E.
        -- do 2 eexists. split; [reflexivity|]. simpl. rewrite Hit.
           split; [reflexivity|]. split; [eauto|]. left. split; [reflexivity|]. exists i.
           split; [eexists; split; [reflexivity|]; now split|].
           split; [|split; [|now left]].
           ++ apply (below_extend i [EvLog line; EvComplete i err; EvInvoke i key event] w);
                try exact Hb; try reflexivity.
              ** now intros j [].
              ** intros j [Hj|[]]. now subst.
              ** intros j e [Hj|[]]. now injection Hj as <- _.
           ++ apply (clean_extend [EvLog line; EvComplete i err; EvInvoke i key event] w);
                try exact Hc; try reflexivity.
              intros j e [Hj|[]]. now injection Hj as _ <-.
        -- do 2 eexists. split; [reflexivity|]. split; [reflexivity|]. split; [simpl; eauto|].
           right. right. eexists. split; [reflexivity|]. split; [exact Hp|].
           apply clean_accounted.
           apply (clean_extend [EvLog line; EvComplete i err; EvInvoke i key event] w);
             try exact Hc; try reflexivity.
           intros j e [Hj|[]]. now injection Hj as _ <-.
  - (* the method will complete later *)
    do 2 eexists. split; [reflexivity|]. simpl. rewrite Hit, Hp.
    split; [reflexivity|]. split; [eauto|]. left. split; [reflexivity|]. exists i.
    split; [eexists; split; [reflexivity|]; now split|].
    split; [|split].
    + apply (below_extend i [EvInvoke i key event] w); try exact Hb; try reflexivity;
        simpl; intuition.
    + apply (clean_extend [EvInvoke i key event] w); try exact Hc; try reflexivity.
      now intros j e [].
    + right. eexists. split; [reflexivity|]. reflexivity.
  - (* the method throws *)
    do 2 eexists. split; [reflexivity|]. split; [reflexivity|]. split; [simpl; eauto|].
    right. right. eexists. split; [reflexivity|]. split; [exact Hp|].
    apply clean_accounted.
    apply (clean_extend [EvInvoke i key event] w); try exact Hc; try reflexivity.
    now intros j e [].
Qed.

(** A stretch of the generator body that starts at the top of iteration
    [i] with nothing pending. *)
Lemma recordGenerator_segment (h : Handler) :
  named h = true ->
  disciplined h ->
  forall rest i w g,
    it w = Some g -> pending w = [] -> below i w -> clean w ->
    exists r w',
      KinesisSynchronousHandler.recordGenerator h rest i w = (r, w') /\
      crashed w' = crashed w /\ (exists g', it w' = Some g') /\ segmentEnd h w' r.
Proof.
  intros Hh Hd. induction rest as [|record rest IH]; intros i w g Hit Hp Hb Hc.
  - cbn [KinesisSynchronousHandler.recordGenerator]. run_monad. rewrite Hit.
    do 2 eexists. split; [reflexivity|]. simpl. split; [reflexivity|]. split; [eauto|].
    right. left. split; [reflexivity|]. split; [exact Hp|].
    apply (clean_extend [EvLog [JStr "Messages with invalid data: "; JArr (badMessages g)]] w);
      try exact Hc; try reflexivity.
    now intros j e [].
  - destruct (recordGenerator_outcome h record rest i w Hh)
      as (tr & (Hqc & Hqi & Hqd) & Hdec & E).
    rewrite E. clear E.
    assert (Hb0 : forall w0, trace w0 = tr ++ trace w -> below (S i) w0).
    { intros w0 E0. apply (below_extend i tr w w0 E0).
      - apply (below_mono i); [lia|exact Hb].
      - exact Hdec.
      - rewrite Hqi. now intros j [].
      - rewrite Hqd. now intros j e []. }
    assert (Hc0 : forall w0, trace w0 = tr ++ trace w -> clean w0).
    { intros w0 E0. apply (clean_extend tr w w0 E0 Hc). rewrite Hqd. now intros j e []. }
    destruct (recordOutcome h record) as [key m ev|msg|msg|msg|schema| |ex|timer] eqn:Eo.
    + destruct (dispatch_segment h i key m ev (addTrace tr w) g) as (r & w' & E & Hx & Hg & Hend).
      * intros n body ->. eapply Hd. eapply recordOutcome_registered. exact Eo.
      * exact Hit.
      * exact Hp.
      * now apply Hb0.
      * now apply Hc0.
      * exists r, w'. split; [exact E|]. split; [exact Hx|]. split; [exact Hg|exact Hend].
    + do 2 eexists. split; [reflexivity|]. simpl. rewrite Hit, Hp.
      split; [reflexivity|]. split; [eauto|]. left. split; [reflexivity|]. exists i.
      split; [eexists; split; [reflexivity|]; now split|].
      split; [now apply Hb0|]. split; [now apply Hc0|].
      right. eexists. split; reflexivity.
    + do 2 eexists. split; [reflexivity|]. simpl. rewrite Hit, Hp.
      split; [reflexivity|]. split; [eauto|]. left. split; [reflexivity|]. exists i.
      split; [eexists; split; [reflexivity|]; now split|].
      split; [now apply Hb0|]. split; [now apply Hc0|].
      right. eexists. split; reflexivity.
    + destruct (IH (S i)
                  (snd (KinesisSynchronousHandler.pushBad (JStr msg) (addTrace tr w)))
                  (mkGen (gstate g) (grecords g) (gi g) (badMessages g ++ [JStr msg])))
        as (r & w' & E & Hx & Hg & Hend).
      * simpl. now rewrite Hit.
      * exact Hp.
      * now apply Hb0.
      * now apply Hc0.
      * exists r, w'. split; [exact E|]. split; [exact Hx|]. split; [exact Hg|exact Hend].
    + do 2 eexists. split; [reflexivity|]. simpl. rewrite Hit, Hp.
      split; [reflexivity|]. split; [eauto|]. left. split; [reflexivity|]. exists i.
      split; [eexists; split; [reflexivity|]; now split|].
      split; [now apply Hb0|]. split; [now apply Hc0|].
      right. eexists. split; reflexivity.
    + destruct (IH (S i) (addTrace tr w) g) as (r & w' & E & Hx & Hg & Hend);
        [exact Hit|exact Hp|now apply Hb0|now apply Hc0|].
      exists r, w'. split; [exact E|]. split; [exact Hx|]. split; [exact Hg|exact Hend].
    + do 2 eexists. split; [reflexivity|]. split; [reflexivity|]. split; [simpl; eauto|].
      right. right. eexists. split; [reflexivity|]. split; [exact Hp|].
      apply clean_accounted. now apply Hc0.
    + do 2 eexists. split; [reflexivity|]. simpl. rewrite Hit, Hp.
      split; [reflexivity|]. split; [eauto|]. left. split; [reflexivity|]. exists i.
      split; [eexists; split; [reflexivity|]; now split|].
      split; [now apply Hb0|]. split; [now apply Hc0|].
      right. eexists. split; [reflexivity|].
      unfold recordOutcome in Eo. repeat case_match; try discriminate.
      match goal with
      | Hd' : dispatchOutcome _ _ = Indescribable _ |- _ =>
          destruct (dispatchOutcome_indescribable _ _ _ Hd') as [->|(schema & -> & _)]
      end; exact I.
Qed.

Lemma accounted_extend (h : Handler) (tr : list Event) (w w' : World)
    (raised raised' : JSV -> Prop) :
  trace w' = tr ++ trace w ->
  decodedOf tr = [] -> invocationsOf tr = [] -> completionsOf tr = [] ->
  (forall x, raised x -> raised' x) ->
  accounted h w raised -> accounted h w' raised'.
Proof.
  intros E Td Ti Tc Hr Ha k e Hin Ht.
  unfold completions in Hin. rewrite E, completionsOf_app, Tc, app_nil_r in Hin.
  destruct (Ha k e Hin Ht) as ((Hd & Hi & Hc) & Hx). split; [|now apply Hr].
  unfold below, decoded, invocations, completions in *.
  now rewrite E, decodedOf_app, invocationsOf_app, completionsOf_app, Td, Ti, Tc, !app_nil_r.
Qed.

(** [that.it.next(arg)] on a generator that is not running and has nothing
    pending. *)
Lemma itNext_segment (h : Handler) (arg : JSV) (w : World) (g : Gen) :
  named h = true ->
  disciplined h ->
  it w = Some g -> pending w = [] -> clean w ->
  (gstate g = SuspendedStart /\ below 0 w) \/
  (gstate g = SuspendedYield /\ below (S (gi g)) w) ->
  exists r w',
    KinesisSynchronousHandler.itNext h arg w = (r, w') /\
    crashed w' = crashed w /\ segmentEnd h w' r.
Proof.
  intros Hh Hd Hit Hp Hc Hstate.
  unfold KinesisSynchronousHandler.itNext. unfold bind at 1, getIt. rewrite Hit.
  assert (Hrun : forall body w1 g1,
             it w1 = Some g1 -> crashed w1 = crashed w ->
             (exists r w', body w1 = (r, w') /\ crashed w' = crashed w1 /\
                           (exists g', it w' = Some g') /\ segmentEnd h w' r) ->
             exists r w',
               tryCatch body
                 (fun ex => KinesisSynchronousHandler.setGenState Completed ;;; throw ex) w1
               = (r, w') /\ crashed w' = crashed w /\ segmentEnd h w' r).
  { intros body w1 g1 Hit1 Hx1 (r & w' & E & Hx & (g' & Hg') & Hend).
    unfold tryCatch. rewrite E. destruct r as [[]|ex].
    - exists (Ok tt), w'. split; [reflexivity|]. split; [congruence|exact Hend].
    - do 2 eexists. split; [reflexivity|]. simpl. split; [congruence|].
      destruct Hend as [(Hr & _)|[(Hr & _)|(ex' & Hr & Hp' & Ha)]]; try discriminate.
      right. right. exists ex'. split; [exact Hr|]. split; [exact Hp'|].
      eapply accounted_field; [| |exact Ha]; [reflexivity|auto]. }
  destruct Hstate as [(Hst & Hb)|(Hst & Hb)]; rewrite Hst;
    unfold KinesisSynchronousHandler.genRun; unfold bind at 1;
    unfold KinesisSynchronousHandler.setGenState at 1; rewrite Hit.
  - eapply Hrun; [reflexivity|reflexivity|].
    eapply recordGenerator_segment; try exact Hd; try exact Hh; try reflexivity; assumption.
  - eapply Hrun; [reflexivity|reflexivity|].
    unfold bind at 1.
    destruct (truthy arg); unfold KinesisSynchronousHandler.pushBad, ret; cbn [it].
    + match goal with
      | |- context [KinesisSynchronousHandler.recordGenerator h ?rest ?i ?w1] =>
          destruct (recordGenerator_segment h Hh Hd rest i w1
                      (mkGen Executing (grecords g) (gi g) (badMessages g ++ [arg])))
            as (r & w' & E & Hx' & Hg & Hend); try reflexivity; try assumption
      end.
      exists r, w'. split; [exact E|]. split; [exact Hx'|]. split; [exact Hg|exact Hend].
    + match goal with
      | |- context [KinesisSynchronousHandler.recordGenerator h ?rest ?i ?w1] =>
          destruct (recordGenerator_segment h Hh Hd rest i w1
                      (mkGen Executing (grecords g) (gi g) (badMessages g)))
            as (r & w' & E & Hx' & Hg & Hend); try reflexivity; try assumption
      end.
      exists r, w'. split; [exact E|]. split; [exact Hx'|]. split; [exact Hg|exact Hend].
Qed.

(** From the end of a stretch to the state between two turns. *)
Lemma topLevel_segment (h : Handler) (m : M unit) (w1 w2 : World) (r : result unit) :
  m w1 = (r, w2) -> crashed w2 = None -> segmentEnd h w2 r ->
  (exists j, waiting j (topLevel m w1)) \/ stopped h (topLevel m w1).
Proof.
  intros E Hx Hend. unfold topLevel. rewrite E.
  destruct Hend as [(-> & j & Hpa & Hb & Hc & Ho)|[(-> & Hp & Hc)|(ex & -> & Hp & Ha)]].
  - left. exists j. split; [exact Hx|]. split; [exact Hpa|]. split; [exact Hb|].
    split; [exact Hc|exact Ho].
  - right. split; [exact Hp|]. now apply clean_accounted.
  - right. split; [exact Hp|].
    eapply accounted_field; [| |exact Ha]; [reflexivity|].
    intros x ->. now left.
Qed.

(** One later turn of the ordered driver. *)
Lemma runTask_ordered (h : Handler) (j p : nat) (t : Task) (w : World) :
  named h = true ->
  disciplined h ->
  waiting j w -> pending w !! p = Some t ->
  (exists j', waiting j' (KinesisSynchronousHandler.runTask h t (dequeue p w))) \/
  stopped h (KinesisSynchronousHandler.runTask h t (dequeue p w)).
Proof.
  intros Hh Hd (Hx & (g & Hit & Hst & Hgi) & Hb & Hc & Ho) Hp.
  assert (Hone : pending w = [t] /\ p = 0 /\ taskAt j t).
  { destruct Ho as [Hq|(t' & Hq & Ht)]; rewrite Hq in Hp.
    - now rewrite lookup_nil in Hp.
    - destruct p; simpl in Hp; [|now rewrite lookup_nil in Hp].
      injection Hp as <-. now repeat split. }
  destruct Hone as (Hq & -> & Ht).
  set (w1 := dequeue 0 w).
  assert (Hp1 : pending w1 = []) by (subst w1; simpl; now rewrite Hq).
  assert (Hb1 : below (S (gi g)) w1) by (rewrite Hgi; exact Hb).
  destruct t as [i ev err|arg|schema]; simpl in Ht; cbn [KinesisSynchronousHandler.runTask].
  - subst i. destruct (truthy err) eqn:Hterr.
    + eapply topLevel_segment; [apply completion_fatal; exact Hterr|exact Hx|].
      right. right. eexists. split; [reflexivity|]. split; [exact Hp1|].
      apply (fatal_accounted h j err
               [EvLog [JStr "Fatal error while processing. "; err]; EvComplete j err] w1);
        try reflexivity; try assumption; now intros k [].
    + destruct (completion_success h (KinesisSynchronousHandler.itNext h JUndefined)
                  j ev err w1 Hterr) as [(ex & E)|(line & E)].
      * eapply topLevel_segment; [exact E|exact Hx|].
        right. right. eexists. split; [reflexivity|]. split; [exact Hp1|].
        apply clean_accounted.
        apply (clean_extend [EvComplete j err] w1); try exact Hc; try reflexivity.
        intros k e [Hk|[]]. now injection Hk as _ <-.
      * assert (Hc2 : clean (addTrace [EvLog line; EvComplete j err] w1)).
        { apply (clean_extend [EvLog line; EvComplete j err] w1); try exact Hc; try reflexivity.
          intros k e [Hk|[]]. now injection Hk as _ <-. }
        assert (Hb2 : below (S (gi g)) (addTrace [EvLog line; EvComplete j err] w1)).
        { rewrite Hgi. apply (below_extend j [EvLog line; EvComplete j err] w1);
            try exact Hb; try reflexivity; try (now intros k []).
          intros k e [Hk|[]]. now injection Hk as <- _. }
        destruct (itNext_segment h JUndefined
                    (addTrace [EvLog line; EvComplete j err] w1) g Hh Hd Hit Hp1 Hc2)
          as (r & w2 & E2 & Hx2 & Hend); [right; now split|].
        eapply topLevel_segment; [rewrite E; exact E2|rewrite Hx2; exact Hx|exact Hend].
  - destruct arg as [arg|ex].
    2:{ eapply (topLevel_segment h _ w1 w1 (Throw ex)); [reflexivity|exact Hx|].
        right. right. eexists. split; [reflexivity|]. split; [exact Hp1|].
        now apply clean_accounted. }
    destruct (itNext_segment h arg w1 g Hh Hd Hit Hp1 Hc) as (r & w2 & E2 & Hx2 & Hend);
      [right; now split|].
    eapply topLevel_segment; [exact E2|rewrite Hx2; exact Hx|exact Hend].
  - match goal with
    | |- context [say h ?vs ?rest] => destruct (say_cases h vs rest w1) as [Esay|Esay]
    end.
    { eapply (topLevel_segment h _ w1 w1 (Throw unprintable));
        [unfold bind; now rewrite Esay|exact Hx|].
      right. right. eexists. split; [reflexivity|]. split; [exact Hp1|].
      now apply clean_accounted. }
    match type of Esay with
    | _ = (_, mkWorld (EvLog ?l :: _) _ _ _ _) => set (line := l) in *
    end.
    assert (Hc2 : clean (addTrace [EvLog line] w1)).
    { apply (clean_extend [EvLog line] w1); try exact Hc; try reflexivity. now intros k e []. }
    assert (Hb2 : below (S (gi g)) (addTrace [EvLog line] w1)).
    { rewrite Hgi. apply (below_extend j [EvLog line] w1); try exact Hb; try reflexivity;
        try (now intros k []); try (now intros k e []). }
    destruct (itNext_segment h JUndefined (addTrace [EvLog line] w1) g Hh Hd Hit Hp1 Hc2)
      as (r & w2 & E2 & Hx2 & Hend); [right; now split|].
    eapply topLevel_segment; [unfold bind; rewrite Esay; exact E2|rewrite Hx2; exact Hx|exact Hend].
Qed.

(** The call of [processKinesisEvent] of the ordered driver. *)
Lemma processKinesisEvent_ordered (h : Handler) (kinesisEvent : JSV) :
  disciplined h ->
  (exists j, waiting j (snd (KinesisSynchronousHandler.processKinesisEvent h kinesisEvent World0))) \/
  stopped h (snd (KinesisSynchronousHandler.processKinesisEvent h kinesisEvent World0)).
Proof.
  intros Hd. destruct (named h) eqn:Hh.
  2:{ rewrite (proj2 (processKinesisEvent_sync_unnamed h kinesisEvent Hh)).
      right. split; [reflexivity|]. now intros k e []. }
  unfold KinesisSynchronousHandler.processKinesisEvent, tryCatch.
  rewrite (tryBlock_sync_eq h kinesisEvent Hh).
  destruct (recordsOf kinesisEvent) as [records|].
  2:{ right. split; [reflexivity|]. now intros k e []. }
  set (g := mkGen SuspendedStart records 0 []).
  set (w0 := mkWorld [received h kinesisEvent] 0 [] None (Some g)).
  assert (Hc0 : clean w0) by now intros k e [].
  assert (Hb0 : below 0 w0) by (repeat split; [intros j []|intros j []|intros j e []]).
  destruct (itNext_segment h JUndefined w0 g Hh Hd eq_refl eq_refl Hc0)
    as (r & w2 & E & Hx & Hend); [left; now split|].
  pose proof (silent_itNext h JUndefined w0) as Hsil.
  rewrite E in *. cbn [snd] in Hsil.
  destruct Hend as [(-> & j & Hpa & Hb & Hc & Ho)|[(-> & Hp & Hc)|(ex & -> & Hp & Ha)]];
    cbn [snd].
  - left. exists j. split; [exact Hx|]. split; [exact Hpa|]. split; [exact Hb|].
    split; [exact Hc|exact Ho].
  - right. split; [exact Hp|]. now apply clean_accounted.
  - right. destruct (reportable h ex) eqn:Hrep.
    + rewrite (catchBlock_reports h ex w2 Hrep). split; [exact Hp|].
      eapply (accounted_extend h [EvCallback (Some ex); _] w2); try reflexivity; [|exact Ha].
      intros x ->. right. unfold callbacks in *. simpl. views. rewrite Hsil. reflexivity.
    + destruct (catchBlock_fails h ex w2 Hrep) as (e & Ecatch). rewrite Ecatch.
      split; [exact Hp|].
      intros k e' Hin Ht. destruct (Ha k e' Hin Ht) as (_ & Hx').
      rewrite <- Hx', fatalError_reportable in Hrep by exact Hh. discriminate.
Qed.

Lemma runSchedule_ordered (h : Handler) (picks : list nat) (w : World) :
  named h = true ->
  disciplined h ->
  (exists j, waiting j w) \/ stopped h w ->
  (exists j, waiting j (runSchedule (KinesisSynchronousHandler.runTask h) picks w)) \/
  stopped h (runSchedule (KinesisSynchronousHandler.runTask h) picks w).
Proof.
  intros Hh Hd. revert w.
  induction picks as [|p picks IH]; intros w Hinv; simpl; [exact Hinv|].
  destruct (crashed w); [exact Hinv|].
  destruct (pending w !! p) as [t|] eqn:Hp; [|now apply IH].
  destruct Hinv as [(j & Hw)|(Hq & _)].
  - apply IH. now apply (runTask_ordered h j p t w).
  - rewrite Hq, lookup_nil in Hp. discriminate.
Qed.

(** The ordered driver, whole runs with disciplined methods. *)
Lemma run_ordered (h : Handler) (kinesisEvent : JSV) (picks : list nat) :
  disciplined h ->
  (exists j, waiting j (KinesisSynchronousHandler.run h kinesisEvent picks)) \/
  stopped h (KinesisSynchronousHandler.run h kinesisEvent picks).
Proof.
  intros Hd. destruct (named h) eqn:Hh.
  - unfold KinesisSynchronousHandler.run. apply runSchedule_ordered; [exact Hh|exact Hd|].
    now apply processKinesisEvent_ordered.
  - rewrite (run_sync_unnamed h kinesisEvent picks Hh).
    right. split; [reflexivity|]. now intros k e [].
Qed.

(** C4: in the ordered driver with methods that call their completion at
    most once, whenever the completion of record [k] has been called with
    an error, nothing was or will be decoded and no method was or will be
    called for a record after [k]; the [Error] built from that value was
    raised and either reached the callback through the [catch] of the first
    turn or ended the run uncaught; the callback was never invoked with no
    argument, and no turn is left to run. *)
Theorem C4_fatal_completion_stops_the_batch
    (h : Handler) (kinesisEvent : JSV) (picks : list nat) (k : nat) (err : JSV) :
  disciplined h ->
  In (k, err) (completions (KinesisSynchronousHandler.run h kinesisEvent picks)) ->
  truthy err = true ->
  (forall j, In j (decoded (KinesisSynchronousHandler.run h kinesisEvent picks)) -> j <= k) /\
  (forall j, In j (invocations (KinesisSynchronousHandler.run h kinesisEvent picks)) -> j <= k) /\
  (crashed (KinesisSynchronousHandler.run h kinesisEvent picks) = Some (fatalError h err) \/
   callbacks (KinesisSynchronousHandler.run h kinesisEvent picks) = [Some (fatalError h err)]) /\
  ~ In None (callbacks (KinesisSynchronousHandler.run h kinesisEvent picks)) /\
  pending (KinesisSynchronousHandler.run h kinesisEvent picks) = [].
Proof.
  intros Hd Hin Ht.
  pose proof (ordered_callback_at_most_once h kinesisEvent picks) as (_ & _ & _ & Hnone).
  assert (Hinv : (exists j, waiting j (KinesisSynchronousHandler.run h kinesisEvent picks)) \/
                 stopped h (KinesisSynchronousHandler.run h kinesisEvent picks)).
  { now apply run_ordered. }
  destruct Hinv as [(j & _ & _ & _ & Hc & _)|(Hp & Ha)].
  - rewrite (Hc k err Hin) in Ht. discriminate.
  - destruct (Ha k err Hin Ht) as ((Hbd & Hbi & _) & Hraised).
    split; [intros j Hj; specialize (Hbd j Hj); lia|].
    split; [intros j Hj; specialize (Hbi j Hj); lia|].
    split; [exact Hraised|]. split; [exact Hnone|exact Hp].
Qed.

End OrderedOrder.

(** ** The callback, on both drivers *)

Section Callback.
Context `{V : Validator} `{R : Runtime}.



End Callback.

(** ** Runs of the sample installation *)

Section SampleRuns.
Import Sample.

Lemma sample_construct : construct envelopeSchema (JStr "catalog") None = Ok fresh.
Proof. reflexivity. Qed.

Lemma sample_installed (method : Method) :
  notBinaryMethod method = false -> installed method = Some (handlerWith method).
Proof.
  intros Hm. destruct method as [n body|v]; [|discriminate].
  destruct n as [|[|[|n]]]; try discriminate. reflexivity.
Qed.

Lemma sample_base64 :
  base64Decode "eyJzY2hlbWEiOiJjb20uYWNtZS9zdHJlYW0vMS0wLTAifQ==" = jsonText strangerEvent /\
  base64Decode "bnVsbA==" = "null" /\
  base64Decode "bm90IGpzb24=" = "not json".
Proof. repeat split; reflexivity. Qed.

(** A method that calls its completion within the call finds the generator
    running: the ordered driver ends the batch with the TypeError of the
    re-entrant [next]. *)
Lemma sample_completion_within_the_call :
  let w := KinesisSynchronousHandler.run (handlerWith now) (batchOf [product1; product3]) [0] in
  callbacks w = [Some (TypeError "Generator is already running")] /\
  invocations w = [0] /\ decoded w = [0] /\ pending w = [].
Proof. vm_compute. repeat split; reflexivity. Qed.

(** A handler map with one method of at most one action is disciplined. *)
Lemma disciplined_handlerWith (n : nat) (script : list HAction) :
  length script <= 1 -> disciplined (handlerWith (MFun n (fun _ => script))).
Proof.
  intros Hlen key n' body event Hlook. simpl in Hlook.
  apply lookup_insert_Some in Hlook as [(_ & Hm)|(_ & Hm)].
  - injection Hm as _ <-. exact Hlen.
  - rewrite lookup_empty in Hm. discriminate.
Qed.

(** Values in template literals.  An integer prints with all its digits up
    to twenty-one of them; beyond 2^53 it prints as the Number it is rounded
    to, and from 10^21 on in exponent form.  An array prints its elements
    separated by commas, an error its name and message; an object prints as
    [[object Object]] unless it has a [toString] of its own, which here is
    never a function, so that the conversion throws. *)
Lemma sample_conversions :
  toStr (JNum 42) = "42" /\ toStr (JNum (-7)) = "-7" /\
  toStr (JNum 9007199254740993) = "9007199254740992" /\
  toStr (JNum 123456789012345678901) = "123456789012345680000" /\
  toStr (JNum (10 ^ 21)) = "1e+21" /\
  toStr (JNum 1234567890123456789012345) = "1.2345678901234568e+24" /\
  toStr (JArr [JNum 1; JNull; JStr "a"; JArr [JBool true; JUndefined]]) = "1,,a,true," /\
  toStr (TypeError "x is not a function") = "TypeError: x is not a function" /\
  toString (JObj [("id", JNum 1)]) = Ok "[object Object]" /\
  toString (JObj [("toString", JNum 1)])
    = Throw (TypeError "Cannot convert object to primitive value") /\
  toString (JArr [JStr "a"; JObj [("toString", JNull)]])
    = Throw (TypeError "Cannot convert object to primitive value") /\
  stackText JNull = Throw (TypeError "Cannot read property 'stack' of null") /\
  stackText (JStr "late") = Ok "undefined".
Proof. vm_compute. repeat split; reflexivity. Qed.

(** A method that throws [null]: the [catch] block fails on the read
    [ex.stack], the TypeError of that read leaves [processKinesisEvent], and
    the callback is not invoked. *)
Lemma sample_thrown_null_is_not_reported :
  reportable (handlerWith throwsNull) JNull = false /\
  fst (KinesisHandler.tryBlock (handlerWith throwsNull) (batchOf [product1]) World0)
    = Throw JNull /\
  fst (KinesisHandler.processKinesisEvent (handlerWith throwsNull) (batchOf [product1]) World0)
    = Throw (TypeError "Cannot read property 'stack' of null") /\
  callbacks (KinesisHandler.run (handlerWith throwsNull) (batchOf [product1]) []) = [] /\
  fst (KinesisSynchronousHandler.processKinesisEvent (handlerWith throwsNull)
         (batchOf [product1]) World0)
    = Throw (TypeError "Cannot read property 'stack' of null") /\
  callbacks (KinesisSynchronousHandler.run (handlerWith throwsNull) (batchOf [product1]) []) = [].
Proof. vm_compute. repeat split; reflexivity. Qed.

(** An instance named by an object with a [toString] property that is not a
    function: the first template literal of [processKinesisEvent] throws,
    the one of the [catch] block throws again, and nothing is logged,
    decoded or called back. *)
Lemma sample_unconvertible_module_name :
  named (handlerWithOpaqueName later) = false /\
  KinesisHandler.processKinesisEvent (handlerWithOpaqueName later) (batchOf [product1]) World0
    = (Throw (TypeError "Cannot convert object to primitive value"), World0) /\
  KinesisSynchronousHandler.processKinesisEvent (handlerWithOpaqueName later)
      (batchOf [product1]) World0
    = (Throw (TypeError "Cannot convert object to primitive value"), World0).
Proof. vm_compute. repeat split; reflexivity. Qed.





(** C3: the ordered driver never invokes the callback with no argument,
    whatever the instance, the batch and the order of the turns.  On the
    five-record batch whose second and fourth records are bad messages
    (wrong envelope schema, undecodable payload) and whose method completes
    without error in a later turn, the batch is drained, the method is
    called for the first, third and fifth record in that order, the last line
    logged carries exactly the two descriptions, and the callback has not
    been invoked at all. *)
Theorem C3_ordered_driver_never_signals_success :
  (forall (V : Validator) (R : Runtime) (h : Handler) (kinesisEvent : JSV) (picks : list nat),
     ~ In None (callbacks (KinesisSynchronousHandler.run h kinesisEvent picks))) /\
  (let w := KinesisSynchronousHandler.run (handlerWith later)
              (batchOf [product1; stranger; product3; garbled; product5]) [0; 0; 0; 0] in
   invocations w = [0; 2; 4] /\
   decoded w = [0; 1; 2; 3; 4] /\
   last (logs w) =
     Some [JStr "Messages with invalid data: ";
           JArr [JStr (msgWrongSchema (handlerWith later) (JStr "com.acme/stream/1-0-0"));
                 JStr (msgDecode (JError "SyntaxError" "Unexpected token in JSON"))]] /\
   (exists g, it w = Some g /\ gstate g = Completed /\ length (badMessages g) = 2) /\
   pending w = [] /\ crashed w = None /\
   callbacks w = []).
Proof.
  split.
  - intros V R h kinesisEvent picks.
    apply (ordered_callback_at_most_once h kinesisEvent picks).
  - vm_compute. repeat split; try reflexivity.
    eexists. repeat split; reflexivity.
Qed.

(** C4 on the sample installation: the first record is a bad message, the
    method of the second reports an error in a later turn, and the third
    and fourth records are never touched. *)
Lemma C4_fatal_completion_stops_the_batch_witness :
  let w := KinesisSynchronousHandler.run (handlerWith failLater)
             (batchOf [stranger; product3; garbled; product5]) [0; 0] in
  (forall j, In j (decoded w) -> j <= 1) /\
  (forall j, In j (invocations w) -> j <= 1) /\
  (crashed w = Some (fatalError (handlerWith failLater) (JStr "boom")) \/
   callbacks w = [Some (fatalError (handlerWith failLater) (JStr "boom"))]) /\
  ~ In None (callbacks w) /\
  pending w = [].
Proof.
  apply (C4_fatal_completion_stops_the_batch (handlerWith failLater)
           (batchOf [stranger; product3; garbled; product5]) [0; 0] 1 (JStr "boom")).
  - apply (disciplined_handlerWith 2 [CompleteLater (JStr "boom")]). simpl. lia.
  - vm_compute. auto.
  - reflexivity.
Defined.

(** C5, counterexample: the value contains the marker, though not at its
    start, and the closure treats it as fatal. *)
Lemma C5_marker_inside_the_text_is_fatal :
  let err := JStr "upstream said: processEvent bad msg: try again" in
  indexOf (toStr err) badMsgPrefix <> (-1)%Z /\
  truthy err = true /\
  KinesisHandler.complete (handlerWith later) 1 0 err World0 =
    (Throw (newError "lib/kinesisHandler.js for catalog upstream said: processEvent bad msg: try again"),
     mkWorld [EvLog [err]; EvComplete 0 err] 0 [] None None).
Proof. vm_compute. repeat split; [discriminate|reflexivity..]. Qed.

(** C5 on the sample installation. *)
Lemma C5_marker_decides_fatality_witness :
  KinesisHandler.complete (handlerWith later) 1 0 (JStr "boom") World0 =
    (Throw (newError "lib/kinesisHandler.js for catalog boom"),
     mkWorld [EvLog [JStr "boom"]; EvComplete 0 (JStr "boom")] 0 [] None None).
Proof.
  destruct (C5_marker_decides_fatality (handlerWith later) 1 0 (JStr "boom") World0 eq_refl)
    as (_ & Hfatal & _).
  apply Hfatal. reflexivity.
Defined.

(** C6, counterexample: a batch whose first record is [null] lacks the
    payload field, yet the read [record.kinesis] throws and both drivers
    pass the TypeError to the callback, with no completion at all; and a
    payload that is not well-formed base64 is decoded all the same (the
    stray character is skipped), so its method is called. *)
Lemma C6_a_null_record_fails_the_batch :
  (let w := KinesisHandler.run (handlerWith later) (batchOf [JNull; product1]) [] in
   callbacks w = [Some (TypeError "Cannot read property 'kinesis' of null")] /\
   completions w = [] /\ decoded w = [] /\ pending w = []) /\
  (let w := KinesisSynchronousHandler.run (handlerWith later) (batchOf [JNull; product1]) [] in
   callbacks w = [Some (TypeError "Cannot read property 'kinesis' of null")] /\
   completions w = [] /\ decoded w = [] /\ pending w = [] /\
   exists g, it w = Some g /\ badMessages g = []) /\
  (let w := KinesisHandler.run (handlerWith later) (batchOf [smudged]) [0] in
   recordOutcome (handlerWith later) smudged = Dispatched productId later (productEvent 1) /\
   invocations w = [0] /\ completions w = [(0, JUndefined)] /\ callbacks w = [None]).
Proof.
  vm_compute. repeat split; try reflexivity. eexists. split; reflexivity.
Qed.

(** C6 on the sample installation: a record without [kinesis], and a
    record whose payload is not JSON. *)
Lemma C6_decode_failure_is_a_bad_message_witness :
  recordOutcome (handlerWith later) bare = RejectedDecodeFailure msgMissing /\
  recordOutcome (handlerWith later) garbled
    = RejectedDecodeFailure (msgDecode (JError "SyntaxError" "Unexpected token in JSON")) /\
  exists trc,
    KinesisHandler.processRecord (handlerWith later) 2 0 garbled World0 =
      (Ok tt, mkWorld (trc ++ []) 1 [] None None) /\
    callbacksOf trc = [].
Proof.
  split; [reflexivity|]. split; [reflexivity|].
  destruct (C6_decode_failure_is_a_bad_message (handlerWith later) 2 0 garbled [product1]
              (JStr "bm90IGpzb24=") World0)
    as (msg & trc & tro & _ & _ & _ & Hc & _ & _ & Hcb & _).
  - reflexivity.
  - reflexivity.
  - right. exists (JError "SyntaxError" "Unexpected token in JSON"),
             "SyntaxError: Unexpected token in JSON".
    repeat split; reflexivity.
  - exists trc. split; [exact Hc|exact Hcb].
Defined.

(** C7, counterexample: the event passes the envelope checks and its
    [data.schema], an object with a [toString] property that is not a
    function, is no key of the handler map.  The concurrent dispatcher
    throws while it builds its log line, before it calls the completion: the
    batch ends in [callback(TypeError)] without a completion.  The timer of
    the ordered dispatcher throws the same way when it fires: the process
    ends, and the generator is never resumed for the next record. *)
Lemma C7_unprintable_schema_is_raised :
  registered (handlerWith later) (JObj [("toString", JNum 1)]) = None /\
  KinesisHandler.processEvent (handlerWith later) 0 opaqueEvent
    (KinesisHandler.complete (handlerWith later) 1 0) World0 = (Throw unprintable, World0) /\
  (let w := KinesisHandler.run (handlerWith later) (batchOf [opaque]) [] in
   callbacks w = [Some unprintable] /\ completions w = [] /\ invocations w = []) /\
  (let w := KinesisSynchronousHandler.run (handlerWith later) (batchOf [opaque; product1]) [0] in
   crashed w = Some unprintable /\ completions w = [] /\ invocations w = [] /\
   decoded w = [0] /\ callbacks w = [] /\ pending w = []).
Proof. vm_compute. repeat split; reflexivity. Qed.

(** C7 on the sample installation: an event of a payload schema nobody
    registered. *)
Lemma C7_unsupported_schema_completes_without_error_witness :
  dispatchOutcome (handlerWith later) otherEvent
    = RejectedUnsupportedSchema (JStr "com.nordstrom/other/1-0-0") /\
  KinesisHandler.processEvent (handlerWith later) 0 otherEvent
    (KinesisHandler.complete (handlerWith later) 1 0) World0 =
    KinesisHandler.complete (handlerWith later) 1 0 JUndefined
      (addTrace [unsupportedLog (handlerWith later) (JStr "com.nordstrom/other/1-0-0")] World0) /\
  KinesisSynchronousHandler.processEvent (handlerWith later) 0 otherEvent World0 =
    (Ok tt, mkWorld [] 0 [TTimeoutSkip (JStr "com.nordstrom/other/1-0-0")] None None).
Proof.
  destruct (C7_unsupported_schema_completes_without_error (handlerWith later) 1 0 otherEvent
              (JStr envelopeId) (JObj [("schema", JStr "com.nordstrom/other/1-0-0")])
              (JStr "com.nordstrom/other/1-0-0")
              (KinesisHandler.complete (handlerWith later) 1 0) World0)
    as (H1 & H2 & _ & H3 & _); try reflexivity.
  exact (conj H1 (conj H2 H3)).
Defined.

(** C9 on the sample installation: an event that is just its envelope. *)
Lemma C9_missing_data_raises_TypeError_witness :
  dispatchOutcome (handlerWith later) noDataEvent
    = Raised (TypeError "Cannot read property 'schema' of undefined") /\
  KinesisHandler.processEvent (handlerWith later) 0 noDataEvent
    (KinesisHandler.complete (handlerWith later) 1 0) World0 =
    (Throw (TypeError "Cannot read property 'schema' of undefined"), World0) /\
  KinesisSynchronousHandler.processEvent (handlerWith later) 0 noDataEvent World0 =
    (Throw (TypeError "Cannot read property 'schema' of undefined"), World0).
Proof.
  apply (C9_missing_data_raises_TypeError (handlerWith later) 0 noDataEvent
           (JStr envelopeId) (KinesisHandler.complete (handlerWith later) 1 0) World0);
    reflexivity.
Defined.

End SampleRuns.

(** ** Schema identities *)

Section Identity.

Lemma noSlash_split (a b x y : string) :
  noSlash a = true -> noSlash b = true ->
  a +:+ "/" +:+ x = b +:+ "/" +:+ y -> a = b /\ x = y.
Proof.
  revert b. induction a as [|c a IH]; intros [|d b] Ha Hb E;
    rewrite ?append_cons, ?append_empty in E.
  - injection E as ->. now split.
  - injection E as <- _. simpl in Hb. discriminate.
  - injection E as -> _. simpl in Ha. discriminate.
  - injection E as -> E. simpl in Ha, Hb.
    apply andb_true_iff in Ha as [_ Ha]. apply andb_true_iff in Hb as [_ Hb].
    destruct (IH b Ha Hb E) as [-> ->]. now split.
Qed.

Lemma makeSchemaId_describes (schema : JSV) (vendor name version : string) :
  describes schema vendor name version ->
  makeSchemaId schema = Ok (vendor +:+ "/" +:+ name +:+ "/" +:+ version).
Proof.
  intros (self & Es & Ev & En & Er). unfold makeSchemaId.
  now rewrite Es, Ev, En, Er.
Qed.

Lemma getProp_throws (v : JSV) (k : string) (ex : JSV) :
  getProp v k = Throw ex ->
  nullish v = true /\ ex = TypeError ("Cannot read property '" +:+ k +:+ "' of " +:+ toStr v).
Proof.
  destruct v; simpl; try discriminate; repeat case_match; try discriminate.
  - intros E. injection E as <-. now split.
  - intros E. injection E as <-. now split.
Qed.

Lemma getProp_reads (v : JSV) (k : string) :
  nullish v = false -> exists x, getProp v k = Ok x.
Proof.
  destruct v; try discriminate; intros _; simpl; repeat case_match; eexists; reflexivity.
Qed.

(** X1: [makeSchemaId] throws in three cases: [schema] is undefined or
    null, or [schema.self] is, and what is thrown is the TypeError of the
    property read; or one of the three fields cannot be converted to a
    string, and what is thrown is the TypeError of the conversion.  In every
    other case it returns the three texts joined by slashes, whatever else
    the schema holds; a field that is missing reads as undefined and takes
    part as such. *)
Theorem makeSchemaId_throws_iff (schema : JSV) :
  match makeSchemaId schema with
  | Throw ex =>
      (nullish schema = true /\
       ex = TypeError ("Cannot read property 'self' of " +:+ toStr schema)) \/
      (exists self, getProp schema "self" = Ok self /\ nullish self = true /\
                    ex = TypeError ("Cannot read property 'vendor' of " +:+ toStr self)) \/
      (exists self vendor name version,
         getProp schema "self" = Ok self /\
         getProp self "vendor" = Ok vendor /\ getProp self "name" = Ok name /\
         getProp self "version" = Ok version /\
         convertible vendor && convertible name && convertible version = false /\
         ex = TypeError "Cannot convert object to primitive value")
  | Ok id =>
      nullish schema = false /\
      exists self vendor name version,
        getProp schema "self" = Ok self /\ nullish self = false /\
        getProp self "vendor" = Ok vendor /\ getProp self "name" = Ok name /\
        getProp self "version" = Ok version /\
        convertible vendor && convertible name && convertible version = true /\
        id = toStr vendor +:+ "/" +:+ toStr name +:+ "/" +:+ toStr version
  end.
Proof.
  unfold makeSchemaId.
  destruct (getProp schema "self") as [self|ex] eqn:Es.
  - assert (Hs : nullish schema = false).
    { destruct (nullish schema) eqn:Hs; [|reflexivity].
      destruct schema; discriminate. }
    destruct (getProp self "vendor") as [vendor|ex] eqn:Ev.
    + assert (Hn : nullish self = false).
      { destruct (nullish self) eqn:Hn; [|reflexivity]. destruct self; discriminate. }
      destruct (getProp_reads self "name" Hn) as (name & En).
      destruct (getProp_reads self "version" Hn) as (version & Er).
      rewrite En, Er. unfold interpolated. simpl forallb. rewrite andb_true_r, andb_assoc.
      destruct (convertible vendor && convertible name && convertible version) eqn:Hc.
      * split; [exact Hs|]. exists self, vendor, name, version. repeat split; assumption.
      * right. right. exists self, vendor, name, version. repeat split; assumption.
    + right. left. exists self. split; [reflexivity|].
      apply (getProp_throws self "vendor" ex Ev).
  - left. apply (getProp_throws schema "self" ex Es).
Qed.

(** X2: Two schemas whose vendor and name are texts without a slash get
    the same identity only if they agree on vendor and name and their
    versions, whatever kind of value they are, convert to the same text. *)
Theorem makeSchemaId_injective_without_slash
    (schema schema' : JSV) (vendor name vendor' name' : string) (version version' : JSV)
    (id : string) :
  identifies schema vendor name version ->
  identifies schema' vendor' name' version' ->
  noSlash vendor = true -> noSlash name = true ->
  noSlash vendor' = true -> noSlash name' = true ->
  makeSchemaId schema = Ok id -> makeSchemaId schema' = Ok id ->
  vendor = vendor' /\ name = name' /\ toStr version = toStr version'.
Proof.
  intros (self & Es & Ev & En & Er) (self' & Es' & Ev' & En' & Er') Hv Hn Hv' Hn' E E'.
  unfold makeSchemaId, interpolated in E, E'.
  rewrite Es, Ev, En, Er in E. rewrite Es', Ev', En', Er' in E'.
  destruct (forallb convertible [JStr vendor; JStr name; version]); [|discriminate].
  destruct (forallb convertible [JStr vendor'; JStr name'; version']); [|discriminate].
  injection E as <-. injection E' as E'. simpl toStr in E'.
  destruct (noSlash_split _ _ _ _ Hv' Hv E') as [-> E''].
  destruct (noSlash_split _ _ _ _ Hn' Hn E'') as [-> ->].
  now repeat split.
Qed.

(** X3: A slash inside the vendor or the name is not told from a separator: a
    schema of vendor [a/b] and name [c] has the identity of a schema of
    vendor [a] and name [b/c]. *)
Theorem makeSchemaId_slash_collision (schema schema' : JSV) (a b c version : string) :
  describes schema (a +:+ "/" +:+ b) c version ->
  describes schema' a (b +:+ "/" +:+ c) version ->
  makeSchemaId schema = makeSchemaId schema'.
Proof.
  intros Hd Hd'.
  rewrite (makeSchemaId_describes _ _ _ _ Hd), (makeSchemaId_describes _ _ _ _ Hd').
  now rewrite !append_assoc.
Qed.

End Identity.

(** ** Construction and registration *)

Section Construction.
Context `{V : Validator} `{R : Runtime}.

Lemma usable_spec (t : option Transformer) :
  transformerSupplied t && match t with Some f => notBinaryTransformer f | None => false end
    = false <-> usable t.
Proof.
  destruct t as [[n body|v]|]; simpl.
  - rewrite negb_false_iff, Nat.eqb_eq. reflexivity.
  - rewrite andb_true_r. reflexivity.
  - tauto.
Qed.

(** The test [moduleName !== ''] adds nothing to the truthiness test. *)
Lemma moduleName_default (moduleName : JSV) :
  (if truthy moduleName && negb (strictEqStr moduleName EmptyString)
   then moduleName else JStr "unnamed module")
  = (if truthy moduleName then moduleName else JStr "unnamed module").
Proof.
  destruct moduleName as [| |b|z|s| | |]; try reflexivity.
  - simpl. now destruct b.
  - simpl. now destruct (z =? 0)%Z.
  - simpl. now destruct (String.eqb s EmptyString).
Qed.

Lemma construct_inv (eventSchema moduleName : JSV) (transformer : option Transformer)
    (h : Handler) :
  construct eventSchema moduleName transformer = Ok h ->
  truthy eventSchema = true /\ usable transformer /\
  exists id a,
    makeSchemaId eventSchema = Ok id /\
    ajv_addSchema ajv_new eventSchema id = Ok a /\
    h = mkHandler id (if truthy moduleName then moduleName else JStr "unnamed module")
                  transformer ∅ a.
Proof.
  unfold construct. rewrite moduleName_default.
  destruct (truthy eventSchema); simpl; [|discriminate].
  destruct (transformerSupplied transformer
            && match transformer with Some f => notBinaryTransformer f | None => false end)
    eqn:Ht; [discriminate|].
  apply usable_spec in Ht.
  destruct (makeSchemaId eventSchema) as [id|ex]; [|discriminate].
  destruct (ajv_addSchema ajv_new eventSchema id) as [a|ex] eqn:Ea; [|discriminate].
  intros E. injection E as <-. split; [reflexivity|]. split; [exact Ht|].
  exists id, a. now repeat split.
Qed.

(** X4: The constructors return an instance exactly when the schema is truthy,
    the transformer is absent, falsy or a function of two parameters, the
    identity of the schema can be derived and the validator accepts the
    schema under it.  The instance then has that identity, an empty method
    table, the transformer as given, the validator holding the schema, and
    as its name the module name if that is truthy and 'unnamed module'
    otherwise. *)
Theorem construct_ok_iff (eventSchema moduleName : JSV) (transformer : option Transformer)
    (h : Handler) :
  construct eventSchema moduleName transformer = Ok h <->
  truthy eventSchema = true /\ usable transformer /\
  exists id a,
    makeSchemaId eventSchema = Ok id /\
    ajv_addSchema ajv_new eventSchema id = Ok a /\
    h = mkHandler id (if truthy moduleName then moduleName else JStr "unnamed module")
                  transformer ∅ a.
Proof.
  split; [apply construct_inv|].
  intros (Ht & Hu & id & a & E & E' & ->).
  unfold construct. rewrite moduleName_default, Ht. simpl.
  apply usable_spec in Hu. now rewrite Hu, E, E'.
Qed.

(** X5: When [registerSchemaMethodPair] returns normally, the identity of the
    schema was derived, the validator took the schema under it and the
    method is a function of two parameters.  Afterwards the method is the
    one found under that identity, whatever was stored there before; every
    other identity keeps what it had; the envelope identity, the name and
    the transformer are as they were. *)
Theorem registration_round_trip (h h' : Handler) (schema : JSV) (method : Method) :
  registerSchemaMethodPair h schema method = (Ok tt, h') ->
  exists id body,
    makeSchemaId schema = Ok id /\ method = MFun 2 body /\
    ajv_addSchema (ajv h) schema id = Ok (ajv h') /\
    registered h' (JStr id) = Some (id, method) /\
    (forall key, key <> id -> schemaMethodPairs h' !! key = schemaMethodPairs h !! key) /\
    eventSchemaId h' = eventSchemaId h /\ module h' = module h /\
    transfomer h' = transfomer h.
Proof.
  unfold registerSchemaMethodPair.
  destruct (makeSchemaId schema) as [id|ex]; [|discriminate].
  destruct (ajv_addSchema (ajv h) schema id) as [a|ex] eqn:Ea; [|discriminate].
  destruct method as [n body|v]; simpl; [|discriminate].
  destruct (n =? 2) eqn:En; simpl; [|discriminate].
  apply Nat.eqb_eq in En as ->.
  intros E. injection E as <-. exists id, body. simpl.
  repeat split; try reflexivity.
  - exact Ea.
  - unfold registered. simpl. now rewrite lookup_insert_eq.
  - intros key Hk. rewrite lookup_insert_ne by congruence. reflexivity.
Qed.

Lemma registerSchemaMethodPair_keeps (h : Handler) (schema : JSV) (method : Method) :
  binaryMethods h ->
  binaryMethods (snd (registerSchemaMethodPair h schema method)) /\
  transfomer (snd (registerSchemaMethodPair h schema method)) = transfomer h /\
  eventSchemaId (snd (registerSchemaMethodPair h schema method)) = eventSchemaId h /\
  module (snd (registerSchemaMethodPair h schema method)) = module h.
Proof.
  intros Hb. unfold registerSchemaMethodPair.
  destruct (makeSchemaId schema) as [id|ex]; [|now repeat split].
  destruct (ajv_addSchema (ajv h) schema id) as [a|ex]; [|now repeat split].
  destruct method as [n body|v]; simpl; [|now repeat split].
  destruct (n =? 2) eqn:En; simpl; [|now repeat split].
  apply Nat.eqb_eq in En as ->.
  repeat split. intros key m. simpl.
  destruct (decide (key = id)) as [->|Hne].
  - rewrite lookup_insert_eq. intros E. injection E as <-. now exists body.
  - rewrite lookup_insert_ne by congruence. apply Hb.
Qed.

Lemma afterCalls_keeps (h : Handler) (calls : list (JSV * Method)) :
  binaryMethods h ->
  binaryMethods (afterCalls h calls) /\
  transfomer (afterCalls h calls) = transfomer h /\
  eventSchemaId (afterCalls h calls) = eventSchemaId h /\
  module (afterCalls h calls) = module h.
Proof.
  revert h. induction calls as [|[schema method] calls IH]; intros h Hb; [now repeat split|].
  destruct (registerSchemaMethodPair_keeps h schema method Hb) as (Hb1 & Ht & He & Hm).
  destruct (IH _ Hb1) as (Hb2 & Ht2 & He2 & Hm2).
  unfold afterCalls in *. simpl. rewrite Ht2, He2, Hm2. now repeat split.
Qed.

(** X6: Whatever is registered on a constructed instance, and whether the
    calls return or throw: every stored method is a function of two
    parameters and the transformer is absent, falsy or a function of two
    parameters.  So the dispatchers never reach a stored value that is not
    callable, and applying the transformer never fails for want of a
    function. *)
Theorem registrations_keep_the_instance_callable
    (eventSchema moduleName : JSV) (transformer : option Transformer) (h : Handler)
    (calls : list (JSV * Method)) :
  construct eventSchema moduleName transformer = Ok h ->
  binaryMethods (afterCalls h calls) /\
  (forall event key m ev,
     dispatchOutcome (afterCalls h calls) event = Dispatched key m ev ->
     exists body, m = MFun 2 body) /\
  (forall parsed record,
     transform (afterCalls h calls) parsed record =
     match transformer with
     | Some (TFun _ body) => body parsed record
     | _ => Ok parsed
     end).
Proof.
  intros Hc. apply construct_inv in Hc as (_ & Hu & id & a & _ & _ & ->).
  set (h0 := mkHandler _ _ _ _ _).
  assert (Hb0 : binaryMethods h0).
  { intros key m. unfold h0. simpl. now rewrite lookup_empty. }
  destruct (afterCalls_keeps h0 calls Hb0) as (Hb & Ht & _ & _).
  split; [exact Hb|]. split.
  - intros event key m ev E. apply dispatchOutcome_registered in E as [E _].
    now apply (Hb key).
  - intros parsed record. unfold transform. rewrite Ht. unfold h0. simpl.
    destruct transformer as [[n body|v]|]; try reflexivity.
    simpl in Hu. now rewrite Hu.
Qed.

End Construction.

(** ** Which method is called, and with what *)

Lemma callsOf_cons (e : Event) (tr : list Event) :
  callsOf (e :: tr) =
  callsOf tr ++ match e with EvInvoke i key event => [(i, key, event)] | _ => [] end.
Proof. unfold callsOf. destruct e; simpl; now rewrite ?app_nil_r. Qed.

Lemma callsOf_app (tr1 tr2 : list Event) :
  callsOf (tr1 ++ tr2) = callsOf tr2 ++ callsOf tr1.
Proof. unfold callsOf. now rewrite omap_app, rev_app_distr. Qed.

Lemma invocationsOf_callsOf (tr : list Event) :
  invocationsOf tr = map (fun c => fst (fst c)) (callsOf tr).
Proof.
  unfold invocationsOf, callsOf. rewrite map_rev. f_equal.
  induction tr as [|e tr IH]; [reflexivity|].
  destruct e; simpl; try exact IH. f_equal. exact IH.
Qed.

Lemma callsOf_quiet (tr : list Event) : invocationsOf tr = [] -> callsOf tr = [].
Proof.
  rewrite invocationsOf_callsOf. destruct (callsOf tr); [reflexivity|discriminate].
Qed.

Lemma calls_addTrace (tr : list Event) (w : World) :
  calls (addTrace tr w) = calls w ++ callsOf tr.
Proof. unfold calls, addTrace. simpl. apply callsOf_app. Qed.

Lemma invocations_calls (w : World) :
  invocations w = map (fun c => fst (fst c)) (calls w).
Proof. apply invocationsOf_callsOf. Qed.

Section Routing.
Context `{V : Validator} `{R : Runtime}.

Lemma dispatched_iff (h : Handler) (event : JSV) (key : string) (m : Method) (ev : JSV) :
  dispatchOutcome h event = Dispatched key m ev <-> routed h event key m /\ ev = event.
Proof.
  unfold dispatchOutcome, routed. split.
  - intros E.
    destruct (truthy event) eqn:Hev; simpl in E; [|discriminate].
    destruct (getProp event "schema") as [schema|ex] eqn:Es; [|discriminate].
    destruct (truthy schema) eqn:Hs; simpl in E; [|discriminate].
    destruct (strictEqStr schema (eventSchemaId h)) eqn:Hq; simpl in E;
      [|destruct (convertible schema); discriminate].
    destruct (ajv_validate (ajv h) (eventSchemaId h) event) as [[|]|ex] eqn:Hv;
      try discriminate.
    destruct (getProp event "data") as [data|ex] eqn:Ed; [|discriminate].
    destruct (getProp data "schema") as [dataSchema|ex] eqn:Eds; [|discriminate].
    destruct (registered h dataSchema) as [[key' m']|] eqn:Hr;
      [|destruct (convertible dataSchema); discriminate].
    destruct (ajv_validate (ajv h) key' data) as [[|]|ex] eqn:Hvd; try discriminate.
    injection E as -> -> <-.
    unfold registered in Hr. destruct dataSchema as [| | | |s| | |]; try discriminate.
    destruct (schemaMethodPairs h !! s) as [m0|] eqn:Hl; [|discriminate].
    injection Hr as -> ->.
    split; [|reflexivity]. split; [reflexivity|].
    exists schema, data. repeat split; assumption.
  - intros [(Hev & schema & data & Es & Hs & Hq & Hv & Ed & Eds & Hl & Hvd) ->].
    rewrite Hev, Es, Hs, Hq, Hv, Ed, Eds. simpl.
    unfold registered. now rewrite Hl, Hvd.
Qed.

Lemma runScript_calls (complete : JSV -> M unit) (i : nat) (event : JSV)
    (script : list HAction) (w : World) :
  (forall err w, calls (snd (complete err w)) = calls w) ->
  calls (snd (runScript complete i event script w)) = calls w.
Proof.
  intros Hc. revert w. induction script as [|[err|err|ex] script IH]; intros w; simpl;
    try reflexivity.
  - unfold bind. specialize (Hc err w).
    destruct (complete err w) as [[[]|ex] w1]; simpl in *; [|exact Hc].
    now rewrite IH.
  - unfold bind, defer. simpl. now rewrite IH.
Qed.

(** The closure [complete] on an instance whose module name cannot be
    converted: a falsy value is counted, and the line that announces the
    end of the batch throws. *)
Lemma complete_unnamed (h : Handler) (N i : nat) (err : JSV) (w : World) :
  named h = false -> truthy err = false ->
  KinesisHandler.complete h N i err w =
    (if (S (successes w) =? N)%nat then Throw unprintable else Ok tt,
     mkWorld (EvComplete i err :: trace w) (S (successes w)) (pending w) (crashed w) (it w)).
Proof.
  intros Hh Ht. pose proof (Nat.add_1_r (successes w)) as E.
  remember (S (successes w) =? N)%nat as b eqn:Hb.
  unfold KinesisHandler.complete, say, interpolated, named in *. run_monad.
  rewrite Ht, Hh. simpl. rewrite E, <- Hb.
  now destruct b.
Qed.

Lemma complete_calls (h : Handler) (N i : nat) (err : JSV) (w : World) :
  calls (snd (KinesisHandler.complete h N i err w)) = calls w.
Proof.
  destruct (nonFatal h err) eqn:Hn.
  - destruct (named h) eqn:Hh.
    + destruct (complete_counted h N i err w Hh Hn) as (tr & E & _ & Hi & _).
      rewrite E. unfold calls. simpl. rewrite callsOf_app, (callsOf_quiet tr Hi).
      apply app_nil_r.
    + unfold nonFatal in Hn. rewrite Hh in Hn. simpl in Hn. rewrite orb_false_r in Hn.
      apply negb_true_iff in Hn. now rewrite (complete_unnamed h N i err w Hh Hn).
  - now rewrite (complete_fatal h N i err w Hn).
Qed.

Lemma completion_calls (h : Handler) (i : nat) (event err : JSV) (w : World) :
  calls (snd (KinesisSynchronousHandler.completion h
                KinesisSynchronousHandler.reentrantNext i event err w)) = calls w.
Proof.
  destruct (truthy err) eqn:Ht.
  - now rewrite (completion_fatal h _ i event err w Ht).
  - destruct (completion_success h KinesisSynchronousHandler.reentrantNext i event err w Ht)
      as [(ex & ->)|(line & ->)]; [reflexivity|].
    destruct (reentrantNext_pure (addTrace [EvLog line; EvComplete i err] w)) as (r & ->).
    reflexivity.
Qed.

Lemma callMethod_calls (m : Method) (i : nat) (key : string) (event : JSV)
    (complete : JSV -> M unit) (w : World) :
  (forall err w, calls (snd (complete err w)) = calls w) ->
  calls (snd (callMethod m i key event complete w)) =
  calls w ++ match m with MFun _ _ => [(i, key, event)] | MOther _ => [] end.
Proof.
  intros Hc. destruct m as [n body|v]; simpl.
  - unfold bind, emit. simpl. rewrite (runScript_calls _ _ _ _ _ Hc).
    unfold calls. simpl. apply callsOf_cons.
  - now rewrite app_nil_r.
Qed.

(** What one call of a dispatcher adds to the method calls. *)
Lemma processEvent_calls (h : Handler) (N i : nat) (event : JSV) (w : World) :
  calls (snd (KinesisHandler.processEvent h i event (KinesisHandler.complete h N i) w)) =
  calls w ++ match dispatchOutcome h event with
             | Dispatched key (MFun _ _) ev => [(i, key, ev)]
             | _ => []
             end.
Proof.
  rewrite processEvent_outcome.
  destruct (dispatchOutcome h event) as [key m ev|msg|msg|msg|schema| |ex|timer];
    try match goal with
        | |- context [if named h then _ else _] => destruct (named h)
        end;
    rewrite ?complete_calls, ?app_nil_r; try reflexivity.
  rewrite callMethod_calls by apply complete_calls. now destruct m.
Qed.

Lemma processEvent_sync_calls (h : Handler) (i : nat) (event : JSV) (w : World) :
  calls (snd (KinesisSynchronousHandler.processEvent h i event w)) =
  calls w ++ match dispatchOutcome h event with
             | Dispatched key (MFun _ _) ev => [(i, key, ev)]
             | _ => []
             end.
Proof.
  rewrite processEvent_sync_outcome.
  destruct (dispatchOutcome h event) as [key m ev|msg|msg|msg|schema| |ex|timer];
    rewrite ?app_nil_r; try reflexivity.
  rewrite callMethod_calls by (intros; apply completion_calls). now destruct m.
Qed.

(** X7: Both dispatchers call a registered function exactly when the event is
    truthy, its [schema] is the envelope identity, it validates against the
    envelope schema, its [data.schema] is a registered identity and its
    [data] validates against that schema.  The call is then made once, on
    the function stored under [data.schema], with the event itself; in
    every other case no method is called. *)
Theorem a_method_is_called_exactly_when_routed
    (h : Handler) (N i : nat) (event : JSV) (w : World) :
  (forall key n body,
     routed h event key (MFun n body) ->
     calls (snd (KinesisHandler.processEvent h i event (KinesisHandler.complete h N i) w))
       = calls w ++ [(i, key, event)] /\
     calls (snd (KinesisSynchronousHandler.processEvent h i event w))
       = calls w ++ [(i, key, event)]) /\
  ((forall key n body, ~ routed h event key (MFun n body)) ->
     calls (snd (KinesisHandler.processEvent h i event (KinesisHandler.complete h N i) w))
       = calls w /\
     calls (snd (KinesisSynchronousHandler.processEvent h i event w)) = calls w).
Proof.
  rewrite processEvent_calls, processEvent_sync_calls. split.
  - intros key n body Hr.
    assert (E : dispatchOutcome h event = Dispatched key (MFun n body) event)
      by now apply dispatched_iff.
    rewrite E. now split.
  - intros Hno.
    destruct (dispatchOutcome h event) as [key m ev|msg|msg|msg|schema| |ex|timer] eqn:E;
      rewrite ?app_nil_r; try now split.
    destruct m as [n body|v]; [|rewrite app_nil_r; now split].
    apply dispatched_iff in E as [Hr _]. now destruct (Hno key n body).
Qed.

Lemma unconvertible_truthy (v : JSV) : convertible v = false -> truthy v = true.
Proof. destruct v; try discriminate; reflexivity. Qed.

(** X8: An event whose [schema] is not the envelope identity is rejected in
    both drivers, before the validator is consulted and therefore whatever
    the validator would say or throw.  When the [schema] converts to a
    string (and the module name does), the event is a bad message: the
    concurrent dispatcher completes the record with the description, which
    is counted and calls no method; the ordered dispatcher sets one timer
    that will resume the generator with the description.  When the [schema]
    does not convert, the description cannot be built: the concurrent
    dispatcher throws the TypeError on the spot, with no completion; the
    ordered dispatcher sets its timer all the same, and the timer throws
    when it fires, which ends the process with the generator still paused. *)
Theorem envelope_mismatch_is_a_bad_message
    (h : Handler) (N i : nat) (event schema : JSV) (w : World) :
  truthy event = true ->
  getProp event "schema" = Ok schema ->
  strictEqStr schema (eventSchemaId h) = false ->
  (named h = true -> convertible schema = true ->
   exists msg,
     msg = (if truthy schema then msgWrongSchema h schema else msgNoSchema) /\
     (exists w',
        KinesisHandler.processEvent h i event (KinesisHandler.complete h N i) w = (Ok tt, w') /\
        counted N i (JStr msg) w w' /\ calls w' = calls w) /\
     KinesisSynchronousHandler.processEvent h i event w =
       (Ok tt, mkWorld (trace w) (successes w) (pending w ++ [TTimeoutNext (Ok (JStr msg))])
                       (crashed w) (it w))) /\
  (convertible schema = false ->
   KinesisHandler.processEvent h i event (KinesisHandler.complete h N i) w
     = (Throw (TypeError "Cannot convert object to primitive value"), w) /\
   KinesisSynchronousHandler.processEvent h i event w =
     (Ok tt, mkWorld (trace w) (successes w)
                     (pending w ++ [TTimeoutNext
                                      (Throw (TypeError "Cannot convert object to primitive value"))])
                     (crashed w) (it w)) /\
   forall w',
     KinesisSynchronousHandler.runTask h
       (TTimeoutNext (Throw (TypeError "Cannot convert object to primitive value"))) w' =
     mkWorld (trace w') (successes w') (pending w')
             (Some (TypeError "Cannot convert object to primitive value")) (it w')).
Proof.
  intros Hev Es Hq. split.
  - intros Hh Hconv. eexists. split; [reflexivity|].
    assert (Eo : dispatchOutcome h event =
                 RejectedBadEnvelope (if truthy schema then msgWrongSchema h schema
                                      else msgNoSchema)).
    { unfold dispatchOutcome. rewrite Hev, Es. simpl.
      destruct (truthy schema); simpl; [|reflexivity]. now rewrite Hq, Hconv. }
    split.
    + pose proof (complete_calls h N i
                    (JStr (if truthy schema then msgWrongSchema h schema else msgNoSchema)) w)
        as Hcalls.
      rewrite processEvent_outcome, Eo.
      destruct (dispatchOutcome_prefixed h event _ (or_introl Eo)) as (rest & Hrest).
      rewrite Hrest in *.
      destruct (complete_counted h N i (JStr (badMsgPrefix +:+ rest)) w Hh
                  (nonFatal_prefixed h rest Hh)) as (tr & E & Hcb & _ & _ & Hco & _).
      rewrite E in *. eexists. split; [reflexivity|]. split; [|exact Hcalls].
      unfold counted, callbacks, completions. simpl.
      rewrite callbacksOf_app, completionsOf_app, Hcb, Hco. now repeat split.
    + rewrite processEvent_sync_outcome, Eo. reflexivity.
  - intros Hconv.
    assert (Eo : dispatchOutcome h event = Indescribable (TTimeoutNext (Throw unprintable))).
    { unfold dispatchOutcome. rewrite Hev, Es. simpl.
      rewrite (unconvertible_truthy schema Hconv). simpl. now rewrite Hq, Hconv. }
    split; [|split].
    + rewrite processEvent_outcome, Eo. reflexivity.
    + rewrite processEvent_sync_outcome, Eo. reflexivity.
    + intros w'. reflexivity.
Qed.

End Routing.

(** ** The concurrent driver: every call is made by the first turn *)

Section ConcurrentCalls.
Context `{V : Validator} `{R : Runtime}.

Lemma processRecord_calls (h : Handler) (N i : nat) (record : JSV) (w : World) :
  named h = true ->
  calls (snd (KinesisHandler.processRecord h N i record w)) =
  calls w ++ match routing h record with
             | Some (key, event) => [(i, key, event)]
             | None => []
             end.
Proof.
  intros Hh.
  destruct (processRecord_outcome h N i record w Hh) as (tr & (_ & Hq & _) & _ & E).
  rewrite E. unfold routing. apply callsOf_quiet in Hq.
  assert (Hw : calls (addTrace tr w) = calls w)
    by (rewrite calls_addTrace, Hq; apply app_nil_r).
  destruct (recordOutcome h record) as [key m ev|msg|msg|msg|schema| |ex|timer];
    rewrite ?complete_calls, ?app_nil_r; try exact Hw.
  rewrite callMethod_calls by apply complete_calls. rewrite Hw. now destruct m.
Qed.

Lemma forRecords_calls (h : Handler) (N : nat) (records : list JSV) (i : nat) (w : World) :
  named h = true ->
  exists l,
    calls (snd (KinesisHandler.forRecords h N records i w)) = calls w ++ l /\
    l `prefix_of` expectedCalls h records i /\
    (fst (KinesisHandler.forRecords h N records i w) = Ok tt ->
     l = expectedCalls h records i).
Proof.
  intros Hh.
  revert i w. induction records as [|record rest IH]; intros i w.
  - exists []. simpl. rewrite app_nil_r. now repeat split.
  - cbn [KinesisHandler.forRecords expectedCalls]. unfold bind.
    pose proof (processRecord_calls h N i record w Hh) as H1.
    destruct (KinesisHandler.processRecord h N i record w) as [[[]|ex] w1]; cbn [snd] in H1.
    + destruct (IH (S i) w1) as (l & Hl & Hp & Hok).
      eexists (_ ++ l). rewrite Hl, H1, <- app_assoc. split; [reflexivity|]. split.
      * now apply prefix_app.
      * intros Hr. now rewrite (Hok Hr).
    + eexists. cbn [snd fst]. split; [exact H1|]. split; [|discriminate].
      now apply prefix_app_r.
Qed.

Lemma topLevel_trace (m : M unit) (w : World) : trace (topLevel m w) = trace (snd (m w)).
Proof. unfold topLevel. now destruct (m w) as [[[]|ex] w']. Qed.

Lemma complete_decoded (h : Handler) (N i : nat) (err : JSV) (w : World) :
  decoded (snd (KinesisHandler.complete h N i err w)) = decoded w.
Proof.
  destruct (nonFatal h err) eqn:Hn.
  - destruct (named h) eqn:Hh.
    + destruct (complete_counted h N i err w Hh Hn) as (tr & E & _ & _ & Hd & _).
      rewrite E. unfold decoded. simpl. rewrite decodedOf_app, Hd. apply app_nil_r.
    + unfold nonFatal in Hn. rewrite Hh in Hn. simpl in Hn. rewrite orb_false_r in Hn.
      apply negb_true_iff in Hn. now rewrite (complete_unnamed h N i err w Hh Hn).
  - now rewrite (complete_fatal h N i err w Hn).
Qed.

Lemma runSchedule_concurrent_calls (h : Handler) (N : nat) (picks : list nat) (w : World) :
  calls (runSchedule (KinesisHandler.runTask h N) picks w) = calls w /\
  decoded (runSchedule (KinesisHandler.runTask h N) picks w) = decoded w.
Proof.
  revert w. induction picks as [|p picks IH]; intros w; simpl; [now split|].
  destruct (crashed w); [now split|].
  destruct (pending w !! p) as [t|]; [|apply IH].
  destruct (IH (KinesisHandler.runTask h N t (dequeue p w))) as [-> ->].
  destruct t as [i event err|arg|schema]; simpl; try now split.
  unfold calls, decoded. rewrite topLevel_trace.
  split; [apply (complete_calls h N i err (dequeue p w))
         |apply (complete_decoded h N i err (dequeue p w))].
Qed.

(** The [catch] block adds no method call. *)
Lemma catchBlock_calls (h : Handler) (ex : JSV) (w : World) :
  calls (snd (catchBlock h ex w)) = calls w.
Proof.
  destruct (reportable h ex) eqn:Hrep.
  - now rewrite (catchBlock_reports h ex w Hrep).
  - destruct (catchBlock_fails h ex w Hrep) as (e & ->). reflexivity.
Qed.

(** X9: The concurrent driver makes all its method calls and all its decoding
    while [processKinesisEvent] is on the stack: the turns that follow add
    none, in whatever order they run.  The calls are made in record order,
    each on the function registered for the record's [data.schema] and with
    the record's (transformed) event; they are the calls the batch asks for
    up to the record at which an exception left the loop, and all of them
    when none did. *)
Theorem concurrent_calls_follow_the_batch
    (h : Handler) (kinesisEvent : JSV) (records : list JSV) (picks : list nat) :
  recordsOf kinesisEvent = Some records ->
  calls (KinesisHandler.run h kinesisEvent picks)
    = calls (snd (KinesisHandler.processKinesisEvent h kinesisEvent World0)) /\
  decoded (KinesisHandler.run h kinesisEvent picks)
    = decoded (snd (KinesisHandler.processKinesisEvent h kinesisEvent World0)) /\
  calls (KinesisHandler.run h kinesisEvent picks) `prefix_of` expectedCalls h records 0 /\
  (fst (KinesisHandler.tryBlock h kinesisEvent World0) = Ok tt ->
   calls (KinesisHandler.run h kinesisEvent picks) = expectedCalls h records 0).
Proof.
  intros Hr. unfold KinesisHandler.run.
  destruct (runSchedule_concurrent_calls h (batchSize kinesisEvent) picks
              (snd (KinesisHandler.processKinesisEvent h kinesisEvent World0))) as [-> ->].
  split; [reflexivity|]. split; [reflexivity|].
  destruct (named h) eqn:Hh.
  2:{ destruct (processKinesisEvent_unnamed h kinesisEvent Hh) as [-> ->].
      split; [apply prefix_nil|discriminate]. }
  unfold KinesisHandler.processKinesisEvent, tryCatch.
  rewrite (tryBlock_eq h kinesisEvent Hh), Hr.
  set (w0 := mkWorld [received h kinesisEvent] 0 [] None None).
  destruct (forRecords_calls h (length records) records 0 w0 Hh) as (l & Hl & Hp & Hok).
  destruct (KinesisHandler.forRecords h (length records) records 0 w0) as [[[]|ex] w1];
    cbn [snd fst] in *.
  - rewrite Hl. split; [exact Hp|]. intros _. now apply Hok.
  - rewrite catchBlock_calls, Hl. split; [exact Hp|discriminate].
Qed.

End ConcurrentCalls.

(** ** The ordered driver: one record at a time, to the end of the batch *)

Section OrderedDrain.
Context `{V : Validator} `{R : Runtime}.

Lemma recordOutcome_routed (h : Handler) (record : JSV) (key : string) (m : Method)
    (ev : JSV) :
  recordOutcome h record = Dispatched key m ev -> routed h ev key m.
Proof.
  unfold recordOutcome. intros E. repeat case_match; try discriminate.
  apply dispatched_iff in E as [Hr ->]. exact Hr.
Qed.

(** Resuming the generator paused at a [yield]: the value sent in is pushed
    when truthy and the loop goes on with the next record. *)
Lemma itNext_resumes (h : Handler) (arg : JSV) (tr : list Event) (s : nat)
    (p : list Task) (x : option JSV) (g : Gen) :
  gstate g = SuspendedYield ->
  KinesisSynchronousHandler.itNext h arg (mkWorld tr s p x (Some g)) =
  match KinesisSynchronousHandler.recordGenerator h
          (drop (S (gi g)) (grecords g)) (S (gi g))
          (mkWorld tr s p x
             (Some (mkGen Executing (grecords g) (gi g)
                          (badMessages g ++ (if truthy arg then [arg] else [])))))
  with
  | (Ok u, w') => (Ok u, w')
  | (Throw ex, w') => (Throw ex, snd (KinesisSynchronousHandler.setGenState Completed w'))
  end.
Proof.
  intros Hst.
  unfold KinesisSynchronousHandler.itNext, KinesisSynchronousHandler.genRun.
  run_monad. rewrite Hst.
  unfold KinesisSynchronousHandler.setGenState, KinesisSynchronousHandler.pushBad.
  destruct (truthy arg); simpl; rewrite ?app_nil_r;
    destruct (KinesisSynchronousHandler.recordGenerator _ _ _ _) as [[u|ex] w'];
    reflexivity.
Qed.

Lemma drop_next {A} (l rest : list A) (x : A) (c : nat) :
  drop c l = x :: rest -> drop (S c) l = rest.
Proof.
  intros E. assert (Hx : l !! c = Some x).
  { rewrite <- (Nat.add_0_r c), <- lookup_drop, E. reflexivity. }
  rewrite (drop_S l x c Hx) in E. now injection E.
Qed.

Lemma recordOutcome_unsupported (h : Handler) (record schema : JSV) :
  recordOutcome h record = RejectedUnsupportedSchema schema -> convertible schema = true.
Proof.
  unfold recordOutcome. intros E. repeat case_match; try discriminate.
  eapply dispatchOutcome_unsupported. eassumption.
Qed.

Lemma recordGenerator_drains (h : Handler) (records rest : list JSV) :
  named h = true ->
  forall (c : nat) (tr : list Event) (s : nat) (st : GenState) (i : nat) (bad : list JSV),
    drop c records = rest ->
    Forall (fun record => orderly h record = true) rest ->
    exists w1,
      KinesisSynchronousHandler.recordGenerator h rest c
        (mkWorld tr s [] None (Some (mkGen st records i bad))) = (Ok tt, w1) /\
      finished (runSchedule (KinesisSynchronousHandler.runTask h)
                            (repeat 0 (turns h rest)) w1)
               (bad ++ badMessagesOf h rest) /\
      calls (runSchedule (KinesisSynchronousHandler.runTask h)
                         (repeat 0 (turns h rest)) w1)
        = callsOf tr ++ expectedCalls h rest c /\
      pending (runSchedule (KinesisSynchronousHandler.runTask h)
                           (repeat 0 (turns h rest)) w1) = [] /\
      crashed (runSchedule (KinesisSynchronousHandler.runTask h)
                           (repeat 0 (turns h rest)) w1) = None.
Proof.
  intros Hh.
  induction rest as [|record rest IH]; intros c tr s st i bad Hdrop Hall.
  - simpl. unfold bind, getIt, console_log, emit, KinesisSynchronousHandler.setGenState.
    simpl. eexists. split; [reflexivity|]. simpl. rewrite !app_nil_r.
    repeat split. eexists. repeat split.
    unfold lastLog, logs. simpl. rewrite logsOf_cons. apply last_snoc.
  - pose proof (drop_next _ _ _ _ Hdrop) as Hrest.
    apply Forall_cons in Hall as [Ho Hall].
    destruct (recordGenerator_outcome h record rest c
                (mkWorld tr s [] None (Some (mkGen st records i bad))) Hh)
      as (tr' & (_ & Hq & _) & _ & E).
    apply callsOf_quiet in Hq.
    rewrite E. clear E.
    cbn [turns badMessagesOf flat_map expectedCalls].
    unfold orderly in Ho. unfold pauses, badOf, routing.
    destruct (recordOutcome h record) as [key m ev|msg|msg|msg|schema| |ex|timer] eqn:Eo;
      try discriminate.
    + (* handed to a function that completes later *)
      destruct m as [n body|v]; [|discriminate].
      destruct (body ev) as [|[e|e|e] [|a l]] eqn:Eb; try discriminate.
      apply negb_true_iff in Ho.
      destruct (recordOutcome_routed h record key _ ev Eo)
        as (_ & schema & data & _ & _ & _ & _ & Ed & Eds & _ & _).
      unfold addTrace, callMethod, KinesisSynchronousHandler.yieldAt. run_monad.
      rewrite Eb. simpl.
      eexists. split; [reflexivity|].
      cbn [Nat.add repeat runSchedule crashed pending lookup list_lookup app].
      set (wt := KinesisSynchronousHandler.runTask h _ _).
      destruct (IH (S c)
                  (EvLog [JStr (banner h +:+ " " +:+ constants.METHOD_PROCESS_KINESIS_EVENT
                                  +:+ " - one " +:+ key +:+ " event processed successfully.")]
                     :: EvComplete c e :: EvInvoke c key ev :: tr' ++ tr)
                  s Executing c bad Hrest Hall) as (w1 & E1 & Hfin & Hcalls & Hp & Hx).
      assert (Hwt : wt = w1).
      { subst wt.
        unfold KinesisSynchronousHandler.runTask, topLevel, dequeue,
          KinesisSynchronousHandler.completion.
        run_monad. rewrite Ho, (toString_ok (module h) Hh). simpl.
        rewrite Ed. simpl. rewrite Eds. simpl.
        rewrite itNext_resumes by reflexivity. simpl. rewrite Hrest, app_nil_r.
        change (constants.MODULE +:+ " for " +:+ toStr (module h)) with (banner h).
        now rewrite E1. }
      rewrite Hwt. split; [exact Hfin|]. split; [|now split].
      rewrite Hcalls, !callsOf_cons, callsOf_app, Hq. simpl.
      now rewrite !app_nil_r, <- app_assoc.
    + (* a bad envelope: the description comes back through a timer *)
      destruct (recordOutcome_prefixed h record msg (or_introl Eo)) as (text & ->).
      unfold addTrace, defer, KinesisSynchronousHandler.yieldAt. simpl.
      eexists. split; [reflexivity|].
      cbn [Nat.add repeat runSchedule crashed pending lookup list_lookup app].
      set (wt := KinesisSynchronousHandler.runTask h _ _).
      destruct (IH (S c) (tr' ++ tr) s Executing c (bad ++ [JStr (badMsgPrefix +:+ text)])
                  Hrest Hall) as (w1 & E1 & Hfin & Hcalls & Hp & Hx).
      assert (Hwt : wt = w1).
      { subst wt. unfold KinesisSynchronousHandler.runTask, topLevel, dequeue. simpl.
        unfold bind at 1, lift at 1.
        rewrite itNext_resumes by reflexivity. rewrite truthy_prefixed. simpl.
        rewrite Hrest. now rewrite E1. }
      rewrite Hwt. rewrite <- app_assoc in Hfin. split; [exact Hfin|]. split; [|now split].
      rewrite Hcalls, callsOf_app, Hq. now rewrite app_nil_r.
    + (* a payload that fails its own schema: likewise *)
      destruct (recordOutcome_prefixed h record msg (or_intror (or_introl Eo))) as (text & ->).
      unfold addTrace, defer, KinesisSynchronousHandler.yieldAt. simpl.
      eexists. split; [reflexivity|].
      cbn [Nat.add repeat runSchedule crashed pending lookup list_lookup app].
      set (wt := KinesisSynchronousHandler.runTask h _ _).
      destruct (IH (S c) (tr' ++ tr) s Executing c (bad ++ [JStr (badMsgPrefix +:+ text)])
                  Hrest Hall) as (w1 & E1 & Hfin & Hcalls & Hp & Hx).
      assert (Hwt : wt = w1).
      { subst wt. unfold KinesisSynchronousHandler.runTask, topLevel, dequeue. simpl.
        unfold bind at 1, lift at 1.
        rewrite itNext_resumes by reflexivity. rewrite truthy_prefixed. simpl.
        rewrite Hrest. now rewrite E1. }
      rewrite Hwt. rewrite <- app_assoc in Hfin. split; [exact Hfin|]. split; [|now split].
      rewrite Hcalls, callsOf_app, Hq. now rewrite app_nil_r.
    + (* a payload that cannot be decoded: pushed within the same turn *)
      unfold addTrace, KinesisSynchronousHandler.pushBad. simpl.
      destruct (IH (S c) (tr' ++ tr) s st i (bad ++ [JStr msg]) Hrest Hall)
        as (w1 & E1 & Hfin & Hcalls & Hp & Hx).
      exists w1. split; [exact E1|].
      rewrite <- app_assoc in Hfin. split; [exact Hfin|]. split; [|now split].
      rewrite Hcalls, callsOf_app, Hq. now rewrite app_nil_r.
    + (* an unsupported schema: skipped through a timer *)
      unfold addTrace, defer, KinesisSynchronousHandler.yieldAt. simpl.
      eexists. split; [reflexivity|].
      cbn [Nat.add repeat runSchedule crashed pending lookup list_lookup app].
      set (wt := KinesisSynchronousHandler.runTask h _ _).
      destruct (IH (S c)
                  (EvLog [JStr (banner h +:+ " " +:+ constants.METHOD_PROCESS_EVENT
                                  +:+ " - skipping event with unsupported data schema ("
                                  +:+ toStr schema +:+ ").")] :: tr' ++ tr)
                  s Executing c bad Hrest Hall) as (w1 & E1 & Hfin & Hcalls & Hp & Hx).
      assert (Hwt : wt = w1).
      { subst wt. unfold KinesisSynchronousHandler.runTask, topLevel, dequeue.
        unfold bind at 1.
        rewrite say_ok
          by (try exact Hh; simpl; now rewrite (recordOutcome_unsupported h record schema Eo)).
        simpl.
        rewrite itNext_resumes by reflexivity. simpl. rewrite Hrest, app_nil_r.
        now rewrite E1. }
      rewrite Hwt. split; [exact Hfin|]. split; [|now split].
      rewrite Hcalls, callsOf_cons, callsOf_app, Hq. simpl. now rewrite !app_nil_r.
    + (* a payload that parses to a falsy value: dropped *)
      unfold addTrace. simpl.
      destruct (IH (S c) (tr' ++ tr) s st i bad Hrest Hall)
        as (w1 & E1 & Hfin & Hcalls & Hp & Hx).
      exists w1. split; [exact E1|].
      split; [exact Hfin|]. split; [|now split].
      rewrite Hcalls, callsOf_app, Hq. now rewrite app_nil_r.
Qed.

(** X10: On an instance whose module name converts to a string, the ordered
    driver gets through every batch whose records are each rejected with a
    description that can be built, skipped for a schema that converts to a
    string, dropped, or handed to a function that completes once, in a
    later turn and without an error.  After one turn for each record
    the generator paused at, it has reached the end of its function: the
    methods were called for the records the batch asks for, in record
    order and with their events; the descriptions of the bad messages were
    accumulated in record order and are the last thing logged; no task is
    left, nothing was raised, and the callback was not invoked. *)
Theorem ordered_driver_drains_an_orderly_batch
    (h : Handler) (kinesisEvent : JSV) (records : list JSV) :
  named h = true ->
  recordsOf kinesisEvent = Some records ->
  Forall (fun record => orderly h record = true) records ->
  finished (KinesisSynchronousHandler.run h kinesisEvent (repeat 0 (turns h records)))
           (badMessagesOf h records) /\
  calls (KinesisSynchronousHandler.run h kinesisEvent (repeat 0 (turns h records)))
    = expectedCalls h records 0 /\
  pending (KinesisSynchronousHandler.run h kinesisEvent (repeat 0 (turns h records))) = [] /\
  crashed (KinesisSynchronousHandler.run h kinesisEvent (repeat 0 (turns h records))) = None /\
  callbacks (KinesisSynchronousHandler.run h kinesisEvent (repeat 0 (turns h records))) = [].
Proof.
  intros Hh Hr Hall.
  destruct (recordGenerator_drains h records records Hh 0 [received h kinesisEvent] 0
              Executing 0 [] eq_refl Hall) as (w1 & E1 & Hfin & Hcalls & Hp & Hx).
  set (w0 := mkWorld [received h kinesisEvent] 0 [] None
                     (Some (mkGen SuspendedStart records 0 []))).
  assert (Hit : KinesisSynchronousHandler.itNext h JUndefined w0 = (Ok tt, w1)).
  { unfold KinesisSynchronousHandler.itNext, KinesisSynchronousHandler.genRun,
      KinesisSynchronousHandler.setGenState.
    run_monad. now rewrite E1. }
  assert (E : KinesisSynchronousHandler.processKinesisEvent h kinesisEvent World0
              = (Ok tt, w1)).
  { unfold KinesisSynchronousHandler.processKinesisEvent, tryCatch.
    rewrite (tryBlock_sync_eq h kinesisEvent Hh), Hr. fold w0. now rewrite Hit. }
  unfold KinesisSynchronousHandler.run. rewrite E. cbn [snd].
  split; [exact Hfin|]. split; [exact Hcalls|]. split; [exact Hp|]. split; [exact Hx|].
  rewrite runSchedule_silent.
  pose proof (silent_itNext h JUndefined w0) as Hi. now rewrite Hit in Hi.
Qed.


End OrderedDrain.

(** ** The driver of [lib/kinesis-handler.js] *)

Section LegacyDriver.
Context `{V : Validator} `{R : Runtime}.

Lemma legacy_carriesMarker_prefixed (h : Legacy.Handler) (rest : string) :
  Legacy.carriesMarker h (JStr (badMsgPrefix +:+ rest)) = true.
Proof.
  unfold Legacy.carriesMarker. simpl toStr.
  assert (E : Legacy.label h +:+ " " +:+ badMsgPrefix +:+ rest
              = (Legacy.label h +:+ " " +:+ badMsgPrefix) +:+ rest).
  { now rewrite !append_assoc. }
  rewrite E, indexOf_prefixed. reflexivity.
Qed.

Lemma legacy_say_ok (h : Legacy.Handler) (rest : string) (w : World) :
  Legacy.named h = true ->
  Legacy.say h [] rest w =
    (Ok tt, mkWorld (EvLog [JStr (Legacy.label h +:+ " " +:+ rest)] :: trace w)
                    (successes w) (pending w) (crashed w) (it w)).
Proof.
  intros Hn. unfold Legacy.say, interpolated, Legacy.named in *. simpl forallb.
  rewrite Hn. reflexivity.
Qed.

Lemma legacy_say_fails (h : Legacy.Handler) (rest : string) (w : World) :
  Legacy.named h = false -> Legacy.say h [] rest w = (Throw unprintable, w).
Proof.
  intros Hn. unfold Legacy.say, interpolated, Legacy.named in *. simpl forallb.
  rewrite Hn. reflexivity.
Qed.

Lemma legacy_complete_counted (h : Legacy.Handler) (N i : nat) (rest : string) (w : World) :
  Legacy.named h = true ->
  exists tr,
    Legacy.complete h N i (JStr (badMsgPrefix +:+ rest)) w =
      (Ok tt, mkWorld (tr ++ trace w) (S (successes w)) (pending w) (crashed w) (it w)) /\
    callbacksOf tr = (if (S (successes w) =? N)%nat then [None] else []) /\
    callsOf tr = [].
Proof.
  intros Hh.
  remember (S (successes w) =? N)%nat as b eqn:Hb.
  pose proof (Nat.add_1_r (successes w)) as E.
  pose proof (legacy_carriesMarker_prefixed h rest) as Hm.
  unfold Legacy.complete, Legacy.say, interpolated, Legacy.carriesMarker, Legacy.named in *.
  run_monad. rewrite Hh. simpl. simpl toStr in Hm. rewrite Hm. simpl.
  rewrite E, <- Hb. destruct b; simpl.
  - eexists (_ :: _ :: _ :: _ :: _ :: _ :: _ :: []). split; [reflexivity|]. now split.
  - eexists (_ :: _ :: _ :: _ :: _ :: []). split; [reflexivity|]. now split.
Qed.

Lemma legacy_fate_prefixed (record : JSV) (msg : string) :
  Legacy.fate record = Legacy.Counted msg -> exists rest, msg = badMsgPrefix +:+ rest.
Proof.
  unfold Legacy.fate, decodeMessage. intros E. repeat case_match; try discriminate;
    simplify_eq; eexists; reflexivity.
Qed.

(** What a failed read or conversion of [ex.stack] throws is an error
    object. *)
Lemma stackText_throws (ex e : JSV) :
  stackText ex = Throw e -> exists stack, stackText e = Ok stack.
Proof.
  unfold stackText at 1, toString. intros H.
  destruct (getProp ex "stack") as [stack|e'] eqn:Eg.
  - destruct (convertible stack); [discriminate|]. injection H as <-.
    eexists. reflexivity.
  - injection H as <-. apply getProp_throws in Eg as [_ ->]. eexists. reflexivity.
Qed.

(** Every exception that leaves the loop is an error object: the [catch]
    block can read and convert its [stack]. *)
Lemma legacy_fate_halts (record : JSV) (ex : JSV) :
  Legacy.fate record = Legacy.Halts ex -> exists stack, stackText ex = Ok stack.
Proof.
  unfold Legacy.fate, payloadOf, decodeMessage. intros E.
  assert (Hread : forall v k e, getProp v k = Throw e -> exists stack, stackText e = Ok stack).
  { intros v k e He. apply getProp_throws in He as [_ ->]. eexists. reflexivity. }
  repeat case_match; simplify_eq;
    try (eapply Hread; eassumption); try (eapply stackText_throws; eassumption);
    eexists; reflexivity.
Qed.

Lemma legacy_decodePayload_spec (h : Legacy.Handler) (i : nat) (data : JSV) (w : World) :
  Legacy.named h = true ->
  exists tr,
    Legacy.decodePayload h i data w = (parsePayload data, addTrace tr w) /\
    callbacksOf tr = [] /\ callsOf tr = [].
Proof.
  intros Hh.
  unfold Legacy.decodePayload, parsePayload, addTrace, Legacy.say, interpolated,
    Legacy.named in *.
  run_monad. rewrite Hh.
  destruct (Buffer_base64_toString data) as [payload|ex]; simpl.
  - destruct (JSON_parse payload) as [parsed|ex]; simpl;
      (eexists (_ :: _ :: []); split; [reflexivity|]; now split).
  - eexists (_ :: []); split; [reflexivity|]; now split.
Qed.

(** One iteration of the loop, by what becomes of the record. *)
Lemma legacy_processRecord_fate (h : Legacy.Handler) (N i : nat) (record : JSV) (w : World) :
  Legacy.named h = true ->
  exists tr,
    callbacksOf tr = [] /\ callsOf tr = [] /\
    Legacy.processRecord h N i record w =
    match Legacy.fate record with
    | Legacy.Halts ex => (Throw ex, addTrace tr w)
    | Legacy.Counted msg => Legacy.complete h N i (JStr msg) (addTrace tr w)
    | Legacy.Skipped => (Ok tt, addTrace tr w)
    end.
Proof.
  intros Hh.
  unfold Legacy.processRecord, Legacy.fate, payloadOf.
  unfold bind at 1, lift at 1.
  destruct (getProp record "kinesis") as [kinesis|ex]; simpl.
  2:{ exists []. split; [reflexivity|]. split; [reflexivity|]. destruct w; reflexivity. }
  unfold bind at 1.
  assert (Hdata : (if truthy kinesis then lift (getProp kinesis "data") else ret kinesis) w
                  = (if truthy kinesis then getProp kinesis "data" else Ok kinesis, w)).
  { now destruct (truthy kinesis). }
  rewrite Hdata. clear Hdata.
  destruct (if truthy kinesis then getProp kinesis "data" else Ok kinesis) as [data|ex].
  2:{ exists []. split; [reflexivity|]. split; [reflexivity|]. destruct w; reflexivity. }
  destruct (truthy data) eqn:Hd.
  2:{ exists []. split; [reflexivity|]. split; [reflexivity|]. destruct w; reflexivity. }
  destruct (legacy_decodePayload_spec h i data w Hh) as (tr & Edec & Hcb & Hcalls).
  exists tr. split; [exact Hcb|]. split; [exact Hcalls|].
  unfold bind at 1, tryCatch. rewrite Edec.
  destruct (parsePayload data) as [parsed|ex].
  - destruct (truthy parsed); reflexivity.
  - unfold bind at 1, lift at 1.
    destruct (decodeMessage ex) as [msg|e]; [|reflexivity].
    unfold bind at 1.
    destruct (Legacy.complete h N i (JStr msg) (addTrace tr w))
      as [[[]|ex'] w']; reflexivity.
Qed.

Lemma legacy_forRecords (h : Legacy.Handler) (N : nat) (records : list JSV) :
  Legacy.named h = true ->
  forall (i : nat) (w : World),
    i + length records = N -> callbacks w = [] -> successes w <= i ->
    pending (snd (Legacy.forRecords h N records i w)) = pending w /\
    crashed (snd (Legacy.forRecords h N records i w)) = crashed w /\
    calls (snd (Legacy.forRecords h N records i w)) = calls w /\
    match Legacy.firstHalt records with
    | Some ex =>
        fst (Legacy.forRecords h N records i w) = Throw ex /\
        callbacks (snd (Legacy.forRecords h N records i w)) = [] /\
        exists stack, stackText ex = Ok stack
    | None =>
        fst (Legacy.forRecords h N records i w) = Ok tt /\
        callbacks (snd (Legacy.forRecords h N records i w)) =
          (if (successes w =? i)%nat && Legacy.allCounted records
              && match records with [] => false | _ :: _ => true end
           then [None] else [])
    end.
Proof.
  intros Hh.
  induction records as [|record rest IH]; intros i w HN Hcb Hs.
  - simpl. rewrite andb_false_r. now repeat split.
  - cbn [Legacy.forRecords Legacy.firstHalt Legacy.allCounted forallb length] in *.
    unfold bind.
    destruct (legacy_processRecord_fate h N i record w Hh) as (tr & Htcb & Htc & E).
    rewrite E. clear E.
    assert (Hcbq : callbacks (addTrace tr w) = [])
      by (unfold callbacks, addTrace; simpl; rewrite callbacksOf_app, Htcb, app_nil_r;
          exact Hcb).
    assert (Hcq : calls (addTrace tr w) = calls w)
      by (rewrite calls_addTrace, Htc; apply app_nil_r).
    destruct (Legacy.fate record) as [msg| |ex] eqn:Ef.
    + destruct (legacy_fate_prefixed record msg Ef) as (text & ->).
      destruct (legacy_complete_counted h N i text (addTrace tr w) Hh)
        as (tr2 & E & Hcb2 & Hc2).
      rewrite E. clear E. cbn [successes addTrace] in Hcb2.
      set (w1 := mkWorld _ _ _ _ _).
      assert (Hc1 : calls w1 = calls w).
      { unfold calls, w1. simpl. rewrite callsOf_app, Hc2, app_nil_r. exact Hcq. }
      assert (Hcb1 : callbacks w1 = (if (S (successes w) =? N)%nat then [None] else [])).
      { unfold callbacks, w1. simpl. rewrite callbacksOf_app, Hcb2.
        unfold callbacks, addTrace in Hcbq. simpl in Hcbq. now rewrite Hcbq. }
      assert (Hp1 : pending w1 = pending w) by reflexivity.
      assert (Hx1 : crashed w1 = crashed w) by reflexivity.
      assert (Hs1 : successes w1 = S (successes w)) by reflexivity.
      clearbody w1. cbn [fst snd].
      destruct (Nat.eqb_spec (S (successes w)) N) as [Heq|Hne].
      * assert (Hrest : rest = []) by (destruct rest; [reflexivity|simpl in HN; lia]).
        subst rest. simpl. replace (successes w =? i)%nat with true
          by (symmetry; apply Nat.eqb_eq; simpl in HN; lia).
        now repeat split.
      * destruct (IH (S i) w1 ltac:(lia) Hcb1 ltac:(lia))
          as (Hp & Hx & Hc & Hres).
        rewrite Hp, Hx, Hc. repeat split; try assumption.
        destruct (Legacy.firstHalt rest) as [ex|]; [exact Hres|].
        destruct Hres as [Hr Hcbs]. split; [exact Hr|]. rewrite Hcbs.
        rewrite Hs1. simpl.
        destruct rest as [|r rest]; [|now rewrite !andb_true_r].
        rewrite !andb_false_r.
        destruct (Nat.eqb_spec (successes w) i) as [Heq|Hne']; [|reflexivity].
        simpl in HN. lia.
    + destruct (IH (S i) (addTrace tr w) ltac:(lia) Hcbq ltac:(simpl; lia))
        as (Hp & Hx & Hc & Hres).
      rewrite Hp, Hx, Hc. repeat split; try exact Hcq.
      destruct (Legacy.firstHalt rest) as [ex|]; [exact Hres|].
      destruct Hres as [Hr Hcbs]. split; [exact Hr|]. rewrite Hcbs.
      rewrite andb_false_r. simpl.
      replace (successes w =? S i)%nat with false; [reflexivity|].
      symmetry. apply Nat.eqb_neq. lia.
    + cbn [fst snd]. repeat split; try exact Hcq; try exact Hcbq.
      exact (legacy_fate_halts record ex Ef).
Qed.

(** The [catch] block on an error object. *)
Lemma legacy_catchBlock_reports (h : Legacy.Handler) (ex : JSV) (stack : string) (w : World) :
  Legacy.named h = true -> stackText ex = Ok stack ->
  Legacy.catchBlock h ex w =
    (Ok tt, addTrace [EvCallback (Some ex);
                      EvLog [JStr (Legacy.label h +:+ " "
                                     +:+ constants.METHOD_PROCESS_KINESIS_EVENT
                                     +:+ " - exception: " +:+ stack)]] w).
Proof.
  intros Hh Hs. unfold Legacy.catchBlock, Legacy.named, toString in *.
  run_monad. rewrite Hh. simpl. rewrite Hs. reflexivity.
Qed.

(** An instance whose module name cannot be converted to text: the first
    template literal of the [try] block throws, and so does the one of the
    [catch] block. *)
Lemma legacy_unnamed (h : Legacy.Handler) (kinesisEvent : JSV) :
  truthy (Legacy.synch h) = false -> Legacy.named h = false ->
  Legacy.processKinesisEvent h kinesisEvent World0 = (Throw unprintable, World0).
Proof.
  intros Hs Hh. unfold Legacy.processKinesisEvent. rewrite Hs.
  unfold tryCatch, Legacy.tryBlock. unfold bind at 1.
  rewrite legacy_say_fails by exact Hh.
  unfold Legacy.catchBlock, Legacy.named, toString in *. unfold bind at 1, lift at 1.
  now rewrite Hh.
Qed.

(** An instance whose module name converts: the first line is logged and
    the batch, if there is one, goes through the loop. *)
Lemma legacy_named (h : Legacy.Handler) (kinesisEvent : JSV) :
  truthy (Legacy.synch h) = false -> Legacy.named h = true ->
  Legacy.processKinesisEvent h kinesisEvent World0 =
  let w0 := mkWorld [EvLog [JStr (Legacy.label h +:+ " "
                                    +:+ constants.METHOD_PROCESS_KINESIS_EVENT
                                    +:+ " - Kinesis event received: "
                                    +:+ JSON_stringify kinesisEvent)]] 0 [] None None in
  match recordsOf kinesisEvent with
  | Some records =>
      match Legacy.forRecords h (length records) records 0 w0 with
      | (Ok a, w') => (Ok a, w')
      | (Throw ex, w') => Legacy.catchBlock h ex w'
      end
  | None =>
      (Ok tt, mkWorld (EvCallback (Some (JStr (Legacy.msgNoRecords h))) :: trace w0)
                      0 [] None None)
  end.
Proof.
  intros Hs Hh. unfold Legacy.processKinesisEvent. rewrite Hs.
  unfold tryCatch, Legacy.tryBlock. unfold bind at 1.
  rewrite legacy_say_ok by exact Hh.
  destruct (recordsOf kinesisEvent) as [records|].
  - run_monad. reflexivity.
  - unfold interpolated, Legacy.named in *. run_monad. rewrite Hh. reflexivity.
Qed.


(** X13: [lib/kinesis-handler.js] with [synch] not set, on a well-shaped batch.
    On an instance whose module name converts to text, the first record
    that cannot be read, whose decoding throws something with no [stack]
    to read and convert, or whose payload decodes to a truthy value (where
    the unbound [impl] is evaluated), ends the loop and its exception is
    handed to the callback.  Without such a record the callback is invoked,
    with no argument, exactly when the batch is not empty and every record
    in it was counted as a bad message.  On an instance whose module name
    does not convert, the callback is not invoked. *)
Theorem legacy_driver_outcome (h : Legacy.Handler) (kinesisEvent : JSV) (records : list JSV) :
  truthy (Legacy.synch h) = false ->
  recordsOf kinesisEvent = Some records ->
  callbacks (snd (Legacy.processKinesisEvent h kinesisEvent World0)) =
  if Legacy.named h then
    match Legacy.firstHalt records with
    | Some ex => [Some ex]
    | None =>
        if Legacy.allCounted records && match records with [] => false | _ :: _ => true end
        then [None] else []
    end
  else [].
Proof.
  intros Hs Hr.
  destruct (Legacy.named h) eqn:Hh.
  2:{ now rewrite (legacy_unnamed h kinesisEvent Hs Hh). }
  rewrite (legacy_named h kinesisEvent Hs Hh). cbv zeta. rewrite Hr.
  set (w0 := mkWorld _ 0 [] None None).
  destruct (legacy_forRecords h (length records) records Hh 0 w0 eq_refl eq_refl (le_n 0))
    as (_ & _ & _ & Hres).
  destruct (Legacy.firstHalt records) as [ex|];
    [destruct Hres as (Hres & Hcb & stack & Hst)|destruct Hres as [Hres Hcb]];
    destruct (Legacy.forRecords h (length records) records 0 w0) as [r w1];
    cbn [fst snd] in *; subst r.
  - rewrite (legacy_catchBlock_reports h ex stack w1 Hh Hst).
    unfold callbacks, addTrace in *. cbn [snd trace app].
    now rewrite !callbacksOf_cons, Hcb.
  - exact Hcb.
Qed.

End LegacyDriver.

(** ** The success signal of the concurrent driver *)

Section ConcurrentSignals.
Context `{V : Validator} `{R : Runtime}.



(** What an arbitrary method may do keeps a property of the world that
    the closure and the timers keep. *)
Lemma runScript_keeps (P : World -> Prop) (complete : JSV -> M unit) (i : nat)
    (event : JSV) (script : list HAction) (w : World) :
  (forall err w, P w -> P (snd (complete err w))) ->
  (forall t w, P w -> P (snd (defer t w))) ->
  P w -> P (snd (runScript complete i event script w)).
Proof.
  intros Hc Hd. revert w. induction script as [|[err|err|ex] script IH]; intros w Hw; simpl;
    try exact Hw.
  - unfold bind. specialize (Hc err w Hw).
    destruct (complete err w) as [[[]|ex] w1]; simpl in *; [|exact Hc]. now apply IH.
  - unfold bind. specialize (Hd (TCompletion i event err) w Hw).
    destruct (defer (TCompletion i event err) w) as [[[]|ex] w1] eqn:E; simpl in *.
    + now apply IH.
    + discriminate.
Qed.
















End ConcurrentSignals.

(** ** The ordered driver: calls in record order, whatever the methods do *)

Section OrderedCalls.
Context `{V : Validator} `{R : Runtime}.

Lemma expectedCalls_app (h : Handler) (l1 l2 : list JSV) (i : nat) :
  expectedCalls h (l1 ++ l2) i
  = expectedCalls h l1 i ++ expectedCalls h l2 (length l1 + i).
Proof.
  revert i. induction l1 as [|record l1 IH]; intros i; [reflexivity|].
  cbn [app expectedCalls length]. rewrite IH, <- app_assoc.
  now replace (length l1 + S i) with (S (length l1) + i) by lia.
Qed.

Lemma expectedCalls_take_S (h : Handler) (records : list JSV) (record : JSV) (c : nat) :
  records !! c = Some record ->
  expectedCalls h (take (S c) records) 0
  = expectedCalls h (take c records) 0
    ++ match routing h record with
       | Some (key, event) => [(c, key, event)]
       | None => []
       end.
Proof.
  intros Hc. rewrite (take_S_r _ _ _ Hc), expectedCalls_app.
  pose proof (lookup_lt_Some _ _ _ Hc) as Hlt.
  rewrite length_take, Nat.min_l, Nat.add_0_r by lia.
  cbn [expectedCalls]. now rewrite app_nil_r.
Qed.

Lemma expectedCalls_prefix (h : Handler) (records : list JSV) (c : nat) :
  expectedCalls h (take c records) 0 `prefix_of` expectedCalls h records 0.
Proof.
  rewrite <- (take_drop c records) at 2. rewrite expectedCalls_app. now apply prefix_app_r.
Qed.

Lemma drop_head {A} (l rest : list A) (x : A) (c : nat) :
  drop c l = x :: rest -> l !! c = Some x.
Proof.
  intros E. rewrite <- (Nat.add_0_r c), <- lookup_drop, E. reflexivity.
Qed.

(** A method called by the ordered dispatcher leaves the generator
    object alone. *)
Lemma callMethod_sync_it (h : Handler) (m : Method) (i : nat) (key : string)
    (event : JSV) (w : World) :
  it (snd (callMethod m i key event
             (KinesisSynchronousHandler.completion h
                KinesisSynchronousHandler.reentrantNext i event) w)) = it w.
Proof.
  destruct m as [n body|v]; [|reflexivity].
  simpl. unfold bind, emit. simpl.
  apply (runScript_keeps (fun w' => it w' = it w)); try reflexivity.
  - intros err w1 <-.
    destruct (truthy err) eqn:Ht.
    + now rewrite (completion_fatal h _ i event err w1 Ht).
    + destruct (completion_success h KinesisSynchronousHandler.reentrantNext i event err w1 Ht)
        as [(ex & ->)|(line & ->)]; [reflexivity|].
      destruct (reentrantNext_pure (addTrace [EvLog line; EvComplete i err] w1)) as (r & ->).
      reflexivity.
  - now intros t w1 <-.
Qed.

Lemma catchBlock_it (h : Handler) (ex : JSV) (w : World) :
  it (snd (catchBlock h ex w)) = it w /\ pending (snd (catchBlock h ex w)) = pending w.
Proof.
  destruct (reportable h ex) eqn:Hrep.
  - now rewrite (catchBlock_reports h ex w Hrep).
  - destruct (catchBlock_fails h ex w Hrep) as (e & ->). now split.
Qed.

(** A stretch of the generator body, from the top of iteration [c]. *)
Lemma recordGenerator_inOrder (h : Handler) (records rest : list JSV) :
  named h = true ->
  forall (c : nat) (tr : list Event) (s : nat) (p : list Task) (x : option JSV)
         (i : nat) (bad : list JSV),
    drop c records = rest -> c <= length records ->
    callsOf tr = expectedCalls h (take c records) 0 ->
    exists c' st' i' bad',
      it (snd (KinesisSynchronousHandler.recordGenerator h rest c
                 (mkWorld tr s p x (Some (mkGen Executing records i bad)))))
        = Some (mkGen st' records i' bad') /\
      c' <= length records /\
      calls (snd (KinesisSynchronousHandler.recordGenerator h rest c
                    (mkWorld tr s p x (Some (mkGen Executing records i bad)))))
        = expectedCalls h (take c' records) 0 /\
      match fst (KinesisSynchronousHandler.recordGenerator h rest c
                   (mkWorld tr s p x (Some (mkGen Executing records i bad)))) with
      | Ok _ => (st' = SuspendedYield /\ c' = S i') \/ st' = Completed
      | Throw _ => st' = Executing
      end.
Proof.
  intros Hh.
  induction rest as [|record rest IH]; intros c tr s p x i bad Hdrop Hc Hcalls.
  - simpl. unfold bind, getIt, console_log, emit, KinesisSynchronousHandler.setGenState.
    simpl. exists c, Completed, i, bad. repeat split; try assumption. now right.
  - pose proof (drop_next _ _ _ _ Hdrop) as Hrest.
    pose proof (drop_head _ _ _ _ Hdrop) as Hat.
    pose proof (lookup_lt_Some _ _ _ Hat) as Hlt.
    pose proof (expectedCalls_take_S h records record c Hat) as Hnext.
    destruct (recordGenerator_outcome h record rest c
                (mkWorld tr s p x (Some (mkGen Executing records i bad))) Hh)
      as (tr' & (_ & Hq & _) & _ & E).
    apply callsOf_quiet in Hq.
    rewrite E. clear E. unfold routing in Hnext.
    assert (Hq' : callsOf (tr' ++ tr) = expectedCalls h (take c records) 0)
      by (rewrite callsOf_app, Hq, app_nil_r; exact Hcalls).
    destruct (recordOutcome h record) as [key m ev|msg|msg|msg|schema| |ex|timer] eqn:Eo.
    + (* handed to the stored value *)
      unfold bind.
      pose proof (callMethod_sync_it h m c key ev
                    (addTrace tr' (mkWorld tr s p x (Some (mkGen Executing records i bad)))))
        as Hit.
      pose proof (callMethod_calls m c key ev
                    (KinesisSynchronousHandler.completion h
                       KinesisSynchronousHandler.reentrantNext c ev)
                    (addTrace tr' (mkWorld tr s p x (Some (mkGen Executing records i bad))))
                    (fun err w => completion_calls h c ev err w)) as Hcm.
      destruct (callMethod m c key ev _ _) as [[[]|ex] wm]; cbn [snd fst] in *.
      * unfold KinesisSynchronousHandler.yieldAt. cbn [snd fst it]. rewrite Hit. simpl.
        exists (S c), SuspendedYield, c, bad. split; [reflexivity|]. split; [lia|].
        split; [|now left].
        unfold calls in *. simpl in *. rewrite Hcm, Hnext, Hq'. now destruct m.
      * destruct m as [n body|v].
        -- exists (S c), Executing, i, bad. split; [exact Hit|]. split; [lia|].
           split; [|reflexivity]. unfold calls in *. simpl in *. now rewrite Hcm, Hnext, Hq'.
        -- exists c, Executing, i, bad. split; [exact Hit|]. split; [lia|].
           split; [|reflexivity]. unfold calls in *. simpl in *.
           now rewrite Hcm, app_nil_r, Hq'.
    + unfold addTrace, defer, KinesisSynchronousHandler.yieldAt. simpl.
      exists (S c), SuspendedYield, c, bad. split; [reflexivity|]. split; [lia|].
      split; [|now left]. unfold calls. simpl. now rewrite Hnext, app_nil_r.
    + unfold addTrace, defer, KinesisSynchronousHandler.yieldAt. simpl.
      exists (S c), SuspendedYield, c, bad. split; [reflexivity|]. split; [lia|].
      split; [|now left]. unfold calls. simpl. now rewrite Hnext, app_nil_r.
    + unfold addTrace, KinesisSynchronousHandler.pushBad. simpl.
      apply IH; [exact Hrest|lia|]. now rewrite Hnext, app_nil_r.
    + unfold addTrace, defer, KinesisSynchronousHandler.yieldAt. simpl.
      exists (S c), SuspendedYield, c, bad. split; [reflexivity|]. split; [lia|].
      split; [|now left]. unfold calls. simpl. now rewrite Hnext, app_nil_r.
    + unfold addTrace. simpl.
      apply IH; [exact Hrest|lia|]. now rewrite Hnext, app_nil_r.
    + unfold addTrace. simpl.
      exists c, Executing, i, bad. split; [reflexivity|]. split; [lia|].
      split; [exact Hq'|reflexivity].
    + unfold addTrace, defer, KinesisSynchronousHandler.yieldAt. simpl.
      exists (S c), SuspendedYield, c, bad. split; [reflexivity|]. split; [lia|].
      split; [|now left]. unfold calls. simpl. now rewrite Hnext, app_nil_r.
Qed.

(** [that.it.next(arg)] from a fresh stack keeps the calls in order. *)
Lemma itNext_inOrder (h : Handler) (records : list JSV) (arg : JSV) (w : World) :
  named h = true ->
  inOrder h records w ->
  inOrder h records (snd (KinesisSynchronousHandler.itNext h arg w)).
Proof.
  intros Hh (c & Hc & Hcalls & g & Hit & Hrec & Hns & Hy).
  destruct w as [tr s p x o]. simpl in Hit. subst o.
  destruct g as [st recs i bad]. simpl in *. subst recs.
  destruct st.
  - now destruct Hns.
  - rewrite itNext_resumes by reflexivity. simpl.
    specialize (Hy eq_refl). subst c.
    destruct (recordGenerator_inOrder h records (drop (S i) records) Hh (S i) tr s p x i
                (bad ++ (if truthy arg then [arg] else [])) eq_refl Hc Hcalls)
      as (c' & st' & i' & bad' & Hit' & Hc' & Hcalls' & Hst).
    destruct (KinesisSynchronousHandler.recordGenerator h _ _ _) as [[[]|ex] w']; cbn [fst snd] in *.
    + exists c'. split; [exact Hc'|]. split; [exact Hcalls'|].
      eexists. split; [exact Hit'|]. split; [reflexivity|]. simpl.
      destruct Hst as [[-> ->] | ->]; split; try discriminate; now intros.
    + exists c'. split; [exact Hc'|]. split; [exact Hcalls'|].
      rewrite Hit'. eexists. split; [reflexivity|]. split; [reflexivity|]. simpl.
      split; discriminate.
  - exists c. split; [exact Hc|]. split; [exact Hcalls|].
    eexists. split; [reflexivity|]. split; [reflexivity|]. split; discriminate.
  - exists c. split; [exact Hc|]. split; [exact Hcalls|].
    eexists. split; [reflexivity|]. split; [reflexivity|]. split; discriminate.
Qed.

Lemma inOrder_same (h : Handler) (records : list JSV) (w w' : World) :
  calls w' = calls w -> it w' = it w -> inOrder h records w -> inOrder h records w'.
Proof.
  intros Hc Hi (c & Hle & Hcalls & g & Hit & Hrest).
  exists c. split; [exact Hle|]. split; [congruence|]. exists g. split; [congruence|exact Hrest].
Qed.

Lemma topLevel_inOrder (h : Handler) (records : list JSV) (m : M unit) (w : World) :
  inOrder h records (snd (m w)) -> inOrder h records (topLevel m w).
Proof.
  unfold topLevel. destruct (m w) as [[[]|ex] w']; [trivial|].
  now apply inOrder_same.
Qed.

Lemma runTask_inOrder (h : Handler) (records : list JSV) (t : Task) (w : World) :
  named h = true ->
  inOrder h records w -> inOrder h records (KinesisSynchronousHandler.runTask h t w).
Proof.
  intros Hh Hw. destruct t as [i event err|arg|schema]; simpl; apply topLevel_inOrder.
  - destruct (truthy err) eqn:Ht.
    + rewrite (completion_fatal h _ i event err w Ht). revert Hw. now apply inOrder_same.
    + destruct (completion_success h (KinesisSynchronousHandler.itNext h JUndefined)
                  i event err w Ht) as [(ex & ->)|(line & ->)].
      * revert Hw. now apply inOrder_same.
      * apply itNext_inOrder; [exact Hh|]. revert Hw. now apply inOrder_same.
  - destruct arg as [arg|ex]; [|exact Hw].
    unfold bind, lift. now apply itNext_inOrder.
  - unfold bind.
    match goal with
    | |- context [say h ?vs ?rest w] => destruct (say_cases h vs rest w) as [-> | ->]
    end; [exact Hw|].
    apply itNext_inOrder; [exact Hh|]. revert Hw. now apply inOrder_same.
Qed.

Lemma runSchedule_inOrder (h : Handler) (records : list JSV) (picks : list nat) (w : World) :
  named h = true ->
  inOrder h records w ->
  inOrder h records (runSchedule (KinesisSynchronousHandler.runTask h) picks w).
Proof.
  intros Hh.
  revert w. induction picks as [|p picks IH]; intros w Hw; simpl; [exact Hw|].
  destruct (crashed w); [exact Hw|].
  destruct (pending w !! p) as [t|]; [|now apply IH].
  apply IH, runTask_inOrder; [exact Hh|]. revert Hw. now apply inOrder_same.
Qed.

(** X16: Whatever the registered methods do and in whatever order the later
    turns run, the ordered driver has at every moment called the methods
    for an initial stretch of the batch and for nothing else: the calls so
    far are exactly the calls that the first [c] records ask for, in record
    order, each made once, with the record's event and on the function
    registered for its [data.schema]. *)
Theorem ordered_calls_follow_the_batch
    (h : Handler) (kinesisEvent : JSV) (records : list JSV) (picks : list nat) :
  recordsOf kinesisEvent = Some records ->
  (exists c, c <= length records /\
             calls (KinesisSynchronousHandler.run h kinesisEvent picks)
               = expectedCalls h (take c records) 0) /\
  calls (KinesisSynchronousHandler.run h kinesisEvent picks)
    `prefix_of` expectedCalls h records 0.
Proof.
  intros Hr. destruct (named h) eqn:Hh.
  2:{ rewrite (run_sync_unnamed h kinesisEvent picks Hh).
      split; [exists 0; split; [lia|reflexivity]|apply prefix_nil]. }
  assert (Hin : inOrder h records (KinesisSynchronousHandler.run h kinesisEvent picks)).
  { unfold KinesisSynchronousHandler.run. apply runSchedule_inOrder; [exact Hh|].
    unfold KinesisSynchronousHandler.processKinesisEvent, tryCatch.
    rewrite (tryBlock_sync_eq h kinesisEvent Hh), Hr.
    unfold KinesisSynchronousHandler.itNext, KinesisSynchronousHandler.genRun,
      KinesisSynchronousHandler.setGenState.
    run_monad.
    destruct (recordGenerator_inOrder h records records Hh 0 [received h kinesisEvent] 0 []
                None 0 [] eq_refl (Nat.le_0_l _) eq_refl)
      as (c' & st' & i' & bad' & Hit' & Hc' & Hcalls' & Hst).
    destruct (KinesisSynchronousHandler.recordGenerator h _ _ _) as [[[]|ex] w'];
      cbn [fst snd] in *.
    - exists c'. split; [exact Hc'|]. split; [exact Hcalls'|].
      eexists. split; [exact Hit'|]. split; [reflexivity|]. simpl.
      destruct Hst as [[-> ->] | ->]; split; try discriminate; now intros.
    - match goal with
      | |- inOrder h records (snd (catchBlock h ex ?w2)) =>
          apply (inOrder_same h records w2);
          [apply catchBlock_calls|apply catchBlock_it|]
      end.
      exists c'. split; [exact Hc'|]. split; [exact Hcalls'|].
      simpl. rewrite Hit'. eexists. split; [reflexivity|]. split; [reflexivity|]. simpl.
      split; discriminate. }
  destruct Hin as (c & Hc & Hcalls & _).
  split; [now exists c|]. rewrite Hcalls. apply expectedCalls_prefix.
Qed.

End OrderedCalls.

(** ** The ordered driver waits for the completion *)

Section OrderedHeld.
Context `{V : Validator} `{R : Runtime}.










End OrderedHeld.

(** ** The ordered driver reports from the first turn only *)

Section OrderedReports.
Context `{V : Validator} `{R : Runtime}.

(** X18: Whatever the registered methods do and in whatever order the later
    turns run, the ordered driver invokes the callback during the call of
    [processKinesisEvent] or never: no later turn invokes it, neither for a
    batch that was drained nor for an exception raised while draining it.
    In particular, once the call has returned normally on a well-shaped
    batch the callback is never invoked. *)
Theorem ordered_driver_reports_from_the_first_turn_only
    (h : Handler) (kinesisEvent : JSV) (picks : list nat) :
  callbacks (KinesisSynchronousHandler.run h kinesisEvent picks)
    = callbacks (snd (KinesisSynchronousHandler.processKinesisEvent h kinesisEvent World0)) /\
  (forall records,
     recordsOf kinesisEvent = Some records ->
     fst (KinesisSynchronousHandler.tryBlock h kinesisEvent World0) = Ok tt ->
     callbacks (KinesisSynchronousHandler.run h kinesisEvent picks) = []).
Proof.
  unfold KinesisSynchronousHandler.run. rewrite runSchedule_silent.
  split; [reflexivity|]. intros records Hr.
  destruct (named h) eqn:Hh.
  2:{ now rewrite (proj1 (processKinesisEvent_sync_unnamed h kinesisEvent Hh)). }
  unfold KinesisSynchronousHandler.processKinesisEvent, tryCatch.
  rewrite (tryBlock_sync_eq h kinesisEvent Hh), Hr.
  pose proof (silent_itNext h JUndefined
                (mkWorld [received h kinesisEvent] 0 [] None
                         (Some (mkGen SuspendedStart records 0 [])))) as Hs.
  destruct (KinesisSynchronousHandler.itNext h JUndefined _) as [[[]|ex] w1];
    cbn [fst snd] in *; [|discriminate].
  intros _. exact Hs.
Qed.

End OrderedReports.

(** ** The further statements on the sample installation *)

Section CoverageRuns.
Import Sample.

Lemma sample_legacy_construct :
  Legacy.construct envelopeSchema (JBool false) (JStr "catalog") = Ok legacyFresh.
Proof. reflexivity. Qed.

(** A version given as the number 1 and a version given as the text 1
    lead to one identity. *)
Lemma makeSchemaId_injective_without_slash_witness :
  makeSchemaId (JObj [("self", JObj [("vendor", JStr "com.nordstrom");
                                     ("name", JStr "product"); ("version", JNum 1)])])
    = Ok "com.nordstrom/product/1" /\
  makeSchemaId (JObj [("self", JObj [("vendor", JStr "com.nordstrom");
                                     ("name", JStr "product"); ("version", JStr "1")])])
    = Ok "com.nordstrom/product/1" /\
  "com.nordstrom" = "com.nordstrom" /\ "product" = "product" /\
  toStr (JNum 1) = toStr (JStr "1").
Proof.
  split; [reflexivity|]. split; [reflexivity|].
  apply (makeSchemaId_injective_without_slash
           (JObj [("self", JObj [("vendor", JStr "com.nordstrom");
                                 ("name", JStr "product"); ("version", JNum 1)])])
           (JObj [("self", JObj [("vendor", JStr "com.nordstrom");
                                 ("name", JStr "product"); ("version", JStr "1")])])
           "com.nordstrom" "product" "com.nordstrom" "product" (JNum 1) (JStr "1")
           "com.nordstrom/product/1");
    try reflexivity; (eexists; repeat split; reflexivity).
Defined.

Lemma makeSchemaId_slash_collision_witness :
  makeSchemaId (JObj [("self", selfOf "com.nordstrom/retail" "stream" "1-0-0")])
  = makeSchemaId (JObj [("self", selfOf "com.nordstrom" "retail/stream" "1-0-0")]).
Proof.
  apply (makeSchemaId_slash_collision _ _ "com.nordstrom" "retail" "stream" "1-0-0");
    eexists; repeat split; reflexivity.
Defined.

Lemma registration_round_trip_witness :
  exists id body,
    makeSchemaId productSchema = Ok id /\ later = MFun 2 body /\
    ajv_addSchema (ajv fresh) productSchema id = Ok (ajv (handlerWith later)) /\
    registered (handlerWith later) (JStr id) = Some (id, later) /\
    (forall key, key <> id ->
                 schemaMethodPairs (handlerWith later) !! key = schemaMethodPairs fresh !! key) /\
    eventSchemaId (handlerWith later) = eventSchemaId fresh /\
    module (handlerWith later) = module fresh /\
    transfomer (handlerWith later) = transfomer fresh.
Proof.
  apply (registration_round_trip fresh (handlerWith later) productSchema later).
  reflexivity.
Defined.

Lemma registrations_keep_the_instance_callable_witness :
  binaryMethods (afterCalls fresh [(productSchema, later); (envelopeSchemaDraft, MOther JNull);
                                   (JNull, now)]) /\
  (forall event key m ev,
     dispatchOutcome (afterCalls fresh [(productSchema, later); (envelopeSchemaDraft, MOther JNull);
                                        (JNull, now)]) event = Dispatched key m ev ->
     exists body, m = MFun 2 body) /\
  (forall parsed record,
     transform (afterCalls fresh [(productSchema, later); (envelopeSchemaDraft, MOther JNull);
                                  (JNull, now)]) parsed record = Ok parsed).
Proof.
  apply (registrations_keep_the_instance_callable envelopeSchema (JStr "catalog") None fresh
           [(productSchema, later); (envelopeSchemaDraft, MOther JNull); (JNull, now)]).
  reflexivity.
Defined.

Lemma envelope_mismatch_is_a_bad_message_witness :
  (exists msg,
     msg = msgWrongSchema (handlerWith later) (JStr "com.acme/stream/1-0-0") /\
     (exists w',
        KinesisHandler.processEvent (handlerWith later) 0 strangerEvent
          (KinesisHandler.complete (handlerWith later) 2 0) World0 = (Ok tt, w') /\
        counted 2 0 (JStr msg) World0 w' /\ calls w' = calls World0) /\
     KinesisSynchronousHandler.processEvent (handlerWith later) 0 strangerEvent World0 =
       (Ok tt, mkWorld [] 0 [TTimeoutNext (Ok (JStr msg))] None None)) /\
  KinesisHandler.processEvent (handlerWith later) 0 opaqueEnvelopeEvent
    (KinesisHandler.complete (handlerWith later) 2 0) World0
    = (Throw (TypeError "Cannot convert object to primitive value"), World0).
Proof.
  split.
  - destruct (envelope_mismatch_is_a_bad_message (handlerWith later) 2 0 strangerEvent
                (JStr "com.acme/stream/1-0-0") World0) as [Hok _]; try reflexivity.
    apply Hok; reflexivity.
  - pose proof (envelope_mismatch_is_a_bad_message (handlerWith later) 2 0 opaqueEnvelopeEvent
                  (JObj [("toString", JNum 1)]) World0 eq_refl eq_refl eq_refl) as [_ Hno].
    exact (proj1 (Hno eq_refl)).
Defined.

Lemma concurrent_calls_follow_the_batch_witness :
  calls (KinesisHandler.run (handlerWith later) (batchOf [product1; stranger; product3]) [1; 0])
    = calls (snd (KinesisHandler.processKinesisEvent (handlerWith later)
                    (batchOf [product1; stranger; product3]) World0)) /\
  decoded (KinesisHandler.run (handlerWith later) (batchOf [product1; stranger; product3]) [1; 0])
    = decoded (snd (KinesisHandler.processKinesisEvent (handlerWith later)
                      (batchOf [product1; stranger; product3]) World0)) /\
  calls (KinesisHandler.run (handlerWith later) (batchOf [product1; stranger; product3]) [1; 0])
    `prefix_of` expectedCalls (handlerWith later) [product1; stranger; product3] 0 /\
  (fst (KinesisHandler.tryBlock (handlerWith later)
          (batchOf [product1; stranger; product3]) World0) = Ok tt ->
   calls (KinesisHandler.run (handlerWith later) (batchOf [product1; stranger; product3]) [1; 0])
     = expectedCalls (handlerWith later) [product1; stranger; product3] 0).
Proof.
  apply (concurrent_calls_follow_the_batch (handlerWith later)
           (batchOf [product1; stranger; product3]) [product1; stranger; product3] [1; 0]).
  reflexivity.
Defined.

Lemma ordered_driver_drains_an_orderly_batch_witness :
  finished (KinesisSynchronousHandler.run (handlerWith later)
              (batchOf [product1; stranger; product3; garbled; product5])
              (repeat 0 (turns (handlerWith later)
                               [product1; stranger; product3; garbled; product5])))
           (badMessagesOf (handlerWith later)
                          [product1; stranger; product3; garbled; product5]) /\
  calls (KinesisSynchronousHandler.run (handlerWith later)
           (batchOf [product1; stranger; product3; garbled; product5])
           (repeat 0 (turns (handlerWith later)
                            [product1; stranger; product3; garbled; product5])))
    = expectedCalls (handlerWith later) [product1; stranger; product3; garbled; product5] 0 /\
  pending (KinesisSynchronousHandler.run (handlerWith later)
             (batchOf [product1; stranger; product3; garbled; product5])
             (repeat 0 (turns (handlerWith later)
                              [product1; stranger; product3; garbled; product5]))) = [] /\
  crashed (KinesisSynchronousHandler.run (handlerWith later)
             (batchOf [product1; stranger; product3; garbled; product5])
             (repeat 0 (turns (handlerWith later)
                              [product1; stranger; product3; garbled; product5]))) = None /\
  callbacks (KinesisSynchronousHandler.run (handlerWith later)
               (batchOf [product1; stranger; product3; garbled; product5])
               (repeat 0 (turns (handlerWith later)
                                [product1; stranger; product3; garbled; product5]))) = [].
Proof.
  apply (ordered_driver_drains_an_orderly_batch (handlerWith later)
           (batchOf [product1; stranger; product3; garbled; product5])
           [product1; stranger; product3; garbled; product5]).
  - reflexivity.
  - reflexivity.
  - repeat constructor.
Defined.


Lemma legacy_driver_outcome_witness :
  callbacks (snd (Legacy.processKinesisEvent legacyFresh
                    (batchOf [garbled; product1; product3]) World0))
  = match Legacy.firstHalt [garbled; product1; product3] with
    | Some ex => [Some ex]
    | None =>
        if Legacy.allCounted [garbled; product1; product3] && true then [None] else []
    end.
Proof.
  apply (legacy_driver_outcome legacyFresh (batchOf [garbled; product1; product3])
           [garbled; product1; product3]); reflexivity.
Defined.

(** [lib/kinesis-handler.js] on an instance named by an object with a
    [toString] property that is not a function: the call throws and the
    callback is not invoked. *)
Lemma legacy_sample_unconvertible_module_name :
  let h := Legacy.mkHandler envelopeId (JBool false) (JObj [("toString", JNum 1)]) ∅
             [(envelopeId, envelopeSchema)] in
  Legacy.named h = false /\
  Legacy.processKinesisEvent h (batchOf [garbled; product1]) World0
    = (Throw (TypeError "Cannot convert object to primitive value"), World0).
Proof. vm_compute. split; reflexivity. Qed.


Lemma ordered_calls_follow_the_batch_witness :
  (exists c, c <= 3 /\
             calls (KinesisSynchronousHandler.run (handlerWith now)
                      (batchOf [product1; stranger; product3]) [0; 0])
               = expectedCalls (handlerWith now) (take c [product1; stranger; product3]) 0) /\
  calls (KinesisSynchronousHandler.run (handlerWith now)
           (batchOf [product1; stranger; product3]) [0; 0])
    `prefix_of` expectedCalls (handlerWith now) [product1; stranger; product3] 0.
Proof.
  apply (ordered_calls_follow_the_batch (handlerWith now)
           (batchOf [product1; stranger; product3]) [product1; stranger; product3] [0; 0]).
  reflexivity.
Defined.


(** Both signals can occur in one run of the concurrent driver: a method
    that calls its completion and then throws, on a batch of one record. *)
Lemma sample_both_signals :
  callbacks (KinesisHandler.run
               (handlerWith (MFun 2 (fun _ => [CompleteNow JUndefined; HThrow (JStr "late")])))
               (batchOf [product1]) [])
  = [None; Some (JStr "late")].
Proof. reflexivity. Qed.

End CoverageRuns.
